(** * gencrypto: the register model, instruction records, platform
      descriptions and code generator of the compiler back-end

    A shallow embedding of [src/common/regs.{h,cpp}], [insns.{h,cpp}],
    [platform.{h,cpp}], [codegen.{h,cpp}] and [platform_arm.cpp].

    Conventions of the embedding.
    - [size_t], [uint64_t] ([RegMask], [ImmValue]) are [Z] with the
      wrap-around modulo [2^64] written out ([wrap64]); [uint8_t] register
      numbers and [uint16_t] flag words are [Z] as well.
    - A C++ call either returns, throws [std::invalid_argument], or runs into
      undefined behaviour (a null pointer is dereferenced, a [std::vector] is
      indexed past its end).  All three are outcomes of type [result].
    - Member functions of [CodeGenerator] mutate the generator; they are
      functions [CodeGenerator.t -> result A * CodeGenerator.t], and the
      generator that comes back is the one left behind, also when the call
      threw. *)

From Stdlib Require Import String ZArith List Bool Lia.
From Stdlib Require OrderedTypeEx.
Import ListNotations.
Local Open Scope Z_scope.

(** ** Machine integers and outcomes *)

Definition wrap64 (x : Z) : Z := x mod 2 ^ 64.

Inductive failure : Type :=
| InvalidArgument   (* throw std::invalid_argument(...) *)
| NullDereference   (* undefined behaviour: write through a null pointer *)
| OutOfBounds.      (* undefined behaviour: vector index past the end *)

Inductive result (A : Type) : Type :=
| Ok (a : A)
| Fail (f : failure).
Arguments Ok {A} a.
Arguments Fail {A} f.

Definition bind {A B : Type} (r : result A) (k : A -> result B) : result B :=
  match r with
  | Ok a => k a
  | Fail f => Fail f
  end.

Declare Scope result_scope.
Delimit Scope result_scope with result.
Notation "'do' x <- r ; k" := (bind r (fun x => k))
  (at level 10, x name, r at level 100, k at level 200) : result_scope.

(** [v[i]] on a [std::vector]: defined only for [i < v.size()]. *)
Definition at_index {A : Type} (v : list A) (i : Z) : result A :=
  if (i <? 0) || (Z.of_nat (length v) <=? i) then Fail OutOfBounds
  else match nth_error v (Z.to_nat i) with
       | Some x => Ok x
       | None => Fail OutOfBounds
       end.

(** ** regs.h: [BasicRegister] *)

Module BasicRegister.

(** [enum Size]; the enumerators are the bit counts, and double as the
    bits of the [sizes] mask. *)
Inductive Size : Type := Size8 | Size16 | Size32 | Size64.

Definition bits (s : Size) : Z :=
  match s with
  | Size8 => 8
  | Size16 => 16
  | Size32 => 32
  | Size64 => 64
  end.

Definition Size_eqb (a b : Size) : bool := bits a =? bits b.

(** [enum Flag] *)
Definition TwoAddress     : Z := 0x0001.
Definition ThreeAddress   : Z := 0x0002.
Definition StackPointer   : Z := 0x0004.
Definition ProgramCounter : Z := 0x0008.
Definition Link           : Z := 0x0010.
Definition Address        : Z := 0x0020.
Definition Data           : Z := 0x0040.
Definition Storage        : Z := 0x0080.
Definition SignExtend     : Z := 0x0100.
Definition CalleeSaved    : Z := 0x0200.
Definition Zero           : Z := 0x0400.
Definition Temporary      : Z := 0x0800.
Definition NoAllocate     : Z := 0x1000.

(** [struct Private] without its reference count: the descriptor is shared
    copy-on-write, so every handle behaves as a value. *)
Record t : Type := mk {
  number : Z;
  sizes : Z;
  flags : Z;
  name8 : string;
  name16 : string;
  name32 : string;
  name64 : string;
  addrName : string
}.

(** [Private::Private()]; a handle whose [p] is null reads as this. *)
Definition null : t :=
  mk 255 (bits Size8) 0 EmptyString EmptyString EmptyString EmptyString
     EmptyString.

Definition isNull (r : t) : bool := number r =? 255.

Definition hasSize (r : t) (s : Size) : bool :=
  negb (Z.land (sizes r) (bits s) =? 0).

Definition hasFlag (r : t) (flag : Z) : bool :=
  Z.land (flags r) flag =? flag.

Definition maxSize (r : t) : Size :=
  if hasSize r Size64 then Size64
  else if hasSize r Size32 then Size32
  else if hasSize r Size16 then Size16
  else Size8.

Definition setNumber (n : Z) (r : t) : t :=
  mk n (sizes r) (flags r) (name8 r) (name16 r) (name32 r) (name64 r)
     (addrName r).
Definition setSizes (s : Z) (r : t) : t :=
  mk (number r) s (flags r) (name8 r) (name16 r) (name32 r) (name64 r)
     (addrName r).
Definition setFlags (f : Z) (r : t) : t :=
  mk (number r) (sizes r) f (name8 r) (name16 r) (name32 r) (name64 r)
     (addrName r).
Definition setName32 (n : string) (r : t) : t :=
  mk (number r) (sizes r) (flags r) (name8 r) (name16 r) n (name64 r)
     (addrName r).
Definition setName64 (n : string) (r : t) : t :=
  mk (number r) (sizes r) (flags r) (name8 r) (name16 r) (name32 r) n
     (addrName r).

Definition reg32 (number : Z) (name : string) (flags : Z) : t :=
  setFlags flags (setName32 name (setSizes (bits Size32)
    (setNumber number null))).

Definition reg64 (number : Z) (name : string) (flags : Z) : t :=
  setFlags flags (setName64 name (setSizes (bits Size64)
    (setNumber number null))).

Definition reg3264 (number : Z) (name32 name64 : string) (flags : Z) : t :=
  setFlags flags (setName64 name64 (setName32 name32
    (setSizes (Z.lor (bits Size32) (bits Size64))
      (setNumber number null)))).

(** [nameForSize(size)] *)
Definition nameForSize (r : t) (size : Size) : string :=
  match size with
  | Size8 => name8 r
  | Size16 => name16 r
  | Size32 => name32 r
  | Size64 => name64 r
  end.


End BasicRegister.

(** ** regs.h: [SizedRegister] *)

Module SizedRegister.
Import BasicRegister.

Record t : Type := mk {
  m_reg : BasicRegister.t;
  m_size : Size
}.

(** [SizedRegister()] *)
Definition empty : t := mk BasicRegister.null Size8.

(** [SizedRegister(reg, size)]: throws when [size] is not supported. *)
Definition make (reg : BasicRegister.t) (size : Size) : result t :=
  if negb (Z.land (bits size) (sizes reg) =? bits size)
  then Fail InvalidArgument
  else Ok (mk reg size).

Definition reg (r : t) : BasicRegister.t := m_reg r.
Definition size (r : t) : Size := m_size r.
Definition number (r : t) : Z := BasicRegister.number (m_reg r).

(** [operator==] *)
Definition eqb (a b : t) : bool :=
  (number a =? number b) && Size_eqb (m_size a) (m_size b).

Definition name (r : t) : string := nameForSize (m_reg r) (m_size r).

End SizedRegister.

(** ** regs.h, regs.cpp: [Reg] *)

Module Reg.
Import BasicRegister.
Local Open Scope result_scope.

Record t : Type := mk {
  m_size : Z;
  m_fullSize : Z;
  m_zeroFill : bool;
  m_regs : list SizedRegister.t
}.

(** [Reg::Reg()] *)
Definition null : t := mk 0 0 true [].

Definition size (r : t) : Z := m_size r.
Definition fullSize (r : t) : Z := m_fullSize r.
Definition zeroFill (r : t) : bool := m_zeroFill r.
Definition isNull (r : t) : bool := m_size r =? 0.
Definition numRegs (r : t) : Z := Z.of_nat (length (m_regs r)).
Definition reg (r : t) (index : Z) : result SizedRegister.t :=
  at_index (m_regs r) index.
Definition number (r : t) (index : Z) : result Z :=
  do x <- at_index (m_regs r) index; Ok (SizedRegister.number x).

Definition setZeroFill (z : bool) (r : t) : t :=
  mk (m_size r) (m_fullSize r) z (m_regs r).

Definition limbSize (r : t) : Z :=
  match m_regs r with
  | x :: _ => bits (SizedRegister.size x)
  | [] => 0
  end.

Definition setSize (size : Z) (r : t) : result t :=
  if (size >? m_fullSize r) || (size <=? wrap64 (m_fullSize r - limbSize r))
  then Fail InvalidArgument
  else Ok (mk size (m_fullSize r) (m_zeroFill r) (m_regs r)).

(** [addRegister(const SizedRegister &)] *)
Definition addRegister (reg : SizedRegister.t) (r : t) : result t :=
  if existsb (fun x => SizedRegister.number reg =? SizedRegister.number x)
             (m_regs r)
  then Fail InvalidArgument
  else
    match m_regs r with
    | x :: _ =>
        if negb (Size_eqb (SizedRegister.size x) (SizedRegister.size reg))
        then Fail InvalidArgument
        else Ok (mk (wrap64 (m_size r + bits (SizedRegister.size reg)))
                    (wrap64 (m_fullSize r + bits (SizedRegister.size reg)))
                    (m_zeroFill r) (m_regs r ++ [reg]))
    | [] =>
        Ok (mk (wrap64 (m_size r + bits (SizedRegister.size reg)))
               (wrap64 (m_fullSize r + bits (SizedRegister.size reg)))
               (m_zeroFill r) (m_regs r ++ [reg]))
    end.

(** [addRegister(const BasicRegister &, Size)] *)
Definition addRegisterSized (reg : BasicRegister.t) (size : Size) (r : t)
  : result t :=
  do s <- SizedRegister.make reg size; addRegister s r.

(** [addRegister(const BasicRegister &)] *)
Definition addRegisterMax (reg : BasicRegister.t) (r : t) : result t :=
  do s <- SizedRegister.make reg (maxSize reg); addRegister s r.

(** [Reg(const BasicRegister &)] *)
Definition ofBasic (reg : BasicRegister.t) : result t :=
  addRegisterMax reg null.

(** The loop of [reversed]:
    [for (index = m_regs.size(); index > 0; --index)
         result.m_regs.push_back(m_regs[index - 1]);] *)
Fixpoint reversed_loop (index : nat) (regs acc : list SizedRegister.t)
  : result (list SizedRegister.t) :=
  match index with
  | O => Ok acc
  | S i =>
      do x <- at_index regs (Z.of_nat (S i) - 1);
      reversed_loop i regs (acc ++ [x])
  end.

Definition reversed (r : t) : result t :=
  if negb (m_size r =? m_fullSize r) then Fail InvalidArgument
  else
    do regs <- reversed_loop (length (m_regs r)) (m_regs r) [];
    Ok (mk (m_size r) (m_fullSize r) true regs).

(** The loop of [subset]:
    [while (from <= to) { result.m_regs.push_back(m_regs[from]); ++from; }]
    It runs [to - from + 1] times when [from <= to] and not at all
    otherwise; [n] is that number of iterations. *)
Fixpoint subset_loop (n : nat) (from : Z) (regs acc : list SizedRegister.t)
  : result (list SizedRegister.t) :=
  match n with
  | O => Ok acc
  | S n' =>
      do x <- at_index regs from;
      subset_loop n' (from + 1) regs (acc ++ [x])
  end.

Definition subset (r : t) (start len : Z) : result t :=
  let len := if len =? 0 then m_size r else len in
  match m_regs r with
  | [] => Ok null
  | first :: _ =>
      if start >=? m_size r then Ok null
      else
        let len := if wrap64 (start + len) >? m_size r
                   then wrap64 (m_size r - start) else len in
        if len =? 0 then Ok null
        else
          let rsize := bits (SizedRegister.size first) in
          if negb (start mod rsize =? 0) then Fail InvalidArgument
          else if wrap64 (start + len) <? m_size r then
            (* Must have a register-aligned subset. *)
            if negb (len mod rsize =? 0) then Fail InvalidArgument
            else
              let from := start / rsize in
              let to := wrap64 (start + len) / rsize in
              do regs <- subset_loop (Z.to_nat (to - from + 1)) from
                                     (m_regs r) [];
              Ok (mk (len / rsize) (len / rsize) true regs)
          else
            (* Everything from start to the end of this register. *)
            let from := start / rsize in
            let to := Z.of_nat (length (m_regs r)) in
            do regs <- subset_loop (Z.to_nat (to - from + 1)) from
                                   (m_regs r) [];
            Ok (mk (wrap64 (m_size r - start))
                   (wrap64 (m_fullSize r - start))
                   (m_zeroFill r) regs)
  end.

Definition reduce (r : t) (len : Z) : result t := subset r 0 len.

End Reg.

(** ** insns.h, insns.cpp: [Insn] *)

Module Insn.
Local Open Scope result_scope.

(** [enum Type] *)
Inductive InsnType : Type :=
| Unknown | ADC | ADCI | ADD | ADDI | AND | ANDI | ASR | ASRI | BIC | BICI
| BREQ | BRGES | BRGEU | BRGTS | BRGTU | BRLES | BRLEU | BRLTS | BRLTU
| BRNE | CMP | CMPI | CMPNI | CMP_BREQ | CMP_BRNE | CMPI_BREQ | CMPI_BRNE
| EXTS | EXTU | FSLI | FSRI | JMP | LABEL
| LD8 | LD8S | LD8_ARRAY | LD8S_ARRAY
| LD16 | LD16S | LD16_ARRAY | LD16S_ARRAY
| LD32 | LD32S | LD32_ARRAY | LD32S_ARRAY
| LD64 | LD64_ARRAY | LD_LABEL
| LDARG8 | LDARG16 | LDARG32 | LDARG64 | LDI
| LSL | LSLI | LSR | LSRI | MOV | MOVI | MOVN | MOVW | MOVT
| NEG | NOP | NOT | OR | ORI | POP | PUSH | PRINT | PRINTCH | PRINTLN
| ROL | ROLI | ROR | RORI | SBC | SBCI | SUB | SUBI | SUBR | SUBRI
| ST8 | ST8_ARRAY | ST16 | ST16_ARRAY | ST32 | ST32_ARRAY
| ST64 | ST64_ARRAY | SWAP | XOR | XORI.

(** [enum Modifier] *)
Inductive Modifier : Type := MOD_NONE | MOD_ASR | MOD_LSL | MOD_LSR | MOD_ROR.

Definition Modifier_eqb (a b : Modifier) : bool :=
  match a, b with
  | MOD_NONE, MOD_NONE | MOD_ASR, MOD_ASR | MOD_LSL, MOD_LSL
  | MOD_LSR, MOD_LSR | MOD_ROR, MOD_ROR => true
  | _, _ => false
  end.

(** [enum Option] *)
Inductive Option : Type := NONE | SHORT | SETC.

(** [enum Fields] *)
Definition DEST : Z := 1.
Definition SRC1 : Z := 2.
Definition SRC2 : Z := 4.
Definition IMM  : Z := 8.
Definition LAB  : Z := 16.

(** [struct Private], without the reference count. *)
Record Private : Type := mkPrivate {
  type : InsnType;
  modifier : Modifier;
  shift : Z;
  fields : Z;
  reschedule : Z;
  option : Option;
  dest : SizedRegister.t;
  src1 : SizedRegister.t;
  src2 : SizedRegister.t;
  immValue : Z
}.

(** [Private::Private()] *)
Definition Private_new : Private :=
  mkPrivate Unknown MOD_NONE 0 0 0 NONE
            SizedRegister.empty SizedRegister.empty SizedRegister.empty 0.

(** An [Insn] is its pointer [p]: [None] is the null pointer,
    [Some d] points to the descriptor [d]. *)
Definition t : Type := Datatypes.option Private.

(** [Insn() : p(0) {}] *)
Definition new : t := None.

(** [read()]: allocates a default descriptor when [p] is null. *)
Definition read (i : t) : Private :=
  match i with
  | Some d => d
  | None => Private_new
  end.

(** [write()]: the body is [return 0;], whatever [p] is. *)
Definition write (i : t) : Datatypes.option Private := None.

(** [write()->field = value]: a store through the pointer that [write]
    returned. *)
Definition store (i : t) (upd : Private -> Private) : result t :=
  match write i with
  | None => Fail NullDereference
  | Some d => Ok (Some (upd d))
  end.

Definition getType (i : t) : InsnType := type (read i).
Definition getDest (i : t) : SizedRegister.t := dest (read i).
Definition getSrc1 (i : t) : SizedRegister.t := src1 (read i).
Definition getSrc2 (i : t) : SizedRegister.t := src2 (read i).
Definition getOption (i : t) : Option := option (read i).
Definition getImmValue (i : t) : Z := immValue (read i).
Definition hasDest (i : t) : bool := negb (Z.land (fields (read i)) DEST =? 0).

Definition setType (ty : InsnType) (i : t) : result t :=
  store i (fun d => mkPrivate ty (modifier d) (shift d) (fields d)
    (reschedule d) (option d) (dest d) (src1 d) (src2 d) (immValue d)).

Definition orFields (f : Z) (i : t) : result t :=
  store i (fun d => mkPrivate (type d) (modifier d) (shift d)
    (Z.lor (fields d) f) (reschedule d) (option d) (dest d) (src1 d)
    (src2 d) (immValue d)).

Definition setDest (r : SizedRegister.t) (i : t) : result t :=
  do i <- store i (fun d => mkPrivate (type d) (modifier d) (shift d)
    (fields d) (reschedule d) (option d) r (src1 d) (src2 d) (immValue d));
  orFields DEST i.

Definition setSrc1 (r : SizedRegister.t) (i : t) : result t :=
  do i <- store i (fun d => mkPrivate (type d) (modifier d) (shift d)
    (fields d) (reschedule d) (option d) (dest d) r (src2 d) (immValue d));
  orFields SRC1 i.

Definition setSrc2 (r : SizedRegister.t) (i : t) : result t :=
  do i <- store i (fun d => mkPrivate (type d) (modifier d) (shift d)
    (fields d) (reschedule d) (option d) (dest d) (src1 d) r (immValue d));
  orFields SRC2 i.

Definition setModifier (m : Modifier) (i : t) : result t :=
  store i (fun d => mkPrivate (type d) m (shift d) (fields d)
    (reschedule d) (option d) (dest d) (src1 d) (src2 d) (immValue d)).

Definition setShift (s : Z) (i : t) : result t :=
  store i (fun d => mkPrivate (type d) (modifier d) s (fields d)
    (reschedule d) (option d) (dest d) (src1 d) (src2 d) (immValue d)).

Definition setImmValue (v : Z) (i : t) : result t :=
  do i <- store i (fun d => mkPrivate (type d) (modifier d) (shift d)
    (fields d) (reschedule d) (option d) (dest d) (src1 d) (src2 d) v);
  orFields IMM i.

Definition setLabel (l : Z) (i : t) : result t :=
  do i <- store i (fun d => mkPrivate (type d) (modifier d) (shift d)
    (fields d) (reschedule d) (option d) (dest d) (src1 d) (src2 d) l);
  orFields LAB i.

Definition setOption (o : Option) (i : t) : result t :=
  store i (fun d => mkPrivate (type d) (modifier d) (shift d) (fields d)
    (reschedule d) o (dest d) (src1 d) (src2 d) (immValue d)).

Definition setReschedule (offset : Z) (i : t) : result t :=
  store i (fun d => mkPrivate (type d) (modifier d) (shift d) (fields d)
    offset (option d) (dest d) (src1 d) (src2 d) (immValue d)).

Definition bare (ty : InsnType) : result t :=
  setType ty new.

Definition unary (ty : InsnType) (dest src : SizedRegister.t) (o : Option)
  : result t :=
  do i <- setType ty new;
  do i <- setDest dest i;
  do i <- setSrc1 src i;
  setOption o i.

Definition binary (ty : InsnType) (dest src1 src2 : SizedRegister.t)
  (o : Option) : result t :=
  do i <- setType ty new;
  do i <- setDest dest i;
  do i <- setSrc1 src1 i;
  do i <- setSrc2 src2 i;
  setOption o i.

(** The overload of [binary] with a shift modifier. *)
Definition binaryShifted (ty : InsnType) (dest src1 src2 : SizedRegister.t)
  (m : Modifier) (sh : Z) (o : Option) : result t :=
  do i <- setType ty new;
  do i <- setDest dest i;
  do i <- setSrc1 src1 i;
  do i <- setSrc2 src2 i;
  do i <- (if negb (Modifier_eqb m MOD_NONE) && negb (sh =? 0)
           then do i <- setModifier m i; setShift sh i
           else Ok i);
  setOption o i.

Definition binaryImm (ty : InsnType) (dest src1 : SizedRegister.t)
  (imm : Z) (o : Option) : result t :=
  do i <- setType ty new;
  do i <- setDest dest i;
  do i <- setSrc1 src1 i;
  do i <- setImmValue imm i;
  setOption o i.

Definition moveImm (ty : InsnType) (dest : SizedRegister.t) (imm : Z)
  (o : Option) : result t :=
  do i <- setType ty new;
  do i <- setDest dest i;
  do i <- setImmValue imm i;
  setOption o i.

Definition branch (ty : InsnType) (label : Z) : result t :=
  do i <- setType ty new;
  setLabel label i.

End Insn.

(** ** platform.h, platform.cpp: [Platform] *)

Module Platform.
Import BasicRegister.

(** [enum Feature] *)
Definition TwoAddress       : Z := 0x0001.
Definition ThreeAddress     : Z := 0x0002.
Definition ShiftAndOperate  : Z := 0x0004.
Definition SplitRegisters   : Z := 0x0008.
Definition RegisterPoor     : Z := 0x0010.
Definition RegisterRich     : Z := 0x0020.
Definition ShiftToRotate    : Z := 0x0040.
Definition FunnelShift      : Z := 0x0080.
Definition BitClear         : Z := 0x0100.
Definition BigEndian        : Z := 0x0200.
Definition UnaryDest        : Z := 0x0400.
Definition CompareAndBranch : Z := 0x0800.

(** The data members, and the two virtual word-size queries as fields
    filled in by the subclass. *)
Record t : Type := mk {
  m_features : Z;
  m_registers : list BasicRegister.t;
  m_arguments : list BasicRegister.t;
  m_sp : BasicRegister.t;
  nativeWordSize : Size;
  addressWordSize : Size
}.

(** [Platform::Platform()] for a subclass with the given word sizes. *)
Definition new (native address : Size) : t :=
  mk 0 [] [] BasicRegister.null native address.

Definition hasFeature (p : t) (feature : Z) : bool :=
  Z.land (m_features p) feature =? feature.

Definition stackPointer (p : t) : BasicRegister.t := m_sp p.

Fixpoint find_number (regs : list BasicRegister.t) (n : Z)
  : BasicRegister.t :=
  match regs with
  | [] => BasicRegister.null
  | r :: rest => if number r =? n then r else find_number rest n
  end.

Definition registerForNumber (p : t) (n : Z) : BasicRegister.t :=
  find_number (m_registers p) n.

Definition setFeatures (features : Z) (p : t) : t :=
  mk features (m_registers p) (m_arguments p) (m_sp p)
     (nativeWordSize p) (addressWordSize p).

Definition addBasicRegister (r : BasicRegister.t) (p : t) : t :=
  mk (m_features p) (m_registers p ++ [r]) (m_arguments p) (m_sp p)
     (nativeWordSize p) (addressWordSize p).

Definition addArgumentRegister (n : Z) (p : t) : t :=
  mk (m_features p) (m_registers p)
     (m_arguments p ++ [registerForNumber p n]) (m_sp p)
     (nativeWordSize p) (addressWordSize p).

Definition setStackPointer (sp : BasicRegister.t) (p : t) : t :=
  mk (m_features p) (m_registers p) (m_arguments p) sp
     (nativeWordSize p) (addressWordSize p).

(** The loop of [registerForName] over [m_registers]. *)
Fixpoint find_name (regs : list BasicRegister.t) (name : string)
  : result SizedRegister.t :=
  match regs with
  | [] => Ok SizedRegister.empty
  | it :: rest =>
      if String.eqb name (name64 it) then SizedRegister.make it Size64
      else if String.eqb name (name32 it) then SizedRegister.make it Size32
      else if String.eqb name (name16 it) then SizedRegister.make it Size16
      else if String.eqb name (name8 it) then SizedRegister.make it Size8
      else find_name rest name
  end.

Definition registerForName (p : t) (name : string) : result SizedRegister.t :=
  if String.eqb name EmptyString then Ok SizedRegister.empty
  else find_name (m_registers p) name.


End Platform.

(** ** codegen.h, codegen.cpp: [CodeGenerator] *)

Module CodeGenerator.
Import BasicRegister.

Record t : Type := mk {
  m_platform : Platform.t;
  m_insns : list Insn.t;
  m_allocationSize : Size;
  m_allocatedRegs : Z;
  m_usedRegs : Z;
  m_nextArgumentReg : Z;
  m_nextArgumentOffset : Z;
  m_locals : Z
}.

(** [CodeGenerator(Platform *platform)] *)
Definition new (p : Platform.t) : t :=
  mk p [] (Platform.nativeWordSize p) 0 0 0 0 0.

(** A member function: the outcome and the generator left behind. *)
Definition M (A : Type) : Type := t -> result A * t.

Definition ret {A : Type} (a : A) : M A := fun g => (Ok a, g).
Definition throw {A : Type} (f : failure) : M A := fun g => (Fail f, g).
Definition bindM {A B : Type} (c : M A) (k : A -> M B) : M B :=
  fun g => match c g with
           | (Ok a, g') => k a g'
           | (Fail f, g') => (Fail f, g')
           end.
(** A call of a function that has no access to the generator. *)
Definition lift {A : Type} (r : result A) : M A := fun g => (r, g).

Notation "'let*' x ':=' c 'in' k" := (bindM c (fun x => k))
  (at level 10, x name, c at level 100, k at level 200).

(** [((RegMask)1) << number] *)
Definition regBit (number : Z) : Z := wrap64 (Z.shiftl 1 number).

Definition setMasks (allocated used : Z) (g : t) : t :=
  mk (m_platform g) (m_insns g) (m_allocationSize g) allocated used
     (m_nextArgumentReg g) (m_nextArgumentOffset g) (m_locals g).

(** [m_allocatedRegs |= bit; m_usedRegs |= bit;] *)
Definition markUsed (number : Z) (g : t) : t :=
  setMasks (Z.lor (m_allocatedRegs g) (regBit number))
           (Z.lor (m_usedRegs g) (regBit number)) g.

(** [m_allocatedRegs &= ~bit;] *)
Definition markFree (number : Z) (g : t) : t :=
  setMasks (Z.land (m_allocatedRegs g) (wrap64 (Z.lnot (regBit number))))
           (m_usedRegs g) g.

Definition addInsn (insn : Insn.t) : M unit :=
  fun g => (Ok tt,
            mk (m_platform g) (m_insns g ++ [insn]) (m_allocationSize g)
               (m_allocatedRegs g) (m_usedRegs g) (m_nextArgumentReg g)
               (m_nextArgumentOffset g) (m_locals g)).

Definition setAllocationSize (size : Size) (g : t) : t :=
  if existsb (fun it => hasFlag it Data && hasSize it size)
             (Platform.m_registers (m_platform g))
  then mk (m_platform g) (m_insns g) size (m_allocatedRegs g)
          (m_usedRegs g) (m_nextArgumentReg g) (m_nextArgumentOffset g)
          (m_locals g)
  else g.

(** The scan of [allocate] over [m_platform->m_registers], from the
    iterator position [regs] on. *)
Fixpoint allocate_scan (allocated : Z) (rsize : Size) (flags count : Z)
  (regs : list BasicRegister.t) (reg : Reg.t) : result Reg.t :=
  match regs with
  | [] => Ok reg
  | it :: rest =>
      if Reg.numRegs reg =? count then Ok reg
      else if negb (Z.land allocated (regBit (number it)) =? 0)
      then allocate_scan allocated rsize flags count rest reg
      else if negb (hasSize it rsize)
      then allocate_scan allocated rsize flags count rest reg
      else if negb (Z.land (BasicRegister.flags it) flags =? flags)
      then allocate_scan allocated rsize flags count rest reg
      else if hasFlag it NoAllocate
      then allocate_scan allocated rsize flags count rest reg
      else
        match Reg.addRegisterSized it rsize reg with
        | Ok reg' => allocate_scan allocated rsize flags count rest reg'
        | Fail f => Fail f
        end
  end.

(** Limb width chosen by [allocate] for a flag word. *)
Definition limbWidth (flags : Z) (g : t) : Size :=
  if negb (Z.land flags Address =? 0)
  then Platform.addressWordSize (m_platform g)
  else m_allocationSize g.

Definition limbCount (size flags : Z) (g : t) : Z :=
  wrap64 (size + bits (limbWidth flags g) - 1) / bits (limbWidth flags g).

Definition allocate (size flags : Z) : M Reg.t :=
  fun g =>
    if flags =? 0 then (Ok Reg.null, g)
    else
      let rsize := limbWidth flags g in
      let count := limbCount size flags g in
      match allocate_scan (m_allocatedRegs g) rsize flags count
              (Platform.m_registers (m_platform g)) Reg.null with
      | Fail f => (Fail f, g)
      | Ok reg =>
          if negb (Reg.numRegs reg =? count) then (Ok Reg.null, g)
          else
            let g' := fold_left
                        (fun g x => markUsed (SizedRegister.number x) g)
                        (Reg.m_regs reg) g in
            match Reg.setSize size reg with
            | Fail f => (Fail f, g')
            | Ok reg =>
                (Ok (if negb (Reg.fullSize reg =? size)
                     then Reg.setZeroFill false reg else reg), g')
            end
      end.

Definition allocateReg (size flags1 flags2 flags3 flags4 : Z) : M Reg.t :=
  if size =? 0 then throw InvalidArgument
  else
    let* reg := allocate size flags1 in
    if negb (Reg.isNull reg) then ret reg
    else
      let* reg := allocate size flags2 in
      if negb (Reg.isNull reg) then ret reg
      else
        let* reg := allocate size flags3 in
        if negb (Reg.isNull reg) then ret reg
        else
          let* reg := allocate size flags4 in
          if Reg.isNull reg then throw InvalidArgument
          else ret reg.

Definition allocateTempReg (size : Z) : M Reg.t :=
  allocateReg size (Z.lor Data Temporary) Data 0 0.

Definition allocateStorageReg (size : Z) : M Reg.t :=
  allocateReg size Storage Data 0 0.

(** [releaseReg(Reg &reg)]: the value left in [reg], and the generator. *)
Definition releaseReg (reg : Reg.t) (g : t) : Reg.t * t :=
  (Reg.null,
   fold_left (fun g x => markFree (SizedRegister.number x) g)
             (Reg.m_regs reg) g).

(** [enum ArgType] *)
Inductive ArgType : Type :=
| ARG_INT8 | ARG_UINT8 | ARG_INT16 | ARG_UINT16 | ARG_INT32 | ARG_UINT32
| ARG_INT64 | ARG_UINT64 | ARG_PTR.

Definition isPtr (ty : ArgType) : bool :=
  match ty with ARG_PTR => true | _ => false end.

Definition nextArgument (g : t) : t :=
  mk (m_platform g) (m_insns g) (m_allocationSize g) (m_allocatedRegs g)
     (m_usedRegs g) (m_nextArgumentReg g + 1) (m_nextArgumentOffset g)
     (m_locals g).

(** First loop of [addArgument]:
    [while (count > 0 && m_nextArgumentReg < m_arguments.size())];
    [args] are the elements of [m_arguments] from index
    [m_nextArgumentReg] on. *)
Fixpoint argumentRegs (args : list BasicRegister.t) (count : Z)
  (nsize : Size) (reg : Reg.t) : M (Z * Reg.t) :=
  match args with
  | [] => ret (count, reg)
  | basic :: rest =>
      if count >? 0 then
        fun g =>
          let g := nextArgument g in
          match Reg.addRegisterSized basic nsize reg with
          | Fail f => (Fail f, g)
          | Ok reg =>
              argumentRegs rest (count - 1) nsize reg
                           (markUsed (number basic) g)
          end
      else ret (count, reg)
  end.

(** Second loop of [addArgument]: [while (count > 0)], [n] iterations.
    The source has, between the allocation and [addRegister], the comment
    [// TODO: ldarg(temp, offset);] and no statement.  The local [offset]
    is only incremented and never read. *)
Fixpoint stackRegs (n : nat) (ty : ArgType) (nsize : Size) (reg : Reg.t)
  : M Reg.t :=
  match n with
  | O => ret reg
  | S n' =>
      let* temp := allocate (bits nsize) (if isPtr ty then Address else Data) in
      if Reg.isNull temp then throw InvalidArgument
      else
        let* limb := lift (Reg.reg temp 0) in
        let* reg := lift (Reg.addRegister limb reg) in
        let* number := lift (Reg.number temp 0) in
        let* _ := (fun g => (Ok tt, markUsed number g)) in
        stackRegs n' ty nsize reg
  end.

Definition addArgumentOffset (totalSize : Z) (g : t) : t :=
  mk (m_platform g) (m_insns g) (m_allocationSize g) (m_allocatedRegs g)
     (m_usedRegs g) (m_nextArgumentReg g)
     (wrap64 (m_nextArgumentOffset g + totalSize)) (m_locals g).

Definition addArgument (ty : ArgType) : M Reg.t :=
  fun g =>
    let p := m_platform g in
    let native := Platform.nativeWordSize p in
    let address := Platform.addressWordSize p in
    let asize := bits address in
    (* Determine how many bits are in the argument. *)
    let size :=
      match ty with
      | ARG_INT8 | ARG_UINT8 => 8
      | ARG_INT16 | ARG_UINT16 => 16
      | ARG_INT32 | ARG_UINT32 => 32
      | ARG_INT64 | ARG_UINT64 => 64
      | ARG_PTR => asize
      end in
    (* Round smaller values up to the native word size. *)
    let size := if size <? bits native then bits native else size in
    (* How many registers do we need to hold the value? *)
    let '(count, nsize) :=
      if isPtr ty then (1, address)
      else if (size =? 64) && (bits native <? asize) && (asize >=? 64)
      then (1, address)
      else (size / bits native, native) in
    (let* taken :=
       argumentRegs (skipn (Z.to_nat (m_nextArgumentReg g))
                           (Platform.m_arguments p))
                    count nsize Reg.null in
     let count := fst taken in
     let reg := snd taken in
     (* The remaining words are loaded from the stack instead. *)
     let totalSize := wrap64 (count * bits nsize) in
     let* reg := stackRegs (Z.to_nat count) ty nsize reg in
     let totalSize :=
       Z.land (wrap64 (totalSize + asize - 1)) (wrap64 (Z.lnot (asize - 1))) in
     let* _ := (fun g => (Ok tt, addArgumentOffset totalSize g)) in
     (* Reverse the register order if the platform is big-endian. *)
     if Platform.hasFeature p Platform.BigEndian
     then lift (Reg.reversed reg)
     else ret reg) g.

Definition setupLocals (sizeLocals : Z) (g : t) : t :=
  let asize := bits (Platform.addressWordSize (m_platform g)) in
  mk (m_platform g) (m_insns g) (m_allocationSize g) (m_allocatedRegs g)
     (m_usedRegs g) (m_nextArgumentReg g) (m_nextArgumentOffset g)
     (Z.land (wrap64 (sizeLocals + asize - 1)) (wrap64 (Z.lnot (asize - 1)))).

(** [setupPermutation(Reg &state, size_t sizeLocals)]: the value assigned
    to [state]. *)
Definition setupPermutation (sizeLocals : Z) : M Reg.t :=
  fun g => addArgument ARG_PTR (setupLocals sizeLocals g).

(** [v[i] = x] for [i] within the vector. *)
Fixpoint set_index {A : Type} (v : list A) (i : nat) (x : A) : list A :=
  match v, i with
  | [], _ => []
  | _ :: rest, O => x :: rest
  | y :: rest, S i' => y :: set_index rest i' x
  end.

(** [reschedule(int8_t offset, size_t index)] *)
Definition reschedule (offset index : Z) : M unit :=
  fun g =>
    let size := Z.of_nat (length (m_insns g)) in
    if index >=? size then (Ok tt, g)
    else
      let pos := wrap64 (size - index - 1) in
      match at_index (m_insns g) pos with
      | Fail f => (Fail f, g)
      | Ok insn =>
          match Insn.setReschedule offset insn with
          | Fail f => (Fail f, g)
          | Ok insn' =>
              (Ok tt,
               mk (m_platform g) (set_index (m_insns g) (Z.to_nat pos) insn')
                  (m_allocationSize g) (m_allocatedRegs g) (m_usedRegs g)
                  (m_nextArgumentReg g) (m_nextArgumentOffset g)
                  (m_locals g))
          end
      end.


End CodeGenerator.

(** ** platform_arm.h, platform_arm.cpp *)

(** A [while (cond) body;] loop over a state, run with a bound on the number
    of evaluations of [cond]; [None] when the bound is used up. *)
Fixpoint while {S : Type} (fuel : nat) (cond : S -> bool) (body : S -> S)
  (s : S) : option S :=
  match fuel with
  | O => None
  | S fuel' => if cond s then while fuel' cond body (body s) else Some s
  end.

Module Platform_ARM.
Import BasicRegister CodeGenerator.

(** [static bool isLowReg(const SizedRegister &reg)] *)
Definition isLowReg (reg : SizedRegister.t) : bool :=
  SizedRegister.number reg <? 8.

(** [Platform_ARM::unary] *)
Definition unary (p : Platform.t) (ty : Insn.InsnType)
  (dest src : SizedRegister.t) : M unit :=
  if Platform.hasFeature p Platform.TwoAddress && isLowReg dest
     && isLowReg src
  then let* insn := lift (Insn.unary ty dest src Insn.SHORT) in addInsn insn
  else if Platform.hasFeature p Platform.ThreeAddress
  then let* insn := lift (Insn.unary ty dest src Insn.NONE) in addInsn insn
  else throw InvalidArgument.

(** [Platform_ARM::binary(code, type, dest, src1, src2, setc)] *)
Definition binary (p : Platform.t) (ty : Insn.InsnType)
  (dest src1 src2 : SizedRegister.t) (setc : bool) : M unit :=
  if Platform.hasFeature p Platform.TwoAddress
     && SizedRegister.eqb dest src1 && isLowReg dest && isLowReg src2
  then let* insn := lift (Insn.binary ty dest src1 src2 Insn.SHORT) in
       addInsn insn
  else if Platform.hasFeature p Platform.ThreeAddress
  then let* insn := lift (Insn.binary ty dest src1 src2
                            (if setc then Insn.SETC else Insn.NONE)) in
       addInsn insn
  else throw InvalidArgument.

(** [Platform_ARM::binary(code, type, dest, src1, src2, modifier, shift,
    setc)] *)
Definition binaryShifted (p : Platform.t) (ty : Insn.InsnType)
  (dest src1 src2 : SizedRegister.t) (modifier : Insn.Modifier)
  (shift : Z) (setc : bool) : M unit :=
  if Platform.hasFeature p Platform.TwoAddress
     && SizedRegister.eqb dest src1 && isLowReg dest && isLowReg src2
     && (Insn.Modifier_eqb modifier Insn.MOD_NONE || (shift =? 0))
  then let* insn := lift (Insn.binary ty dest src1 src2 Insn.SHORT) in
       addInsn insn
  else if Platform.hasFeature p Platform.ThreeAddress
  then
    if Insn.Modifier_eqb modifier Insn.MOD_NONE || (shift =? 0)
    then let* insn := lift (Insn.binary ty dest src1 src2
                              (if setc then Insn.SETC else Insn.NONE)) in
         addInsn insn
    else let* insn := lift (Insn.binaryShifted ty dest src1 src2 modifier
                              shift (if setc then Insn.SETC else Insn.NONE)) in
         addInsn insn
  else throw InvalidArgument.

Local Open Scope string_scope.

Definition addBasicRegisters (regs : list BasicRegister.t) (p : Platform.t)
  : Platform.t :=
  fold_left (fun p r => Platform.addBasicRegister r p) regs p.

Definition addArgumentRegisters (numbers : list Z) (p : Platform.t)
  : Platform.t :=
  fold_left (fun p n => Platform.addArgumentRegister n p) numbers p.

(** [Platform_ARMv6m::Platform_ARMv6m()]; [nativeWordSize] is
    [Platform_ARM]'s, [Size32], and [addressWordSize] is inherited from
    [Platform]: the native word size. *)
Definition Platform_ARMv6m : Platform.t :=
  let p := Platform.new Size32 Size32 in
  let p := Platform.setFeatures
             (Z.lor (Z.lor (Z.lor Platform.TwoAddress Platform.SplitRegisters)
                           Platform.BitClear) Platform.UnaryDest) p in
  let low_flags := Z.lor (Z.lor Address Data) TwoAddress in
  let high_flags := Storage in
  let save_flags := CalleeSaved in
  let addr_only_flags := Address in
  let temp_flags := Temporary in
  let p := addBasicRegisters
    [ reg32 3 "r3" low_flags;
      reg32 2 "r2" low_flags;
      reg32 1 "r1" low_flags;
      reg32 0 "r0" low_flags;
      reg32 4 "r4" (Z.lor low_flags save_flags);
      reg32 5 "r5" (Z.lor low_flags save_flags);
      reg32 6 "r6" (Z.lor low_flags save_flags);
      reg32 7 "r7" (Z.lor low_flags save_flags);
      reg32 8 "r8" (Z.lor high_flags save_flags);
      reg32 9 "r9" (Z.lor high_flags save_flags);
      reg32 10 "r10" (Z.lor high_flags save_flags);
      reg32 12 "ip" (Z.lor high_flags temp_flags);
      reg32 11 "fp" (Z.lor high_flags save_flags);
      reg32 14 "lr" (Z.lor (Z.lor high_flags save_flags) Link) ] p in
  let sp := reg32 13 "sp"
              (Z.lor (Z.lor addr_only_flags StackPointer) NoAllocate) in
  let p := Platform.addBasicRegister sp p in
  let p := Platform.setStackPointer sp p in
  let p := Platform.addBasicRegister
             (reg32 15 "pc"
                (Z.lor (Z.lor addr_only_flags ProgramCounter) NoAllocate)) p in
  addArgumentRegisters [0; 1; 2; 3] p.

(** [Platform_ARMv8a::Platform_ARMv8a()]; [nativeWordSize] is overridden
    to [Size64]. *)
Definition Platform_ARMv8a : Platform.t :=
  let p := Platform.new Size64 Size64 in
  let p := Platform.setFeatures
             (Z.lor (Z.lor (Z.lor (Z.lor Platform.ThreeAddress
                                         Platform.ShiftAndOperate)
                                  Platform.RegisterRich)
                           Platform.BitClear) Platform.UnaryDest) p in
  let nosave_flags := Z.lor (Z.lor ThreeAddress Address) Data in
  let save_flags :=
    Z.lor (Z.lor (Z.lor ThreeAddress Address) Data) CalleeSaved in
  let addr_only_flags := Z.lor ThreeAddress Address in
  let noalloc := NoAllocate in
  let p := addBasicRegisters
    [ reg3264 9 "w9" "x9" nosave_flags;
      reg3264 10 "w10" "x10" nosave_flags;
      reg3264 11 "w11" "x11" nosave_flags;
      reg3264 12 "w12" "x12" nosave_flags;
      reg3264 13 "w13" "x13" nosave_flags;
      reg3264 14 "w14" "x14" nosave_flags;
      reg3264 15 "w15" "x15" nosave_flags;
      reg3264 8 "w8" "x8" nosave_flags;
      reg3264 7 "w7" "x7" nosave_flags;
      reg3264 6 "w6" "x6" nosave_flags;
      reg3264 5 "w5" "x5" nosave_flags;
      reg3264 4 "w4" "x4" nosave_flags;
      reg3264 3 "w3" "x3" nosave_flags;
      reg3264 2 "w2" "x2" nosave_flags;
      reg3264 1 "w1" "x1" nosave_flags;
      reg3264 0 "w0" "x0" nosave_flags;
      reg3264 16 "w16" "x16" (Z.lor save_flags noalloc);
      reg3264 17 "w17" "x17" (Z.lor save_flags noalloc);
      reg3264 18 "w18" "x18" (Z.lor save_flags noalloc);
      reg3264 19 "w19" "x19" save_flags;
      reg3264 20 "w20" "x20" save_flags;
      reg3264 21 "w21" "x21" save_flags;
      reg3264 22 "w22" "x22" save_flags;
      reg3264 23 "w23" "x23" save_flags;
      reg3264 24 "w24" "x24" save_flags;
      reg3264 25 "w25" "x25" save_flags;
      reg3264 26 "w26" "x26" save_flags;
      reg3264 27 "w27" "x27" save_flags;
      reg3264 28 "w28" "x28" save_flags;
      reg64 29 "fp" save_flags;
      reg64 30 "lr" (Z.lor save_flags Link) ] p in
  let sp := reg64 31 "sp"
              (Z.lor (Z.lor addr_only_flags StackPointer) NoAllocate) in
  let p := Platform.addBasicRegister sp p in
  let p := Platform.setStackPointer sp p in
  let p := Platform.addBasicRegister
             (reg64 32 "pc"
                (Z.lor (Z.lor addr_only_flags ProgramCounter) NoAllocate)) p in
  addArgumentRegisters [0; 1; 2; 3; 4; 5; 6; 7] p.

End Platform_ARM.

Module Platform_ARMv8a.
Import BasicRegister.

(** No loop of [isOperandLogicalConstantARMv8a] evaluates its condition
    more often than this on a 64-bit value (shown below, in
    [isOperandLogicalConstantARMv8a_returns]). *)
Definition loop_bound : nat := 64.

(** [(value >> 1) | (value << 63)] on [uint64_t] *)
Definition ror1 (value : Z) : Z :=
  wrap64 (Z.lor (Z.shiftr value 1) (wrap64 (Z.shiftl value 63))).

(** [(value << 1) | (value >> 63)] on [uint64_t] *)
Definition rol1 (value : Z) : Z :=
  wrap64 (Z.lor (wrap64 (Z.shiftl value 1)) (Z.shiftr value 63)).

(** [static bool isOperandMoveConstantARMv8a(value, size)] *)
Definition isOperandMoveConstantARMv8a (value : Z) (size : Size) : bool :=
  if Size_eqb size Size64 then
    if Z.land value 0x000000000000FFFF =? value then true
    else if Z.land value 0x00000000FFFF0000 =? value then true
    else if Z.land value 0x0000FFFF00000000 =? value then true
    else if Z.land value 0xFFFF000000000000 =? value then true
    else false
  else
    let val := value mod 2 ^ 32 in
    if Z.land val 0x0000FFFF =? val then true
    else if Z.land val 0xFFFF0000 =? val then true
    else false.

(** The last loop of [isOperandLogicalConstantARMv8a]:
    [for (offset = runSize; offset < 64; offset += runSize)]. *)
Fixpoint runsRepeat (fuel : nat) (value run runSize offset : Z)
  : option bool :=
  match fuel with
  | O => None
  | S fuel' =>
      if offset <? 64 then
        let nextRun :=
          Z.land (Z.shiftr value offset)
                 (wrap64 (wrap64 (Z.shiftl 1 runSize) - 1)) in
        if negb (nextRun =? run) then Some false
        else runsRepeat fuel' value run runSize (offset + runSize)
      else Some true
  end.

(** [static bool isOperandLogicalConstantARMv8a(value, size)];
    [None] stands for a loop that has not finished within [loop_bound]. *)
Definition isOperandLogicalConstantARMv8a (value : Z) (size : Size)
  : option bool :=
  (* Duplicate a 32-bit word into the low and high halves. *)
  let value :=
    if Size_eqb size Size32
    then wrap64 (Z.lor (wrap64 (Z.shiftl value 32)) (value mod 2 ^ 32))
    else value in
  (* All-zeroes and all-ones cannot be represented. *)
  if (value =? 0) || (value =? wrap64 (Z.lnot 0)) then Some false
  else
    (* Rotate the value right until we have a 1 in the least significant
       bit. *)
    match while loop_bound (fun v => Z.land v 1 =? 0) ror1 value with
    | None => None
    | Some value =>
    (* Rotate the value left until the highest bit is zero. *)
    match while loop_bound
            (fun v => negb (Z.land v 0x8000000000000000 =? 0)) rol1 value with
    | None => None
    | Some value =>
    (* Count how many 1's and 0's we have in the bottom-most run. *)
    match while loop_bound
            (fun ones => negb (Z.land value (wrap64 (Z.shiftl 1 ones)) =? 0))
            Z.succ 1 with
    | None => None
    | Some ones =>
    match while loop_bound
            (fun zeroes => (zeroes <? 64)
               && (Z.land value (wrap64 (Z.shiftl 1 zeroes)) =? 0))
            Z.succ ones with
    | None => None
    | Some zeroes =>
        let zeroes := zeroes - ones in
        (* If the run is 64 bits in length, then we are done. *)
        let runSize := ones + zeroes in
        if runSize =? 64 then Some true
        else if negb (runSize =? 2) && negb (runSize =? 4)
                && negb (runSize =? 8) && negb (runSize =? 16)
                && negb (runSize =? 32)
        then Some false
        else
          (* Check that the run is repeated throughout the word. *)
          let run := Z.land value (wrap64 (wrap64 (Z.shiftl 1 runSize) - 1)) in
          runsRepeat loop_bound value run runSize runSize
    end end end end.

(** [Platform_ARMv8a::validateImmediate(type, value, size)] *)
Definition validateImmediate (ty : Insn.InsnType) (value : Z) (size : Size)
  : option bool :=
  match ty with
  | Insn.ADDI | Insn.CMPI | Insn.CMPNI | Insn.SUBI =>
      if Z.land value 0x00000FFF =? value then Some true
      else if Z.land value 0x00FFF000 =? value then Some true
      else Some false
  | Insn.ANDI | Insn.ORI | Insn.XORI =>
      isOperandLogicalConstantARMv8a value size
  | Insn.MOVI =>
      if isOperandMoveConstantARMv8a value size then Some true
      else isOperandLogicalConstantARMv8a value size
  | Insn.MOVN => Some (isOperandMoveConstantARMv8a value size)
  | Insn.ASRI | Insn.LSLI | Insn.LSRI | Insn.ROLI | Insn.RORI =>
      if Size_eqb size Size64 then Some (value <? 64)
      else Some (value <? 32)
  | Insn.LD8 | Insn.LD8S | Insn.ST8 => Some (value <=? 4095)
  | Insn.LD16 | Insn.LD16S | Insn.ST16 =>
      Some ((Z.land value 1 =? 0) && (value <=? 8190))
  | Insn.LD32 | Insn.LD32S | Insn.ST32 =>
      Some ((Z.land value 3 =? 0) && (value <=? 16380))
  | Insn.LD64 | Insn.ST64 =>
      Some ((Z.land value 7 =? 0) && (value <=? 32760))
  | _ => Some false
  end.

(** *** The bitmask-immediate pattern, in the words of the specification *)

(** [copies] copies of the [e]-bit element [pat], from bit 0 upwards. *)
Fixpoint tile (copies : nat) (e pat : Z) : Z :=
  match copies with
  | O => 0
  | S n => pat + 2 ^ e * tile n e pat
  end.

(** The 64-bit word tiled with copies of a pattern of [Y] consecutive
    ones followed by [X] consecutive zeros. *)
Definition tiledWord (X Y : Z) : Z :=
  tile (Z.to_nat (64 / (X + Y))) (X + Y) (2 ^ Y - 1).

(** Rotation of a 64-bit word to the left by [r] bits, [0 <= r < 64]. *)
Definition rotl64 (w r : Z) : Z :=
  wrap64 (Z.lor (wrap64 (Z.shiftl w r)) (Z.shiftr w (64 - r))).

Definition bitmaskImmediate (v : Z) : Prop :=
  exists X Y k r,
    0 < Y /\ 0 < X /\ 0 <= k /\ X + Y = 2 ^ k /\ X + Y <= 64 /\
    0 <= r < 64 /\ v = rotl64 (tiledWord X Y) r.

(** The value that is examined: a 32-bit value is duplicated into both
    halves of the 64 bits. *)
Definition widen (value : Z) (size : Size) : Z :=
  match size with
  | Size32 => (value mod 2 ^ 32) * 2 ^ 32 + value mod 2 ^ 32
  | _ => value
  end.

End Platform_ARMv8a.


(** [uint32_t] wrap-around, and the value of [(int64_t)x] for a
    [uint64_t] [x]. *)
Definition wrap32 (x : Z) : Z := x mod 2 ^ 32.

Definition int64 (x : Z) : Z := if x <? 2 ^ 63 then x else x - 2 ^ 64.

Module Platform_ARMv6.
Import BasicRegister.

(** [value = (value << 2) | (value >> 30)] on [uint32_t] *)
Definition rotl2 (value : Z) : Z :=
  wrap32 (Z.lor (wrap32 (Z.shiftl value 2)) (Z.shiftr value 30)).

(** The loop of [isOperand2ConstantARMv6]:
    [for (shift = 2; shift <= 28; shift += 2)], which makes 14 rounds. *)
Fixpoint operand2_loop (rounds : nat) (value : Z) : bool :=
  match rounds with
  | O => false
  | S rounds' =>
      let value := rotl2 value in
      if value <? 256 then true else operand2_loop rounds' value
  end.

(** [static bool isOperand2ConstantARMv6(uint32_t value)] *)
Definition isOperand2ConstantARMv6 (value : Z) : bool :=
  if value <? 256 then true else operand2_loop 14 value.

(** [Platform_ARMv6::validateImmediate(type, value, size)] *)
Definition validateImmediate (ty : Insn.InsnType) (value : Z) (size : Size)
  : bool :=
  match ty with
  | Insn.ADCI | Insn.ADDI | Insn.ANDI | Insn.BICI | Insn.MOVI | Insn.MOVN
  | Insn.ORI | Insn.SBCI | Insn.SUBI | Insn.SUBRI | Insn.XORI =>
      isOperand2ConstantARMv6 (wrap32 value)
  | Insn.CMPI | Insn.CMPNI =>
      if isOperand2ConstantARMv6 (wrap32 value) then true
      else if isOperand2ConstantARMv6 (wrap32 (wrap64 (- value))) then true
      else false
  | Insn.ASRI | Insn.LSLI | Insn.LSRI | Insn.ROLI | Insn.RORI => value <? 32
  | Insn.LD8 | Insn.LD8S | Insn.ST8 | Insn.LD16 | Insn.LD16S | Insn.ST16
  | Insn.LD32 | Insn.LD32S | Insn.ST32 =>
      let offset := int64 value in
      (offset >=? -4095) && (offset <=? 4095)
  | _ => false
  end.

End Platform_ARMv6.

Module Platform_ARMv6m.
Import BasicRegister.

(** [Platform_ARMv6m::validateImmediate(type, value, size)] *)
Definition validateImmediate (ty : Insn.InsnType) (value : Z) (size : Size)
  : bool :=
  match ty with
  | Insn.ADDI | Insn.CMPI | Insn.MOVI | Insn.SUBI => value <? 256
  | Insn.ASRI | Insn.LSLI | Insn.LSRI => value <? 32
  | Insn.SUBRI => value =? 0
  | Insn.LD8 | Insn.ST8 => value <=? 31
  | Insn.LD16 | Insn.ST16 => (Z.land value 2 =? 0) && (value <=? 62)
  | Insn.LD32 | Insn.LD32S | Insn.ST32 =>
      (Z.land value 3 =? 0) && (value <=? 124)
  | _ => false
  end.

End Platform_ARMv6m.

Module Platform_ARMv7m.
Import BasicRegister.

(** The loop of [isOperand2ConstantARMv7m]:
    [for (shift = 0; shift <= 24; shift += 4)], which makes 7 rounds. *)
Fixpoint modified_loop (rounds : nat) (shift value : Z) : bool :=
  match rounds with
  | O => false
  | S rounds' =>
      let mask := Z.shiftr 0xFF000000 shift in
      if negb (Z.land value mask =? value)
      then modified_loop rounds' (shift + 4) value
      else
        let mask := Z.shiftr 0x80000000 shift in
        if Z.land value mask =? mask then true
        else modified_loop rounds' (shift + 4) value
  end.

(** [static bool isOperand2ConstantARMv7m(uint32_t value)] *)
Definition isOperand2ConstantARMv7m (value : Z) : bool :=
  if value <? 256 then true
  else if (Z.land value 0x00FF00FF =? value)
          && (Z.shiftr value 16 =? Z.land value 0xFF)
  then true
  else if (Z.land value 0xFF00FF00 =? value)
          && (Z.shiftr value 16 =? Z.land value 0xFF00)
  then true
  else if (Z.land (Z.shiftr value 24) 0xFF =? Z.land value 0xFF)
          && (Z.land (Z.shiftr value 16) 0xFF =? Z.land value 0xFF)
          && (Z.land (Z.shiftr value 8) 0xFF =? Z.land value 0xFF)
  then true
  else modified_loop 7 0 value.

(** [Platform_ARMv7m::validateImmediate(type, value, size)] *)
Definition validateImmediate (ty : Insn.InsnType) (value : Z) (size : Size)
  : bool :=
  match ty with
  | Insn.ADCI | Insn.ADDI | Insn.ANDI | Insn.BICI | Insn.MOVI | Insn.MOVN
  | Insn.ORI | Insn.SBCI | Insn.SUBI | Insn.SUBRI | Insn.XORI =>
      isOperand2ConstantARMv7m (wrap32 value)
  | Insn.CMPI | Insn.CMPNI =>
      if isOperand2ConstantARMv7m (wrap32 value) then true
      else if isOperand2ConstantARMv7m (wrap32 (wrap64 (- value))) then true
      else false
  | Insn.ASRI | Insn.LSLI | Insn.LSRI | Insn.ROLI | Insn.RORI => value <? 32
  | Insn.LD8 | Insn.LD8S | Insn.ST8 | Insn.LD16 | Insn.LD16S | Insn.ST16
  | Insn.LD32 | Insn.LD32S | Insn.ST32 =>
      let offset := int64 value in
      (offset >=? -255) && (offset <=? 4095)
  | _ => false
  end.

End Platform_ARMv7m.

(** ** registry.h, registry.cpp: [Registration] *)

Module Registration.
Local Open Scope string_scope.

(** The three names and the four handlers; a handler is a function
    pointer, [0] when it is null. *)
Record t : Type := mk {
  m_name : string;
  m_variant : string;
  m_platform : string;
  m_generate : Z;
  m_test : Z;
  m_generateAVR : Z;
  m_testAVR : Z
}.

(** [Registration()] *)
Definition new : t := mk EmptyString EmptyString EmptyString 0 0 0 0.

Definition empty (r : t) : bool := String.eqb (m_name r) EmptyString.

Definition setName (name : string) (r : t) : t :=
  mk name (m_variant r) (m_platform r) (m_generate r) (m_test r)
     (m_generateAVR r) (m_testAVR r).
Definition setVariant (variant : string) (r : t) : t :=
  mk (m_name r) variant (m_platform r) (m_generate r) (m_test r)
     (m_generateAVR r) (m_testAVR r).
Definition setPlatform (platform : string) (r : t) : t :=
  mk (m_name r) (m_variant r) platform (m_generate r) (m_test r)
     (m_generateAVR r) (m_testAVR r).
Definition setGenerate (gen : Z) (r : t) : t :=
  mk (m_name r) (m_variant r) (m_platform r) gen (m_test r)
     (m_generateAVR r) (m_testAVR r).
Definition setTest (test : Z) (r : t) : t :=
  mk (m_name r) (m_variant r) (m_platform r) (m_generate r) test
     (m_generateAVR r) (m_testAVR r).
Definition setGenerateAVR (gen : Z) (r : t) : t :=
  mk (m_name r) (m_variant r) (m_platform r) (m_generate r) (m_test r)
     gen (m_testAVR r).
Definition setTestAVR (test : Z) (r : t) : t :=
  mk (m_name r) (m_variant r) (m_platform r) (m_generate r) (m_test r)
     (m_generateAVR r) test.

Definition qualifiedName (r : t) : string :=
  let qual := m_name r in
  let qual := if negb (String.eqb (m_variant r) EmptyString)
              then (qual ++ ":") ++ m_variant r else qual in
  if negb (String.eqb (m_platform r) EmptyString)
  then (qual ++ ":") ++ m_platform r else qual.

(** [if (s) set(s);] for a [const char *] that may be null. *)
Definition setIfGiven (set : string -> t -> t) (s : option string) (r : t)
  : t :=
  match s with
  | Some s => set s r
  | None => r
  end.

(** [registerFunction]: the vector [registrations] after the call. *)
Definition registerFunction (name variant platform : option string)
  (gen test : Z) (registrations : list t) : list t :=
  let reg := new in
  let reg := setIfGiven setName name reg in
  let reg := setIfGiven setVariant variant reg in
  let reg := setIfGiven setPlatform platform reg in
  let reg := setGenerate gen reg in
  let reg := setTest test reg in
  registrations ++ [reg].

Definition registerFunctionAVR (name variant platform : option string)
  (gen test : Z) (registrations : list t) : list t :=
  let reg := new in
  let reg := setIfGiven setName name reg in
  let reg := setIfGiven setVariant variant reg in
  let reg := setIfGiven setPlatform platform reg in
  let reg := setGenerateAVR gen reg in
  let reg := setTestAVR test reg in
  registrations ++ [reg].

(** [operator<]; [std::string] is compared byte by byte, a proper prefix
    being smaller. *)
Definition ltb (a b : t) : bool :=
  if String.ltb (m_name a) (m_name b) then true
  else if negb (String.eqb (m_name a) (m_name b)) then false
  else if String.ltb (m_variant a) (m_variant b) then true
  else if negb (String.eqb (m_variant a) (m_variant b)) then false
  else String.ltb (m_platform a) (m_platform b).

(** [find(qualifiedName)] over the vector [registrations]. *)
Fixpoint find (registrations : list t) (name : string) : t :=
  match registrations with
  | [] => new
  | r :: rest =>
      if String.eqb (qualifiedName r) name then r else find rest name
  end.

End Registration.

(** * Definitions used in the statements and proofs *)

Section Auxiliary.
Import BasicRegister CodeGenerator Platform_ARM Platform_ARMv8a.

(** A register used in the examples: [r0] of the 32-bit ARM platforms. *)
Definition r0 : BasicRegister.t :=
  reg32 0 "r0" (Z.lor (Z.lor Address Data) TwoAddress).

(** [Reg(r0)], 32 bits in one limb. *)
Definition reg_r0 : Reg.t :=
  Reg.mk 32 32 true [SizedRegister.mk r0 Size32].

(** [r0] with its zero-fill flag cleared by [setZeroFill(false)]. *)
Definition reg_r0_unfilled : Reg.t := Reg.setZeroFill false reg_r0.

(** [r0], [r1] and [r2] of [Platform_ARMv6m] at 32 bits. *)
Definition sized_r0 : SizedRegister.t := SizedRegister.mk r0 Size32.
Definition sized_r1 : SizedRegister.t :=
  SizedRegister.mk (reg32 1 "r1" (Z.lor (Z.lor Address Data) TwoAddress))
                   Size32.
Definition sized_r2 : SizedRegister.t :=
  SizedRegister.mk (reg32 2 "r2" (Z.lor (Z.lor Address Data) TwoAddress))
                   Size32.

(** The fields of the generator other than the two register masks. *)
Definition sameButMasks (g g' : CodeGenerator.t) : Prop :=
  m_platform g' = m_platform g /\ m_insns g' = m_insns g /\
  m_allocationSize g' = m_allocationSize g /\
  m_nextArgumentReg g' = m_nextArgumentReg g /\
  m_nextArgumentOffset g' = m_nextArgumentOffset g /\
  m_locals g' = m_locals g.

(** The masks after marking, and after freeing, a list of limbs. *)
Definition orBits (limbs : list SizedRegister.t) (mask : Z) : Z :=
  fold_left (fun m x => Z.lor m (regBit (SizedRegister.number x))) limbs mask.

Definition clearBits (limbs : list SizedRegister.t) (mask : Z) : Z :=
  fold_left
    (fun m x => Z.land m (wrap64 (Z.lnot (regBit (SizedRegister.number x)))))
    limbs mask.

(** A member function that leaves the instruction buffer as it was. *)
Definition keepsInsns {A : Type} (c : M A) : Prop :=
  forall g, m_insns (snd (c g)) = m_insns g.

(** Declaring the arguments [tys] in order. *)
Definition addArguments (tys : list ArgType) (g : CodeGenerator.t)
  : CodeGenerator.t :=
  fold_left (fun g ty => snd (addArgument ty g)) tys g.

(** A generator for [Platform_ARMv6m] after four 32-bit arguments. *)
Definition fourArguments : CodeGenerator.t :=
  addArguments [ARG_UINT32; ARG_UINT32; ARG_UINT32; ARG_UINT32]
               (CodeGenerator.new Platform_ARM.Platform_ARMv6m).

(** What the scan requires of a register before it takes it, as far as the
    properties below need it. *)
Definition picked (allocated : Z) (rsize : Size)
  (regs : list BasicRegister.t) (x : SizedRegister.t) : Prop :=
  SizedRegister.size x = rsize /\
  In (SizedRegister.reg x) regs /\
  Z.land allocated (regBit (SizedRegister.number x)) = 0 /\
  hasFlag (SizedRegister.reg x) NoAllocate = false.

(** A [Reg] under construction by the scan: limbs of width [rsize], sizes
    kept by [addRegister]. *)
Definition scanned (allocated : Z) (rsize : Size)
  (regs : list BasicRegister.t) (reg : Reg.t) : Prop :=
  Forall (picked allocated rsize regs) (Reg.m_regs reg) /\
  Reg.m_size reg = wrap64 (Reg.numRegs reg * bits rsize) /\
  Reg.m_fullSize reg = wrap64 (Reg.numRegs reg * bits rsize) /\
  Reg.m_zeroFill reg = true.

(** [ceil(a / b)] for positive [b]. *)
Definition ceilDiv (a b : Z) : Z := (a + b - 1) / b.

(** [allocateReg(40)] on a fresh generator for [Platform_ARMv6m]. *)
Definition allocated40 : result Reg.t * CodeGenerator.t :=
  allocateReg 40 Data 0 0 0 (CodeGenerator.new Platform_ARM.Platform_ARMv6m).

(** The register it returns. *)
Definition reg40 : Reg.t :=
  match fst allocated40 with
  | Ok r => r
  | Fail _ => Reg.null
  end.

(** Well-formedness of a platform's register list: the numbers are
    pairwise different ([numbersDistinct]) and fit the 64 bits of [RegMask]
    ([numbersFit]), so that [((RegMask)1) << number] is a defined shift. *)
Fixpoint distinct (numbers : list Z) : bool :=
  match numbers with
  | [] => true
  | n :: rest => negb (existsb (Z.eqb n) rest) && distinct rest
  end.

Definition numbersFit (p : Platform.t) : bool :=
  forallb (fun it => (0 <=? number it) && (number it <? 64))
          (Platform.m_registers p).

Definition numbersDistinct (p : Platform.t) : bool :=
  distinct (map number (Platform.m_registers p)).

(** One call of the allocator interface; [ReleaseReg] is given the
    register the caller holds. *)
Inductive call : Type :=
| AllocateReg (size flags1 flags2 flags3 flags4 : Z)
| ReleaseReg (reg : Reg.t).

(** The generator after a call, whether it returned or threw. *)
Definition step (c : call) (g : CodeGenerator.t) : CodeGenerator.t :=
  match c with
  | AllocateReg size f1 f2 f3 f4 => snd (allocateReg size f1 f2 f3 f4 g)
  | ReleaseReg reg => snd (releaseReg reg g)
  end.

Definition run (calls : list call) (g : CodeGenerator.t) : CodeGenerator.t :=
  fold_left (fun g c => step c g) calls g.

(** Every bit of the allocated mask belongs to a register of the platform
    that is not marked [NoAllocate]. *)
Definition allocatable (p : Platform.t) (g : CodeGenerator.t) : Prop :=
  m_platform g = p /\
  forall j, Z.testbit (m_allocatedRegs g) j = true ->
            exists it, In it (Platform.m_registers p) /\ number it = j /\
                       hasFlag it NoAllocate = false.

(** The stack pointer of [Platform_ARMv8a], marked [NoAllocate]. *)
Definition sp_ARMv8a : BasicRegister.t :=
  Platform.stackPointer Platform_ARM.Platform_ARMv8a.

(** Rotating a 64-bit word other than all-ones to the left by [r] is
    multiplying it by [2^r] modulo [2^64 - 1]. *)
Definition rotM (x r : Z) : Z := (x * 2 ^ r) mod (2 ^ 64 - 1).

(** [isOperandLogicalConstantARMv8a] returns [true] on a 64-bit value. *)
Definition accepts (v : Z) : bool :=
  match isOperandLogicalConstantARMv8a v BasicRegister.Size64 with
  | Some true => true
  | _ => false
  end.

(** The integers [lo, lo + 1, ..., lo + n - 1]. *)
Definition zrange (lo n : nat) : list Z := map Z.of_nat (seq lo n).

(** The registers that can be built from [Reg()] with [addRegister]. *)
Inductive built : Reg.t -> Prop :=
| built_null : built Reg.null
| built_add (x : SizedRegister.t) (r r' : Reg.t) :
    built r -> Reg.addRegister x r = Ok r' -> built r'.
(** Three 32-bit limbs, [r0], [r1], [r2], least significant first. *)
Definition reg96 : Reg.t := Reg.mk 96 96 true [sized_r0; sized_r1; sized_r2].

(** The four tests a register of the platform passes before the scan of
    [allocate] takes it. *)
Definition eligible (allocated : Z) (rsize : Size) (flags : Z)
  (it : BasicRegister.t) : bool :=
  (Z.land allocated (regBit (number it)) =? 0) && hasSize it rsize
  && (Z.land (BasicRegister.flags it) flags =? flags)
  && negb (hasFlag it NoAllocate).

(** The first [count] registers of [regs] that pass, as limbs of width
    [rsize]. *)
Definition firstFit (allocated : Z) (rsize : Size) (flags count : Z)
  (regs : list BasicRegister.t) : list SizedRegister.t :=
  map (fun it => SizedRegister.mk it rsize)
      (firstn (Z.to_nat count) (filter (eligible allocated rsize flags) regs)).

(** A call of [allocateReg], as opposed to one of [releaseReg]. *)
Definition isAllocate (c : call) : bool :=
  match c with AllocateReg _ _ _ _ _ => true | ReleaseReg _ => false end.

(** A second 32-bit allocation made while [reg40] is live, after one
    other allocation. *)
Definition allocated32_later : result Reg.t * CodeGenerator.t :=
  allocateReg 32 Data 0 0 0
    (run [AllocateReg 32 Data 0 0 0] (snd allocated40)).

Definition reg32_later : Reg.t :=
  match fst allocated32_later with
  | Ok r => r
  | Fail _ => Reg.null
  end.

(** A generator whose buffer holds one instruction record. *)
Definition oneInsn : CodeGenerator.t :=
  snd (addInsn Insn.new (CodeGenerator.new Platform_ARM.Platform_ARMv6m)).

(** A register list in which a register has a name only for the sizes it
    supports, as the registers built by [reg32], [reg64] and [reg3264]
    have. *)
Definition namesSupported (p : Platform.t) : bool :=
  forallb (fun it =>
             forallb (fun s => hasSize it s
                               || String.eqb (nameForSize it s) EmptyString)
                     [Size8; Size16; Size32; Size64])
          (Platform.m_registers p).

(** The number of bytes moved by a load or store, [0] for any other
    instruction. *)
Definition transferBytes (ty : Insn.InsnType) : Z :=
  match ty with
  | Insn.LD8 | Insn.LD8S | Insn.ST8 => 1
  | Insn.LD16 | Insn.LD16S | Insn.ST16 => 2
  | Insn.LD32 | Insn.LD32S | Insn.ST32 => 4
  | Insn.LD64 | Insn.ST64 => 8
  | _ => 0
  end.

(** Rotation of a 32-bit word to the left by [r] bits, [0 <= r < 32]. *)
Definition rotl32 (w r : Z) : Z :=
  wrap32 (Z.lor (wrap32 (Z.shiftl w r)) (Z.shiftr w (32 - r))).

(** [allocateReg(40)] on [Platform_ARMv8a] after
    [setAllocationSize(Size32)]. *)
Definition narrow40 : result Reg.t * CodeGenerator.t :=
  allocateReg 40 Data 0 0 0
    (setAllocationSize Size32
       (CodeGenerator.new Platform_ARM.Platform_ARMv8a)).

Definition reg_narrow40 : Reg.t :=
  match fst narrow40 with
  | Ok r => r
  | Fail _ => Reg.null
  end.

End Auxiliary.

(** * Properties *)

(** ** Vector indexing *)

Lemma at_index_in_range {A : Type} (v : list A) (i : Z) :
  0 <= i < Z.of_nat (length v) ->
  exists x, at_index v i = Ok x /\ nth_error v (Z.to_nat i) = Some x.
Proof.
  intros Hi. unfold at_index.
  destruct (i <? 0) eqn:Hneg; [apply Z.ltb_lt in Hneg; lia|].
  destruct (Z.of_nat (length v) <=? i) eqn:Hge; [apply Z.leb_le in Hge; lia|].
  simpl. destruct (nth_error v (Z.to_nat i)) as [x|] eqn:Hnth.
  - exists x. split; reflexivity.
  - apply nth_error_None in Hnth. lia.
Qed.

Lemma at_index_past_end {A : Type} (v : list A) :
  at_index v (Z.of_nat (length v)) = Fail OutOfBounds.
Proof.
  unfold at_index. rewrite Z.leb_refl, orb_true_r. reflexivity.
Qed.

(** ** [Reg]: subsets and reversal *)

Section RegFacts.
Import BasicRegister.

Lemma reg_r0_built : Reg.ofBasic r0 = Ok reg_r0.
Proof. reflexivity. Qed.

(** The inclusive loop of [subset], started with [from + n] equal to the
    number of limbs, reads [m_regs[m_regs.size()]] in its last round. *)
Lemma subset_loop_inclusive_end (regs : list SizedRegister.t) :
  forall (n : nat) (from : Z) (acc : list SizedRegister.t),
    0 <= from ->
    Z.of_nat (length regs) = from + Z.of_nat n ->
    Reg.subset_loop (S n) from regs acc = Fail OutOfBounds.
Proof.
  induction n as [|n IH]; intros from acc Hfrom Hlen.
  - replace from with (Z.of_nat (length regs)) by lia.
    simpl. rewrite at_index_past_end. reflexivity.
  - destruct (at_index_in_range regs from) as [x [Hx _]]; [lia|].
    change (Reg.subset_loop (S (S n)) from regs acc)
      with (bind (at_index regs from)
              (fun x => Reg.subset_loop (S n) (from + 1) regs (acc ++ [x]))).
    rewrite Hx. simpl bind. apply IH; lia.
Qed.

(** C2 (as the code behaves): selecting the whole register,
    [subset(r, 0, size(r))], takes the branch "everything from start to
    the end", whose loop [while (from <= to)] runs with
    [to == m_regs.size()] and so indexes the limb vector one past its
    end; the call does not return a register equal to [r]. *)
Theorem subset_whole_reads_past_end (r : Reg.t) :
  Reg.m_regs r <> [] ->
  0 < Reg.m_size r < 2 ^ 64 ->
  Reg.subset r 0 (Reg.size r) = Fail OutOfBounds.
Proof.
  intros Hregs Hsize. unfold Reg.subset, Reg.size. cbv zeta.
  destruct (Reg.m_regs r) as [|first rest] eqn:Hr; [congruence|].
  assert (Hne : (Reg.m_size r =? 0) = false) by (apply Z.eqb_neq; lia).
  rewrite Hne. cbv iota.
  assert (Hge : (0 >=? Reg.m_size r) = false)
    by (rewrite Z.geb_leb; apply Z.leb_gt; lia).
  rewrite Hge.
  assert (Hw : wrap64 (0 + Reg.m_size r) = Reg.m_size r)
    by (unfold wrap64; rewrite Z.add_0_l; apply Z.mod_small; lia).
  rewrite Hw.
  assert (Hgt : (Reg.m_size r >? Reg.m_size r) = false)
    by (rewrite Z.gtb_ltb; apply Z.ltb_irrefl).
  rewrite Hgt, Hne. cbv iota. rewrite ?Hw, Z.ltb_irrefl.
  rewrite Z.mod_0_l
    by (destruct (SizedRegister.size first); discriminate).
  simpl negb. cbv iota.
  rewrite Z.div_0_l
    by (destruct (SizedRegister.size first); discriminate).
  rewrite Z.sub_0_r.
  replace (Z.to_nat (Z.of_nat (length (first :: rest)) + 1))
    with (S (length (first :: rest))) by lia.
  rewrite subset_loop_inclusive_end; [reflexivity|lia|lia].
Qed.

Lemma subset_whole_reads_past_end_witness :
  Reg.subset reg_r0 0 32 = Fail OutOfBounds.
Proof.
  apply (subset_whole_reads_past_end reg_r0).
  - discriminate.
  - simpl. lia.
Defined.

(** C10: on a register without limbs, or with [start] at or past the
    size (aligned to a limb or not), [subset] returns the empty [Reg()]
    and throws nothing. *)
Theorem subset_empty_or_past_end (r : Reg.t) (start len : Z) :
  Reg.m_regs r = [] \/ start >= Reg.size r ->
  Reg.subset r start len = Ok Reg.null.
Proof.
  intros H. unfold Reg.subset, Reg.size in *.
  destruct (Reg.m_regs r) as [|first rest]; [reflexivity|].
  destruct H as [H|H]; [discriminate|].
  assert (Hge : (start >=? Reg.m_size r) = true)
    by (rewrite Z.geb_leb; apply Z.leb_le; lia).
  rewrite Hge. reflexivity.
Qed.

Lemma subset_empty_or_past_end_witness :
  Reg.subset reg_r0 33 8 = Ok Reg.null /\
  Reg.subset Reg.null 0 8 = Ok Reg.null.
Proof.
  split.
  - apply (subset_empty_or_past_end reg_r0 33 8). right. simpl. lia.
  - apply (subset_empty_or_past_end Reg.null 0 8). left. reflexivity.
Defined.

(** The loop of [reversed] pushes the first [index] limbs, last first. *)
Lemma reversed_loop_rev (regs : list SizedRegister.t) :
  forall (index : nat) (acc : list SizedRegister.t),
    (index <= length regs)%nat ->
    Reg.reversed_loop index regs acc = Ok (acc ++ rev (firstn index regs)).
Proof.
  induction index as [|i IH]; intros acc Hle.
  - simpl. rewrite app_nil_r. reflexivity.
  - destruct (at_index_in_range regs (Z.of_nat (S i) - 1)) as [x [Hx Hn]];
      [lia|].
    change (Reg.reversed_loop (S i) regs acc)
      with (bind (at_index regs (Z.of_nat (S i) - 1))
              (fun x => Reg.reversed_loop i regs (acc ++ [x]))).
    rewrite Hx. simpl bind. rewrite IH by lia.
    replace (Z.to_nat (Z.of_nat (S i) - 1)) with i in Hn by lia.
    assert (Hsplit : firstn (S i) regs = firstn i regs ++ [x]).
    { clear - Hn. revert regs Hn.
      induction i as [|i IHi]; intros [|y regs] Hn; simpl in *;
        try discriminate.
      - congruence.
      - f_equal. apply IHi. exact Hn. }
    rewrite Hsplit, rev_app_distr, <- app_assoc. reflexivity.
Qed.

Lemma reversed_ok (r : Reg.t) :
  Reg.m_size r = Reg.m_fullSize r ->
  Reg.reversed r =
  Ok (Reg.mk (Reg.m_size r) (Reg.m_fullSize r) true (rev (Reg.m_regs r))).
Proof.
  intros Heq. unfold Reg.reversed.
  rewrite (proj2 (Z.eqb_eq _ _) Heq). simpl negb. cbv iota.
  rewrite reversed_loop_rev by lia.
  rewrite firstn_all. reflexivity.
Qed.

(** C9 (amended): for a [Reg] with [size() == fullSize()], reversing
    twice gives back the same limbs in the same order with the same size
    and full size; the zero-fill flag of the result is [true], so the
    result is [r] itself exactly when [r]'s flag is [true]. *)
Theorem reversed_reversed (r : Reg.t) :
  Reg.size r = Reg.fullSize r ->
  exists r1 r2,
    Reg.reversed r = Ok r1 /\ Reg.reversed r1 = Ok r2 /\
    Reg.m_regs r2 = Reg.m_regs r /\
    Reg.size r2 = Reg.size r /\
    Reg.fullSize r2 = Reg.fullSize r /\
    Reg.zeroFill r2 = true /\
    (r2 = r <-> Reg.zeroFill r = true).
Proof.
  unfold Reg.size, Reg.fullSize, Reg.zeroFill. intros Heq.
  eexists. eexists.
  split; [apply reversed_ok; exact Heq|].
  split; [apply reversed_ok; exact Heq|].
  simpl. rewrite rev_involutive.
  repeat split; try reflexivity.
  - intros H. rewrite <- H. reflexivity.
  - intros H. destruct r as [s f z l]. simpl in *. subst z. reflexivity.
Qed.

Lemma reversed_reversed_witness :
  exists r1 r2,
    Reg.reversed reg_r0_unfilled = Ok r1 /\ Reg.reversed r1 = Ok r2 /\
    Reg.m_regs r2 = Reg.m_regs reg_r0_unfilled /\
    Reg.size r2 = Reg.size reg_r0_unfilled /\
    Reg.fullSize r2 = Reg.fullSize reg_r0_unfilled /\
    Reg.zeroFill r2 = true /\
    (r2 = reg_r0_unfilled <-> Reg.zeroFill reg_r0_unfilled = true).
Proof.
  apply (reversed_reversed reg_r0_unfilled). reflexivity.
Defined.

(** C9 as stated fails: [reg_r0_unfilled] has [size() == fullSize()] and
    a zero-fill flag of [false]; after two reversals the flag is [true]. *)
Lemma reversed_reversed_loses_zeroFill :
  Reg.size reg_r0_unfilled = Reg.fullSize reg_r0_unfilled /\
  bind (Reg.reversed reg_r0_unfilled) Reg.reversed = Ok reg_r0 /\
  Reg.zeroFill reg_r0 <> Reg.zeroFill reg_r0_unfilled /\
  bind (Reg.reversed reg_r0_unfilled) Reg.reversed <> Ok reg_r0_unfilled.
Proof.
  repeat split; try reflexivity; discriminate.
Qed.

End RegFacts.

(** ** [Insn]: the constructors *)

Section InsnFacts.

(** Every store through [write()] is a store through the null pointer. *)
Lemma store_null (i : Insn.t) (upd : Insn.Private -> Insn.Private) :
  Insn.store i upd = Fail NullDereference.
Proof. reflexivity. Qed.

(** C1 (as the code behaves): [Insn::write()] returns 0, so
    [setType], the first statement of every constructor, writes through
    a null pointer; no constructor returns a record, whatever the opcode
    and the operands. *)
Theorem constructors_write_through_null :
  (forall i, Insn.write i = None) /\
  (forall ty, Insn.bare ty = Fail NullDereference) /\
  (forall ty dest src o, Insn.unary ty dest src o = Fail NullDereference) /\
  (forall ty dest src1 src2 o,
      Insn.binary ty dest src1 src2 o = Fail NullDereference) /\
  (forall ty dest src1 src2 m sh o,
      Insn.binaryShifted ty dest src1 src2 m sh o = Fail NullDereference) /\
  (forall ty dest src1 imm o,
      Insn.binaryImm ty dest src1 imm o = Fail NullDereference) /\
  (forall ty dest imm o, Insn.moveImm ty dest imm o = Fail NullDereference) /\
  (forall ty label, Insn.branch ty label = Fail NullDereference) /\
  (forall ty i, Insn.setType ty i = Fail NullDereference).
Proof.
  repeat split; intros; reflexivity.
Qed.

End InsnFacts.

(** ** [Platform_ARM::binary] on a two-address platform *)

Section BinaryHook.
Import BasicRegister CodeGenerator Platform_ARM.

Lemma ARMv6m_two_address_only :
  Platform.hasFeature Platform_ARMv6m Platform.TwoAddress = true /\
  Platform.hasFeature Platform_ARMv6m Platform.ThreeAddress = false.
Proof. split; reflexivity. Qed.




End BinaryHook.

(** ** [CodeGenerator]: what the allocator touches *)

Section AllocatorFrame.
Import BasicRegister CodeGenerator.

Lemma sameButMasks_refl (g : CodeGenerator.t) : sameButMasks g g.
Proof. repeat split. Qed.

Lemma sameButMasks_trans (g1 g2 g3 : CodeGenerator.t) :
  sameButMasks g1 g2 -> sameButMasks g2 g3 -> sameButMasks g1 g3.
Proof.
  unfold sameButMasks. intros H12 H23.
  decompose [and] H12. decompose [and] H23. repeat split; congruence.
Qed.

Lemma markUsed_fold (limbs : list SizedRegister.t) :
  forall g,
    let g' := fold_left (fun g x => markUsed (SizedRegister.number x) g)
                        limbs g in
    sameButMasks g g' /\
    m_allocatedRegs g' = orBits limbs (m_allocatedRegs g) /\
    m_usedRegs g' = orBits limbs (m_usedRegs g).
Proof.
  induction limbs as [|x limbs IH]; intros g; simpl.
  - split; [apply sameButMasks_refl|split; reflexivity].
  - destruct (IH (markUsed (SizedRegister.number x) g)) as [Hs [Ha Hu]].
    split; [|split; assumption].
    eapply sameButMasks_trans; [|exact Hs]. repeat split.
Qed.

Lemma markFree_fold (limbs : list SizedRegister.t) :
  forall g,
    let g' := fold_left (fun g x => markFree (SizedRegister.number x) g)
                        limbs g in
    sameButMasks g g' /\
    m_allocatedRegs g' = clearBits limbs (m_allocatedRegs g) /\
    m_usedRegs g' = m_usedRegs g.
Proof.
  induction limbs as [|x limbs IH]; intros g; simpl.
  - split; [apply sameButMasks_refl|split; reflexivity].
  - destruct (IH (markFree (SizedRegister.number x) g)) as [Hs [Ha Hu]].
    split; [|split; assumption].
    eapply sameButMasks_trans; [|exact Hs]. repeat split.
Qed.

(** [allocate] has three ways out: it returns the empty [Reg()] and has
    changed nothing; it throws from [addRegister] during the scan and has
    changed nothing; or the scan found [count] registers, which are marked
    in both masks, and [setSize] decides between a throw and the register
    returned. *)
Lemma allocate_cases (size flags : Z) (g : CodeGenerator.t) :
  (allocate size flags g = (Ok Reg.null, g)) \/
  (exists f, allocate size flags g = (Fail f, g)) \/
  (flags <> 0 /\
   exists scanned,
     allocate_scan (m_allocatedRegs g) (limbWidth flags g) flags
       (limbCount size flags g) (Platform.m_registers (m_platform g))
       Reg.null = Ok scanned /\
     Reg.numRegs scanned = limbCount size flags g /\
     let g' := fold_left (fun g x => markUsed (SizedRegister.number x) g)
                         (Reg.m_regs scanned) g in
     ((exists f, Reg.setSize size scanned = Fail f /\
                 allocate size flags g = (Fail f, g')) \/
      (exists sized, Reg.setSize size scanned = Ok sized /\
         allocate size flags g =
         (Ok (if negb (Reg.fullSize sized =? size)
              then Reg.setZeroFill false sized else sized), g')))).
Proof.
  unfold allocate.
  destruct (flags =? 0) eqn:Hf; [left; reflexivity|].
  apply Z.eqb_neq in Hf. cbv zeta.
  destruct (allocate_scan _ _ _ _ _ _) as [scanned|f] eqn:Hscan.
  - destruct (Reg.numRegs scanned =? limbCount size flags g) eqn:Hn.
    + right. right. split; [exact Hf|]. exists scanned.
      split; [reflexivity|]. split; [apply Z.eqb_eq; exact Hn|].
      simpl negb. cbv iota.
      destruct (Reg.setSize size scanned) as [sized|f] eqn:Hset.
      * right. exists sized. split; reflexivity.
      * left. exists f. split; reflexivity.
    + left. reflexivity.
  - right. left. exists f. reflexivity.
Qed.

Lemma allocate_sameButMasks (size flags : Z) (g : CodeGenerator.t) :
  sameButMasks g (snd (allocate size flags g)).
Proof.
  destruct (allocate_cases size flags g)
    as [H|[[f H]|[_ [scanned [_ [_ H]]]]]].
  - rewrite H. apply sameButMasks_refl.
  - rewrite H. apply sameButMasks_refl.
  - cbv zeta in H.
    destruct H as [[f [_ H]]|[sized [_ H]]]; rewrite H; simpl;
      apply (markUsed_fold (Reg.m_regs scanned) g).
Qed.

Lemma allocateReg_sameButMasks (size f1 f2 f3 f4 : Z) (g : CodeGenerator.t) :
  sameButMasks g (snd (allocateReg size f1 f2 f3 f4 g)).
Proof.
  unfold allocateReg.
  destruct (size =? 0); [apply sameButMasks_refl|].
  unfold bindM, ret, throw.
  pose proof (allocate_sameButMasks size f1 g) as H1.
  destruct (allocate size f1 g) as [[r1|e1] g1]; simpl in H1; [|exact H1].
  destruct (negb (Reg.isNull r1)); [exact H1|].
  pose proof (allocate_sameButMasks size f2 g1) as H2.
  destruct (allocate size f2 g1) as [[r2|e2] g2]; simpl in H2;
    [|eapply sameButMasks_trans; eassumption].
  destruct (negb (Reg.isNull r2));
    [eapply sameButMasks_trans; eassumption|].
  pose proof (allocate_sameButMasks size f3 g2) as H3.
  destruct (allocate size f3 g2) as [[r3|e3] g3]; simpl in H3;
    [|eapply sameButMasks_trans; [|eassumption];
      eapply sameButMasks_trans; eassumption].
  destruct (negb (Reg.isNull r3));
    [eapply sameButMasks_trans; [|eassumption];
     eapply sameButMasks_trans; eassumption|].
  pose proof (allocate_sameButMasks size f4 g3) as H4.
  assert (H : sameButMasks g (snd (allocate size f4 g3))).
  { eapply sameButMasks_trans; [|eassumption].
    eapply sameButMasks_trans; [|eassumption].
    eapply sameButMasks_trans; eassumption. }
  destruct (allocate size f4 g3) as [[r4|e4] g4]; simpl in H; [|exact H].
  destruct (Reg.isNull r4); exact H.
Qed.

Lemma releaseReg_sameButMasks (reg : Reg.t) (g : CodeGenerator.t) :
  sameButMasks g (snd (releaseReg reg g)).
Proof.
  unfold releaseReg. simpl. apply (markFree_fold (Reg.m_regs reg) g).
Qed.

End AllocatorFrame.

(** ** [addArgument]: arguments that overflow to the stack *)

Section StackArguments.
Import BasicRegister CodeGenerator.

Lemma keepsInsns_ret {A : Type} (a : A) : keepsInsns (ret a).
Proof. intros g. reflexivity. Qed.

Lemma keepsInsns_throw {A : Type} (f : failure) : keepsInsns (@throw A f).
Proof. intros g. reflexivity. Qed.

Lemma keepsInsns_lift {A : Type} (r : result A) : keepsInsns (lift r).
Proof. intros g. reflexivity. Qed.

Lemma keepsInsns_bindM {A B : Type} (c : M A) (k : A -> M B) :
  keepsInsns c -> (forall a, keepsInsns (k a)) -> keepsInsns (bindM c k).
Proof.
  intros Hc Hk g. unfold bindM. specialize (Hc g).
  destruct (c g) as [[a|f] g']; simpl in *.
  - rewrite Hk. exact Hc.
  - exact Hc.
Qed.

Lemma keepsInsns_allocate (size flags : Z) : keepsInsns (allocate size flags).
Proof. intros g. apply (allocate_sameButMasks size flags g). Qed.

Lemma keepsInsns_argumentRegs (args : list BasicRegister.t) :
  forall count nsize reg, keepsInsns (argumentRegs args count nsize reg).
Proof.
  induction args as [|basic rest IH]; intros count nsize reg g; simpl.
  - reflexivity.
  - destruct (count >? 0); [|reflexivity].
    destruct (Reg.addRegisterSized basic nsize reg) as [reg'|f];
      [|reflexivity].
    rewrite IH. reflexivity.
Qed.

Lemma keepsInsns_stackRegs (n : nat) :
  forall ty nsize reg, keepsInsns (stackRegs n ty nsize reg).
Proof.
  induction n as [|n IH]; intros ty nsize reg; simpl.
  - apply keepsInsns_ret.
  - apply keepsInsns_bindM; [apply keepsInsns_allocate|]. intros temp.
    destruct (Reg.isNull temp); [apply keepsInsns_throw|].
    apply keepsInsns_bindM; [apply keepsInsns_lift|]. intros limb.
    apply keepsInsns_bindM; [apply keepsInsns_lift|]. intros reg'.
    apply keepsInsns_bindM; [apply keepsInsns_lift|]. intros number.
    apply keepsInsns_bindM; [intros g; reflexivity|]. intros _.
    apply IH.
Qed.

Lemma keepsInsns_addArgument (ty : ArgType) : keepsInsns (addArgument ty).
Proof.
  intros g. unfold addArgument. cbv zeta.
  match goal with
  | |- context [let '(count, nsize) := ?e in _] => destruct e as [count nsize]
  end.
  refine (keepsInsns_bindM _ _ _ _ g);
    [apply keepsInsns_argumentRegs|]. intros taken.
  apply keepsInsns_bindM; [apply keepsInsns_stackRegs|]. intros reg.
  apply keepsInsns_bindM; [intros g'; reflexivity|]. intros _.
  destruct (Platform.hasFeature _ _);
    [apply keepsInsns_lift|apply keepsInsns_ret].
Qed.

(** C3 (as the code behaves): [addArgument] appends nothing to the
    instruction buffer, whatever the platform, the argument and the state;
    where the specification has an [ldarg] the source has the comment
    [// TODO: ldarg(temp, offset);].  On [Platform_ARMv6m], whose argument
    list is [r0..r3], the fifth 32-bit argument finds the list exhausted,
    gets the data register [r4] from the allocator, and leaves the buffer
    empty. *)
Theorem addArgument_emits_no_ldarg :
  (forall ty g, m_insns (snd (addArgument ty g)) = m_insns g) /\
  (m_nextArgumentReg fourArguments =
   Z.of_nat (length (Platform.m_arguments Platform_ARM.Platform_ARMv6m)) /\
   exists reg g5,
     addArgument ARG_UINT32 fourArguments = (Ok reg, g5) /\
     map SizedRegister.number (Reg.m_regs reg) = [4] /\
     Z.testbit (m_allocatedRegs g5) 4 = true /\
     m_insns g5 = []).
Proof.
  split.
  - intros ty g. apply keepsInsns_addArgument.
  - split; [reflexivity|].
    eexists. eexists. split; [vm_compute; reflexivity|].
    repeat split.
Qed.

End StackArguments.

(** ** Bits of the register masks *)

Section MaskBits.
Import BasicRegister CodeGenerator.

Lemma regBit_cases (n : Z) :
  (0 <= n < 64 /\ regBit n = 2 ^ n) \/ regBit n = 0.
Proof.
  unfold regBit, wrap64.
  destruct (Z.ltb_spec n 0) as [Hneg|Hpos].
  - right. rewrite Z.shiftl_1_l.
    rewrite Z.pow_neg_r by lia. reflexivity.
  - rewrite Z.shiftl_1_l.
    destruct (Z.ltb_spec n 64) as [Hlt|Hge].
    + left. split; [lia|]. apply Z.mod_small. split.
      * apply Z.pow_nonneg. lia.
      * apply Z.pow_lt_mono_r; lia.
    + right. replace n with (64 + (n - 64)) by lia.
      rewrite Z.pow_add_r by lia.
      rewrite Z.mul_comm. apply Z.mod_mul. discriminate.
Qed.

Lemma testbit_regBit (n j : Z) :
  Z.testbit (regBit n) j = (0 <=? n) && (n <? 64) && (j =? n).
Proof.
  destruct (regBit_cases n) as [[Hn He]|He]; rewrite He.
  - rewrite Z.pow2_bits_eqb by lia.
    replace (0 <=? n) with true by (symmetry; apply Z.leb_le; lia).
    replace (n <? 64) with true by (symmetry; apply Z.ltb_lt; lia).
    simpl. apply Z.eqb_sym.
  - rewrite Z.bits_0.
    destruct (0 <=? n) eqn:H0; [|reflexivity].
    destruct (n <? 64) eqn:H64; [|reflexivity].
    exfalso. apply Z.leb_le in H0. apply Z.ltb_lt in H64.
    unfold regBit, wrap64 in He. rewrite Z.shiftl_1_l in He.
    rewrite Z.mod_small in He.
    + pose proof (Z.pow_pos_nonneg 2 n). lia.
    + split; [apply Z.pow_nonneg; lia|apply Z.pow_lt_mono_r; lia].
Qed.

Lemma testbit_wrap64 (x j : Z) :
  0 <= j -> Z.testbit (wrap64 x) j = (j <? 64) && Z.testbit x j.
Proof.
  intros Hj. unfold wrap64.
  destruct (Z.ltb_spec j 64) as [Hlt|Hge].
  - rewrite Z.mod_pow2_bits_low by lia. reflexivity.
  - rewrite Z.mod_pow2_bits_high by lia. reflexivity.
Qed.

Lemma testbit_above_64 (a j : Z) :
  0 <= a < 2 ^ 64 -> Z.testbit a j = true -> j < 64.
Proof.
  intros Ha Hbit.
  destruct (Z.ltb_spec j 64) as [Hlt|Hge]; [exact Hlt|].
  rewrite <- (Z.mod_small a (2 ^ 64)) in Hbit by exact Ha.
  rewrite Z.mod_pow2_bits_high in Hbit by lia. discriminate.
Qed.

Lemma testbit_orBits (limbs : list SizedRegister.t) :
  forall m j,
    Z.testbit (orBits limbs m) j =
    Z.testbit m j
    || existsb (fun x => Z.testbit (regBit (SizedRegister.number x)) j) limbs.
Proof.
  unfold orBits.
  induction limbs as [|x limbs IH]; intros m j; simpl.
  - rewrite orb_false_r. reflexivity.
  - rewrite IH, Z.lor_spec, orb_assoc. reflexivity.
Qed.

Lemma testbit_clearBits (limbs : list SizedRegister.t) :
  forall m j,
    0 <= j ->
    Z.testbit (clearBits limbs m) j =
    Z.testbit m j
    && forallb (fun x => (j <? 64)
                  && negb (Z.testbit (regBit (SizedRegister.number x)) j))
               limbs.
Proof.
  unfold clearBits.
  induction limbs as [|x limbs IH]; intros m j Hj; simpl.
  - rewrite andb_true_r. reflexivity.
  - rewrite IH by exact Hj.
    rewrite Z.land_spec, testbit_wrap64, Z.lnot_spec by exact Hj.
    rewrite !andb_assoc. reflexivity.
Qed.

(** Marking registers whose bits were clear and then freeing them gives
    the mask back. *)
Lemma clearBits_orBits (limbs : list SizedRegister.t) (a : Z) :
  0 <= a < 2 ^ 64 ->
  (forall x, In x limbs -> Z.land a (regBit (SizedRegister.number x)) = 0) ->
  clearBits limbs (orBits limbs a) = a.
Proof.
  intros Ha Hclear. apply Z.bits_inj'. intros j Hj.
  rewrite testbit_clearBits, testbit_orBits by exact Hj.
  destruct (Z.testbit a j) eqn:Hbit; simpl.
  - apply forallb_forall. intros x Hx.
    assert (Hlt : j < 64) by (eapply testbit_above_64; eassumption).
    replace (j <? 64) with true by (symmetry; apply Z.ltb_lt; exact Hlt).
    simpl. apply negb_true_iff.
    specialize (Hclear x Hx).
    apply (f_equal (fun v => Z.testbit v j)) in Hclear.
    rewrite Z.land_spec, Hbit, Z.bits_0 in Hclear. exact Hclear.
  - destruct (existsb _ limbs) eqn:Hex; [|reflexivity]. simpl.
    apply existsb_exists in Hex. destruct Hex as [x [Hx Hb]].
    apply not_true_is_false. intros Hall.
    rewrite forallb_forall in Hall. specialize (Hall x Hx).
    rewrite Hb in Hall. rewrite andb_false_r in Hall. discriminate.
Qed.

End MaskBits.

(** ** The scan of [allocate] *)

Section AllocateScan.
Import BasicRegister CodeGenerator.

Lemma scanned_null (allocated : Z) (rsize : Size)
  (regs : list BasicRegister.t) : scanned allocated rsize regs Reg.null.
Proof. repeat split. constructor. Qed.

Lemma addRegister_ok (x : SizedRegister.t) (reg reg' : Reg.t) :
  Reg.addRegister x reg = Ok reg' ->
  reg' = Reg.mk (wrap64 (Reg.m_size reg + bits (SizedRegister.size x)))
                (wrap64 (Reg.m_fullSize reg + bits (SizedRegister.size x)))
                (Reg.m_zeroFill reg) (Reg.m_regs reg ++ [x]).
Proof.
  unfold Reg.addRegister. intros H.
  destruct (existsb _ _); [discriminate|].
  destruct (Reg.m_regs reg) as [|y l].
  - congruence.
  - destruct (negb _); [discriminate|]. congruence.
Qed.

Lemma wrap64_add_limb (n L : Z) :
  wrap64 (wrap64 (n * L) + L) = wrap64 ((n + 1) * L).
Proof.
  unfold wrap64. rewrite Z.add_mod_idemp_l by discriminate.
  f_equal. ring.
Qed.

Lemma allocate_scan_scanned (allocated : Z) (rsize : Size) (flags count : Z)
  (all : list BasicRegister.t) :
  forall regs reg reg',
    (forall it, In it regs -> In it all) ->
    scanned allocated rsize all reg ->
    allocate_scan allocated rsize flags count regs reg = Ok reg' ->
    scanned allocated rsize all reg'.
Proof.
  induction regs as [|it rest IH]; intros reg reg' Hin Hreg Hscan;
    simpl in Hscan.
  - congruence.
  - assert (Hrest : forall it', In it' rest -> In it' all)
      by (intros it' H'; apply Hin; right; exact H').
    destruct (Reg.numRegs reg =? count); [congruence|].
    destruct (negb (Z.land allocated (regBit (number it)) =? 0)) eqn:Hfree;
      [eapply IH; eassumption|].
    destruct (negb (hasSize it rsize)); [eapply IH; eassumption|].
    destruct (negb (Z.land (BasicRegister.flags it) flags =? flags));
      [eapply IH; eassumption|].
    destruct (hasFlag it NoAllocate) eqn:Hno; [eapply IH; eassumption|].
    destruct (Reg.addRegisterSized it rsize reg) as [reg1|f] eqn:Hadd;
      [|discriminate].
    apply (IH reg1 reg' Hrest); [|exact Hscan].
    unfold Reg.addRegisterSized, SizedRegister.make in Hadd.
    destruct (negb _) in Hadd; [discriminate|]. simpl in Hadd.
    apply addRegister_ok in Hadd. subst reg1.
    destruct Hreg as [Hlimbs [Hsize [Hfull Hzero]]].
    unfold scanned, Reg.numRegs in *. simpl.
    rewrite length_app, Nat2Z.inj_add. simpl length.
    change (Z.of_nat 1) with 1.
    rewrite Hsize, Hfull, wrap64_add_limb.
    repeat split; try assumption.
    apply Forall_app. split; [exact Hlimbs|].
    constructor; [|constructor].
    repeat split; simpl.
    + apply Hin. left. reflexivity.
    + apply negb_false_iff in Hfree. apply Z.eqb_eq in Hfree. exact Hfree.
    + exact Hno.
Qed.

(** A successful [allocate]: the register returned, the limbs it holds
    and the generator left behind. *)
Lemma allocate_ok (size flags : Z) (g g' : CodeGenerator.t) (r : Reg.t) :
  allocate size flags g = (Ok r, g') ->
  Reg.isNull r = false ->
  exists sc,
    scanned (m_allocatedRegs g) (limbWidth flags g)
            (Platform.m_registers (m_platform g)) sc /\
    Reg.numRegs sc = limbCount size flags g /\
    Reg.setSize size sc = Ok (Reg.mk size (Reg.m_fullSize sc) true
                                     (Reg.m_regs sc)) /\
    r = Reg.mk size (Reg.m_fullSize sc)
               (Reg.m_fullSize sc =? size) (Reg.m_regs sc) /\
    g' = fold_left (fun g x => markUsed (SizedRegister.number x) g)
                   (Reg.m_regs sc) g.
Proof.
  intros Halloc Hnull.
  destruct (allocate_cases size flags g)
    as [H|[[f H]|[_ [sc [Hscan [Hcount H]]]]]].
  - rewrite H in Halloc. inversion Halloc; subst. discriminate.
  - rewrite H in Halloc. discriminate.
  - cbv zeta in H. exists sc.
    assert (Hsc : scanned (m_allocatedRegs g) (limbWidth flags g)
                    (Platform.m_registers (m_platform g)) sc).
    { eapply allocate_scan_scanned; [| apply scanned_null | exact Hscan].
      intros it Hit. exact Hit. }
    destruct H as [[f [_ H]]|[sized [Hset H]]];
      rewrite H in Halloc; [discriminate|].
    inversion Halloc; subst. clear Halloc.
    destruct Hsc as [Hlimbs [Hsize [Hfull Hzero]]].
    assert (Hsized : sized = Reg.mk size (Reg.m_fullSize sc) true
                                    (Reg.m_regs sc)).
    { unfold Reg.setSize in Hset. destruct (_ || _); [discriminate|].
      rewrite Hzero in Hset. congruence. }
    split; [repeat split; assumption|].
    split; [exact Hcount|].
    split; [rewrite Hset, Hsized; reflexivity|].
    split; [|reflexivity].
    rewrite Hsized. unfold Reg.fullSize, Reg.setZeroFill. simpl.
    destruct (Reg.m_fullSize sc =? size); reflexivity.
Qed.

(** A call of [allocate] that returns the empty [Reg()] for a request of
    at least one bit has changed nothing. *)
Lemma allocate_null (size flags : Z) (g g' : CodeGenerator.t) (r : Reg.t) :
  size <> 0 ->
  allocate size flags g = (Ok r, g') ->
  Reg.isNull r = true ->
  g' = g.
Proof.
  intros Hsize Halloc Hnull.
  destruct (allocate_cases size flags g)
    as [H|[[f H]|[_ [sc [_ [_ H]]]]]].
  - rewrite H in Halloc. congruence.
  - rewrite H in Halloc. discriminate.
  - cbv zeta in H. destruct H as [[f [_ H]]|[sized [Hset H]]];
      rewrite H in Halloc; [discriminate|].
    inversion Halloc; subst. clear Halloc. exfalso.
    unfold Reg.setSize in Hset. destruct (_ || _); [discriminate|].
    inversion Hset; subst. clear Hset.
    unfold Reg.isNull, Reg.setZeroFill in Hnull.
    destruct (negb _) in Hnull; simpl in Hnull;
      apply Z.eqb_eq in Hnull; contradiction.
Qed.

(** [allocateReg] succeeds through the first of its four flag words for
    which [allocate] returns a register; the tries before it have changed
    nothing. *)
Lemma allocateReg_ok (size f1 f2 f3 f4 : Z) (g g' : CodeGenerator.t)
  (r : Reg.t) :
  allocateReg size f1 f2 f3 f4 g = (Ok r, g') ->
  size <> 0 /\
  exists flags,
    In flags [f1; f2; f3; f4] /\
    allocate size flags g = (Ok r, g') /\ Reg.isNull r = false.
Proof.
  unfold allocateReg. destruct (size =? 0) eqn:Hsize; [discriminate|].
  apply Z.eqb_neq in Hsize. unfold bindM, ret, throw. intros H.
  split; [exact Hsize|].
  destruct (allocate size f1 g) as [[r1|e1] g1] eqn:H1; [|discriminate].
  destruct (Reg.isNull r1) eqn:N1; simpl in H;
    [|inversion H; subst; exists f1; simpl; auto].
  apply (allocate_null _ _ _ _ _ Hsize H1) in N1. subst g1.
  destruct (allocate size f2 g) as [[r2|e2] g2] eqn:H2; [|discriminate].
  destruct (Reg.isNull r2) eqn:N2; simpl in H;
    [|inversion H; subst; exists f2; simpl; auto].
  apply (allocate_null _ _ _ _ _ Hsize H2) in N2. subst g2.
  destruct (allocate size f3 g) as [[r3|e3] g3] eqn:H3; [|discriminate].
  destruct (Reg.isNull r3) eqn:N3; simpl in H;
    [|inversion H; subst; exists f3; simpl; auto].
  apply (allocate_null _ _ _ _ _ Hsize H3) in N3. subst g3.
  destruct (allocate size f4 g) as [[r4|e4] g4] eqn:H4; [|discriminate].
  destruct (Reg.isNull r4) eqn:N4; [discriminate|].
  inversion H; subst. exists f4. simpl. auto 6.
Qed.

End AllocateScan.

(** ** [allocateReg]: widths that are not a whole number of limbs *)

Section PartialLimb.
Import BasicRegister CodeGenerator.

Lemma bits_cases (s : Size) :
  bits s = 8 \/ bits s = 16 \/ bits s = 32 \/ bits s = 64.
Proof. destruct s; simpl; auto. Qed.

(** When [setSize(size)] accepts a register of [count] limbs of width [L],
    with [count] computed as in [allocate], nothing has wrapped around. *)
Lemma limbCount_exact (size L count F lastLimb : Z) :
  L = 8 \/ L = 16 \/ L = 32 \/ L = 64 ->
  0 < size < 2 ^ 64 ->
  count = wrap64 (size + L - 1) / L ->
  F = wrap64 (count * L) ->
  (size >? F) || (size <=? wrap64 (F - lastLimb)) = false ->
  count = ceilDiv size L /\ F = ceilDiv size L * L /\ 0 < count.
Proof.
  intros HL Hsize Hcount HF Hset.
  apply orb_false_iff in Hset. destruct Hset as [Hgt _].
  rewrite Z.gtb_ltb in Hgt. apply Z.ltb_ge in Hgt.
  unfold ceilDiv. unfold wrap64 in *.
  change (2 ^ 64) with 18446744073709551616 in *.
  destruct HL as [HL|[HL|[HL|HL]]]; subst L;
    Z.div_mod_to_equations; lia.
Qed.



End PartialLimb.

(** ** [allocateReg] followed by [releaseReg] *)

Section AllocateRelease.
Import BasicRegister CodeGenerator.

Lemma releaseReg_null (g : CodeGenerator.t) :
  releaseReg Reg.null g = (Reg.null, g).
Proof. reflexivity. Qed.

Lemma releaseReg_idempotent (reg : Reg.t) (g : CodeGenerator.t) :
  releaseReg (fst (releaseReg reg g)) (snd (releaseReg reg g)) =
  releaseReg reg g.
Proof. reflexivity. Qed.

(** C7: after a successful [allocateReg], [releaseReg] of the register
    returned puts the allocated mask back to its value before the
    allocation, while the ever-used mask has the bit of every limb that
    was allocated; [releaseReg] leaves [Reg()] in its argument, is
    idempotent, does nothing on [Reg()], and changes no field of the
    generator but the allocated mask. *)
Theorem allocateReg_releaseReg
  (g g1 : CodeGenerator.t) (size f1 f2 f3 f4 : Z) (r : Reg.t) :
  0 <= m_allocatedRegs g < 2 ^ 64 ->
  numbersFit (m_platform g) = true ->
  allocateReg size f1 f2 f3 f4 g = (Ok r, g1) ->
  m_allocatedRegs (snd (releaseReg r g1)) = m_allocatedRegs g /\
  (forall x, In x (Reg.m_regs r) ->
     Z.testbit (m_usedRegs (snd (releaseReg r g1))) (SizedRegister.number x)
     = true) /\
  fst (releaseReg r g1) = Reg.null /\
  (forall reg h,
     releaseReg (fst (releaseReg reg h)) (snd (releaseReg reg h)) =
     releaseReg reg h) /\
  (forall h, releaseReg Reg.null h = (Reg.null, h)) /\
  (forall reg h,
     sameButMasks h (snd (releaseReg reg h)) /\
     m_usedRegs (snd (releaseReg reg h)) = m_usedRegs h).
Proof.
  intros Hmask Hfit Hcall.
  destruct (allocateReg_ok _ _ _ _ _ _ _ _ Hcall)
    as [_ [flags [_ [Halloc Hnull]]]].
  destruct (allocate_ok _ _ _ _ _ Halloc Hnull)
    as [sc [[Hlimbs _] [_ [_ [Hr Hg1]]]]].
  assert (Hregs : Reg.m_regs r = Reg.m_regs sc) by (subst r; reflexivity).
  destruct (markUsed_fold (Reg.m_regs sc) g) as [_ [Ha Hu]].
  cbv zeta in Ha, Hu. rewrite <- Hg1 in Ha, Hu.
  destruct (markFree_fold (Reg.m_regs r) g1) as [_ [Hfa Hfu]].
  cbv zeta in Hfa, Hfu.
  split; [|split; [|split; [|split; [|split]]]].
  - unfold releaseReg. simpl. rewrite Hfa, Ha, Hregs.
    apply clearBits_orBits; [exact Hmask|].
    intros x Hx. rewrite Forall_forall in Hlimbs.
    destruct (Hlimbs x Hx) as [_ [_ [Hfree _]]]. exact Hfree.
  - intros x Hx. unfold releaseReg. simpl. rewrite Hfu, Hu.
    rewrite testbit_orBits. apply orb_true_iff. right.
    apply existsb_exists. exists x. rewrite Hregs in Hx.
    split; [exact Hx|].
    rewrite Forall_forall in Hlimbs.
    destruct (Hlimbs x Hx) as [_ [Hin _]].
    unfold numbersFit in Hfit. rewrite forallb_forall in Hfit.
    specialize (Hfit _ Hin). rewrite testbit_regBit.
    unfold SizedRegister.number, SizedRegister.reg in *.
    rewrite Hfit, Z.eqb_refl. reflexivity.
  - reflexivity.
  - intros reg h. apply releaseReg_idempotent.
  - intros h. apply releaseReg_null.
  - intros reg h. split; [apply releaseReg_sameButMasks|].
    unfold releaseReg. simpl.
    apply (markFree_fold (Reg.m_regs reg) h).
Qed.

Lemma allocateReg_releaseReg_witness :
  m_allocatedRegs (snd (releaseReg reg40 (snd allocated40))) =
    m_allocatedRegs (CodeGenerator.new Platform_ARM.Platform_ARMv6m) /\
  (forall x, In x (Reg.m_regs reg40) ->
     Z.testbit (m_usedRegs (snd (releaseReg reg40 (snd allocated40))))
               (SizedRegister.number x) = true) /\
  fst (releaseReg reg40 (snd allocated40)) = Reg.null /\
  (forall reg h,
     releaseReg (fst (releaseReg reg h)) (snd (releaseReg reg h)) =
     releaseReg reg h) /\
  (forall h, releaseReg Reg.null h = (Reg.null, h)) /\
  (forall reg h,
     sameButMasks h (snd (releaseReg reg h)) /\
     m_usedRegs (snd (releaseReg reg h)) = m_usedRegs h).
Proof.
  apply (allocateReg_releaseReg
           (CodeGenerator.new Platform_ARM.Platform_ARMv6m)
           (snd allocated40) 40 Data 0 0 0 reg40).
  - simpl. lia.
  - reflexivity.
  - vm_compute. reflexivity.
Defined.

End AllocateRelease.

(** ** Sequences of [allocateReg] and [releaseReg] *)

Section AllocatorInvariant.
Import BasicRegister CodeGenerator.

Lemma allocatable_new (p : Platform.t) : allocatable p (CodeGenerator.new p).
Proof.
  split; [reflexivity|]. simpl. intros j Hj.
  rewrite Z.bits_0 in Hj. discriminate.
Qed.

Lemma allocatable_allocate (p : Platform.t) (size flags : Z)
  (g : CodeGenerator.t) :
  allocatable p g -> allocatable p (snd (allocate size flags g)).
Proof.
  intros [Hp Hbits].
  destruct (allocate_cases size flags g)
    as [H|[[f H]|[_ [sc [Hscan [_ H]]]]]].
  - rewrite H. split; assumption.
  - rewrite H. split; assumption.
  - cbv zeta in H.
    assert (Hmarked : allocatable p
              (fold_left (fun g x => markUsed (SizedRegister.number x) g)
                         (Reg.m_regs sc) g)).
    { destruct (markUsed_fold (Reg.m_regs sc) g) as [[Hp' _] [Ha _]].
      cbv zeta in Hp', Ha.
      split; [congruence|]. intros j Hj. rewrite Ha in Hj.
      rewrite testbit_orBits in Hj. apply orb_true_iff in Hj.
      destruct Hj as [Hj|Hj]; [apply Hbits; exact Hj|].
      apply existsb_exists in Hj. destruct Hj as [x [Hx Hb]].
      assert (Hsc : scanned (m_allocatedRegs g) (limbWidth flags g)
                      (Platform.m_registers (m_platform g)) sc).
      { eapply allocate_scan_scanned; [| apply scanned_null | exact Hscan].
        intros it Hit. exact Hit. }
      destruct Hsc as [Hlimbs _]. rewrite Forall_forall in Hlimbs.
      destruct (Hlimbs x Hx) as [_ [Hin [_ Hno]]].
      rewrite testbit_regBit in Hb.
      apply andb_true_iff in Hb. destruct Hb as [_ Hb].
      apply Z.eqb_eq in Hb.
      exists (SizedRegister.reg x). rewrite <- Hp.
      split; [exact Hin|]. split; [|exact Hno].
      symmetry. exact Hb. }
    destruct H as [[f [_ H]]|[sized [_ H]]]; rewrite H; exact Hmarked.
Qed.

Lemma allocatable_step (p : Platform.t) (c : call) (g : CodeGenerator.t) :
  allocatable p g -> allocatable p (step c g).
Proof.
  intros Hg. destruct c as [size f1 f2 f3 f4|reg]; simpl.
  - unfold allocateReg. destruct (size =? 0); [exact Hg|].
    unfold bindM, ret, throw.
    pose proof (allocatable_allocate p size f1 g Hg) as H1.
    destruct (allocate size f1 g) as [[r1|e1] g1]; simpl in H1; [|exact H1].
    destruct (negb (Reg.isNull r1)); [exact H1|].
    pose proof (allocatable_allocate p size f2 g1 H1) as H2.
    destruct (allocate size f2 g1) as [[r2|e2] g2]; simpl in H2; [|exact H2].
    destruct (negb (Reg.isNull r2)); [exact H2|].
    pose proof (allocatable_allocate p size f3 g2 H2) as H3.
    destruct (allocate size f3 g2) as [[r3|e3] g3]; simpl in H3; [|exact H3].
    destruct (negb (Reg.isNull r3)); [exact H3|].
    pose proof (allocatable_allocate p size f4 g3 H3) as H4.
    destruct (allocate size f4 g3) as [[r4|e4] g4]; simpl in H4; [|exact H4].
    destruct (Reg.isNull r4); exact H4.
  - destruct Hg as [Hp Hbits].
    destruct (markFree_fold (Reg.m_regs reg) g) as [[Hp' _] [Ha _]].
    cbv zeta in Hp', Ha. unfold releaseReg. simpl.
    split; [congruence|]. intros j Hj. apply Hbits.
    rewrite Ha in Hj.
    destruct (Z.ltb_spec j 0) as [Hneg|Hpos];
      [rewrite Z.testbit_neg_r in Hj by exact Hneg; discriminate|].
    rewrite testbit_clearBits in Hj by exact Hpos.
    apply andb_true_iff in Hj. destruct Hj as [Hj _]. exact Hj.
Qed.

Lemma allocatable_run (p : Platform.t) (calls : list call) :
  forall g, allocatable p g -> allocatable p (run calls g).
Proof.
  induction calls as [|c calls IH]; intros g Hg; simpl.
  - exact Hg.
  - apply IH. apply allocatable_step. exact Hg.
Qed.

Lemma distinct_numbers (regs : list BasicRegister.t) :
  distinct (map number regs) = true ->
  forall a b, In a regs -> In b regs -> number a = number b ->
              hasFlag a NoAllocate = hasFlag b NoAllocate.
Proof.
  induction regs as [|x regs IH]; intros Hd a b Ha Hb Hn; [contradiction|].
  simpl in Hd. apply andb_true_iff in Hd. destruct Hd as [Hx Hrest].
  apply negb_true_iff in Hx.
  assert (Hfresh : forall y, In y regs -> number x <> number y).
  { intros y Hy Heq.
    assert (existsb (Z.eqb (number x)) (map number regs) = true);
      [|congruence].
    apply existsb_exists. exists (number y).
    split; [apply in_map; exact Hy|apply Z.eqb_eq; exact Heq]. }
  destruct Ha as [Ha|Ha]; destruct Hb as [Hb|Hb]; subst.
  - reflexivity.
  - exfalso. apply (Hfresh b Hb). exact Hn.
  - exfalso. apply (Hfresh a Ha). symmetry. exact Hn.
  - apply IH; assumption.
Qed.

(** C6: on a platform whose register numbers are pairwise different and
    below 64 (so that every shift [1 << number] is defined), after any
    sequence of [allocateReg] and [releaseReg] calls on a fresh generator
    (calls that throw included), the allocated mask has no bit set for a
    register marked [NoAllocate]. *)
Theorem allocated_never_NoAllocate
  (p : Platform.t) (calls : list call) (it : BasicRegister.t) :
  numbersDistinct p = true ->
  numbersFit p = true ->
  In it (Platform.m_registers p) ->
  hasFlag it NoAllocate = true ->
  Z.testbit (m_allocatedRegs (run calls (CodeGenerator.new p))) (number it)
  = false.
Proof.
  intros Hdistinct _ Hin Hno.
  destruct (allocatable_run p calls _ (allocatable_new p)) as [_ Hbits].
  apply not_true_is_false. intros Hset.
  destruct (Hbits _ Hset) as [other [Hother [Hnum Hfree]]].
  rewrite (distinct_numbers _ Hdistinct other it Hother Hin Hnum) in Hfree.
  congruence.
Qed.

Lemma allocated_never_NoAllocate_witness :
  Z.testbit
    (m_allocatedRegs
       (run [AllocateReg 128 Address Data 0 0; AllocateReg 2048 Data 0 0 0;
             ReleaseReg reg40; AllocateReg 64 Data 0 0 0]
            (CodeGenerator.new Platform_ARM.Platform_ARMv8a)))
    (number sp_ARMv8a) = false.
Proof.
  apply (allocated_never_NoAllocate Platform_ARM.Platform_ARMv8a
           [AllocateReg 128 Address Data 0 0; AllocateReg 2048 Data 0 0 0;
            ReleaseReg reg40; AllocateReg 64 Data 0 0 0] sp_ARMv8a).
  - reflexivity.
  - reflexivity.
  - vm_compute. do 31 right. left. reflexivity.
  - reflexivity.
Defined.

End AllocatorInvariant.

(** ** [Platform_ARMv8a]: bitmask immediates *)

(** A loop that keeps an invariant and decreases a measure below the bound
    finishes within the bound, in a state where the condition is false. *)
Lemma while_terminates {S : Type} (I : S -> Prop) (measure : S -> nat)
  (cond : S -> bool) (body : S -> S) :
  (forall s, I s -> cond s = true ->
             I (body s) /\ (measure (body s) < measure s)%nat) ->
  forall fuel s,
    I s -> (measure s < fuel)%nat ->
    exists s', while fuel cond body s = Some s' /\ I s' /\ cond s' = false.
Proof.
  intros Hstep. induction fuel as [|fuel IH]; intros s Hs Hm; [lia|].
  simpl. destruct (cond s) eqn:Hc.
  - destruct (Hstep s Hs Hc) as [Hs' Hm']. apply IH; [exact Hs'|lia].
  - exists s. auto.
Qed.

Section Rotations.
Import Platform_ARMv8a.

Lemma lor_disjoint (hi lo k : Z) :
  0 <= k -> 0 <= lo < 2 ^ k -> Z.lor (hi * 2 ^ k) lo = hi * 2 ^ k + lo.
Proof.
  intros Hk Hlo. rewrite <- Z.add_lor_land.
  assert (Hland : Z.land (hi * 2 ^ k) lo = 0); [|rewrite Hland; lia].
  apply Z.bits_inj'. intros n Hn. rewrite Z.land_spec, Z.bits_0.
  destruct (Z.ltb_spec n k) as [Hlt|Hge].
  - rewrite Z.mul_pow2_bits_low by exact Hlt. reflexivity.
  - rewrite <- (Z.mod_small lo (2 ^ k)) by exact Hlo.
    rewrite Z.mod_pow2_bits_high by lia. apply andb_false_r.
Qed.

Lemma rotl64_rotM (w r : Z) :
  0 <= w < 2 ^ 64 - 1 -> 0 <= r < 64 -> rotl64 w r = rotM w r.
Proof.
  intros Hw Hr. unfold rotl64, rotM, wrap64.
  rewrite Z.shiftl_mul_pow2, Z.shiftr_div_pow2 by lia.
  assert (Hp : 0 < 2 ^ r) by (apply Z.pow_pos_nonneg; lia).
  assert (Hq : 0 < 2 ^ (64 - r)) by (apply Z.pow_pos_nonneg; lia).
  assert (Hpq : 2 ^ 64 = 2 ^ (64 - r) * 2 ^ r).
  { rewrite <- Z.pow_add_r by lia. f_equal. lia. }
  rewrite Hpq in *.
  rewrite Z.mul_mod_distr_r by lia.
  pose proof (Z.div_mod w (2 ^ (64 - r)) ltac:(lia)) as Hdm.
  pose proof (Z.mod_pos_bound w (2 ^ (64 - r)) Hq) as Hlo.
  assert (Hhi : 0 <= w / 2 ^ (64 - r) < 2 ^ r).
  { split; [apply Z.div_pos; lia|].
    apply Z.div_lt_upper_bound; lia. }
  rewrite lor_disjoint by lia.
  remember (2 ^ r) as p. remember (2 ^ (64 - r)) as q.
  remember (w mod q) as lo. remember (w / q) as hi.
  assert (Hsum : 0 <= lo * p + hi < q * p - 1).
  { split; [nia|].
    destruct (Z.eq_dec lo (q - 1)) as [Hmax|Hnot].
    - assert (hi <> p - 1) by nia. nia.
    - assert (lo <= q - 2) by lia. nia. }
  rewrite Z.mod_small by lia.
  apply Z.mod_unique with (q := hi); [left; lia|]. nia.
Qed.

Lemma rotM_range (x r : Z) : 0 <= rotM x r < 2 ^ 64 - 1.
Proof. unfold rotM. apply Z.mod_pos_bound. reflexivity. Qed.

Lemma rotM_0 (x : Z) : 0 <= x < 2 ^ 64 - 1 -> rotM x 0 = x.
Proof.
  intros Hx. unfold rotM. rewrite Z.pow_0_r, Z.mul_1_r.
  apply Z.mod_small. exact Hx.
Qed.

Lemma rotM_rotM (x a b : Z) :
  0 <= a -> 0 <= b -> rotM (rotM x a) b = rotM x (a + b).
Proof.
  intros Ha Hb. unfold rotM.
  rewrite Z.mul_mod_idemp_l by discriminate.
  rewrite Z.pow_add_r by assumption. f_equal. ring.
Qed.

Lemma rotM_64 (x r : Z) : 0 <= r -> rotM x (r + 64) = rotM x r.
Proof.
  intros Hr. unfold rotM. rewrite Z.pow_add_r by lia.
  rewrite Z.mul_assoc, Z.mul_mod by discriminate.
  change (2 ^ 64 mod (2 ^ 64 - 1)) with 1.
  rewrite Z.mul_1_r. apply Z.mod_mod. discriminate.
Qed.

Lemma rotM_periods (x r : Z) (k : nat) :
  0 <= r -> rotM x (r + 64 * Z.of_nat k) = rotM x r.
Proof.
  intros Hr. induction k as [|k IH].
  - f_equal. lia.
  - replace (r + 64 * Z.of_nat (S k)) with ((r + 64 * Z.of_nat k) + 64)
      by lia.
    rewrite rotM_64 by lia. exact IH.
Qed.

Lemma rotM_mod_64 (x n : Z) : 0 <= n -> rotM x n = rotM x (n mod 64).
Proof.
  intros Hn.
  rewrite <- (rotM_periods x (n mod 64) (Z.to_nat (n / 64)))
    by (apply Z.mod_pos_bound; lia).
  f_equal. rewrite Z2Nat.id by (apply Z.div_pos; lia).
  pose proof (Z.div_mod n 64 ltac:(discriminate)). lia.
Qed.

Lemma rol1_rotM (x : Z) : 0 <= x < 2 ^ 64 - 1 -> rol1 x = rotM x 1.
Proof. intros Hx. apply (rotl64_rotM x 1); lia. Qed.

Lemma ror1_rotM (x : Z) : 0 <= x < 2 ^ 64 - 1 -> ror1 x = rotM x 63.
Proof.
  intros Hx. rewrite <- (rotl64_rotM x 63) by lia.
  unfold ror1, rotl64. rewrite Z.lor_comm. reflexivity.
Qed.

End Rotations.

Section BitmaskLoops.
Import Platform_ARMv8a.

Lemma land_pow2_eqb (v n : Z) :
  0 <= n -> (Z.land v (2 ^ n) =? 0) = negb (Z.testbit v n).
Proof.
  intros Hn. destruct (Z.testbit v n) eqn:Hbit; simpl.
  - apply Z.eqb_neq. intros H.
    apply (f_equal (fun x => Z.testbit x n)) in H.
    rewrite Z.land_spec, Hbit, Z.pow2_bits_true, Z.bits_0 in H by exact Hn.
    discriminate.
  - apply Z.eqb_eq. apply Z.bits_inj'. intros j Hj.
    rewrite Z.land_spec, Z.bits_0, Z.pow2_bits_eqb by exact Hn.
    destruct (Z.eqb_spec n j) as [->|_];
      [rewrite Hbit; reflexivity|apply andb_false_r].
Qed.

Lemma land_bit_eqb (v n : Z) :
  0 <= n < 64 ->
  (Z.land v (wrap64 (Z.shiftl 1 n)) =? 0) = negb (Z.testbit v n).
Proof.
  intros Hn. unfold wrap64. rewrite Z.shiftl_1_l.
  rewrite Z.mod_small; [apply land_pow2_eqb; lia|].
  split; [apply Z.pow_nonneg; lia|apply Z.pow_lt_mono_r; lia].
Qed.

Lemma testbit_0_odd (v : Z) : Z.testbit v 0 = (v mod 2 =? 1).
Proof.
  rewrite Z.testbit_eqb by lia. rewrite Z.pow_0_r, Z.div_1_r. reflexivity.
Qed.

Lemma testbit_63_high (v : Z) :
  0 <= v < 2 ^ 64 -> Z.testbit v 63 = (2 ^ 63 <=? v).
Proof.
  intros Hv. rewrite Z.testbit_eqb by lia.
  change (2 ^ 64) with 18446744073709551616 in Hv.
  change (2 ^ 63) with 9223372036854775808.
  destruct (Z.leb_spec 9223372036854775808 v);
    [apply Z.eqb_eq|apply Z.eqb_neq]; Z.div_mod_to_equations; lia.
Qed.

Lemma mod_pow2_succ (v n : Z) :
  0 <= n ->
  v mod 2 ^ (n + 1) = v mod 2 ^ n + 2 ^ n * Z.b2z (Z.testbit v n).
Proof.
  intros Hn. rewrite Z.pow_add_r, Z.pow_1_r by lia.
  rewrite Z.rem_mul_r by (try apply Z.pow_nonzero; lia).
  rewrite Z.testbit_spec' by exact Hn. reflexivity.
Qed.

(** First loop. *)
Lemma rotate_to_low_one (v : Z) :
  0 < v < 2 ^ 64 - 1 ->
  exists v1,
    while loop_bound (fun v => Z.land v 1 =? 0) ror1 v = Some v1 /\
    0 < v1 < 2 ^ 64 - 1 /\ v1 mod 2 = 1 /\
    exists n, 0 <= n /\ v = rotM v1 n.
Proof.
  intros Hv.
  destruct (while_terminates
              (fun x => 0 < x < 2 ^ 64 - 1 /\ exists n, 0 <= n /\ v = rotM x n)
              (fun x => Z.to_nat (Z.log2 x))
              (fun v => Z.land v 1 =? 0) ror1)
    with (fuel := loop_bound) (s := v)
    as [v1 [Hrun [[Hr1 Hrot] Hexit]]].
  - intros x [Hx [n [Hn Hrot]]] Hcond.
    change 1 with (2 ^ 0) in Hcond. rewrite land_pow2_eqb in Hcond by lia.
    apply negb_true_iff in Hcond. rewrite testbit_0_odd in Hcond.
    apply Z.eqb_neq in Hcond.
    assert (Hhalf : ror1 x = x / 2).
    { rewrite ror1_rotM by lia. unfold rotM. symmetry.
      apply Z.mod_unique with (q := x / 2).
      - left. change (2 ^ 64) with 18446744073709551616 in *.
        Z.div_mod_to_equations. lia.
      - change (2 ^ 64) with 18446744073709551616 in *.
        change (2 ^ 63) with 9223372036854775808.
        Z.div_mod_to_equations. lia. }
    rewrite Hhalf.
    assert (Hx2 : x = 2 * (x / 2)) by (Z.div_mod_to_equations; lia).
    assert (Hpos : 0 < x / 2) by lia.
    split; [split; [lia|]|].
    + exists (1 + n). split; [lia|].
      rewrite <- rotM_rotM by lia. rewrite Hrot. f_equal.
      unfold rotM. rewrite Z.pow_1_r.
      rewrite Z.mod_small by lia. lia.
    + rewrite Hx2 at 2. rewrite Z.log2_double by exact Hpos.
      pose proof (Z.log2_nonneg (x / 2)). lia.
  - split; [exact Hv|]. exists 0. split; [lia|].
    symmetry. apply rotM_0. lia.
  - unfold loop_bound.
    assert (Z.log2 v < 64) by (apply Z.log2_lt_pow2; lia).
    pose proof (Z.log2_nonneg v). lia.
  - exists v1. split; [exact Hrun|]. split; [exact Hr1|].
    split; [|exact Hrot].
    change 1 with (2 ^ 0) in Hexit. rewrite land_pow2_eqb in Hexit by lia.
    apply negb_false_iff in Hexit. rewrite testbit_0_odd in Hexit.
    apply Z.eqb_eq in Hexit. exact Hexit.
Qed.

(** Second loop. *)
Lemma rotate_to_high_zero (v v1 : Z) :
  0 < v1 < 2 ^ 64 - 1 -> v1 mod 2 = 1 ->
  (exists n, 0 <= n /\ v = rotM v1 n) ->
  exists v2,
    while loop_bound (fun v => negb (Z.land v 0x8000000000000000 =? 0))
          rol1 v1 = Some v2 /\
    0 < v2 < 2 ^ 63 /\ v2 mod 2 = 1 /\
    exists n, 0 <= n /\ v = rotM v2 n.
Proof.
  intros Hv1 Hodd Hrot.
  destruct (while_terminates
              (fun x => 0 < x < 2 ^ 64 - 1 /\ x mod 2 = 1 /\
                        exists n, 0 <= n /\ v = rotM x n)
              (fun x => Z.to_nat (63 - Z.log2 (2 ^ 64 - 1 - x)))
              (fun v => negb (Z.land v 0x8000000000000000 =? 0)) rol1)
    with (fuel := loop_bound) (s := v1)
    as [v2 [Hrun [[Hr2 [Hodd2 Hrot2]] Hexit]]].
  - intros x [Hx [Hxodd [n [Hn Hxrot]]]] Hcond.
    change 0x8000000000000000 with (2 ^ 63) in Hcond.
    rewrite land_pow2_eqb, negb_involutive in Hcond by lia.
    rewrite testbit_63_high in Hcond by lia. apply Z.leb_le in Hcond.
    assert (Hstep : rol1 x = 2 * x - (2 ^ 64 - 1)).
    { rewrite rol1_rotM by lia. unfold rotM. symmetry.
      apply Z.mod_unique with (q := 1);
        change (2 ^ 64) with 18446744073709551616 in *;
        change (2 ^ 63) with 9223372036854775808 in *;
        rewrite ?Z.pow_1_r; lia. }
    assert (Hback : rotM (rol1 x) 63 = x).
    { rewrite rol1_rotM by lia. rewrite rotM_rotM by lia.
      change (1 + 63) with (0 + 64). rewrite rotM_64 by lia.
      apply rotM_0. lia. }
    split; [split; [|split]|].
    + rewrite Hstep. change (2 ^ 64) with 18446744073709551616 in *;
        change (2 ^ 63) with 9223372036854775808 in *. lia.
    + rewrite Hstep. change (2 ^ 64) with 18446744073709551616 in *.
      Z.div_mod_to_equations. lia.
    + exists (63 + n). split; [lia|].
      rewrite <- rotM_rotM by lia. rewrite Hback. exact Hxrot.
    + rewrite Hstep.
      replace (2 ^ 64 - 1 - (2 * x - (2 ^ 64 - 1)))
        with (2 * (2 ^ 64 - 1 - x)) by ring.
      assert (Hu : 0 < 2 ^ 64 - 1 - x) by lia.
      rewrite Z.log2_double by exact Hu.
      assert (Z.log2 (2 ^ 64 - 1 - x) < 63).
      { apply Z.log2_lt_pow2; [exact Hu|].
        change (2 ^ 64) with 18446744073709551616 in *;
        change (2 ^ 63) with 9223372036854775808 in *. lia. }
      pose proof (Z.log2_nonneg (2 ^ 64 - 1 - x)). lia.
  - split; [exact Hv1|]. split; [exact Hodd|exact Hrot].
  - unfold loop_bound.
    pose proof (Z.log2_nonneg (2 ^ 64 - 1 - v1)). lia.
  - exists v2. split; [exact Hrun|].
    change 0x8000000000000000 with (2 ^ 63) in Hexit.
    rewrite land_pow2_eqb, negb_involutive in Hexit by lia.
    rewrite testbit_63_high in Hexit by lia. apply Z.leb_gt in Hexit.
    split; [lia|]. split; [exact Hodd2|exact Hrot2].
Qed.

(** Third loop: the ones of the bottom-most run. *)
Lemma count_ones (v2 : Z) :
  0 < v2 < 2 ^ 63 -> v2 mod 2 = 1 ->
  exists ones,
    while loop_bound
          (fun ones => negb (Z.land v2 (wrap64 (Z.shiftl 1 ones)) =? 0))
          Z.succ 1 = Some ones /\
    1 <= ones <= 63 /\ v2 mod 2 ^ ones = 2 ^ ones - 1 /\
    Z.testbit v2 ones = false.
Proof.
  intros Hv2 Hodd.
  assert (Htop : Z.testbit v2 63 = false).
  { rewrite testbit_63_high by (change (2 ^ 64) with (2 * 2 ^ 63); lia).
    apply Z.leb_gt. lia. }
  destruct (while_terminates
              (fun n => 1 <= n <= 63 /\ v2 mod 2 ^ n = 2 ^ n - 1)
              (fun n => Z.to_nat (63 - n))
              (fun ones => negb (Z.land v2 (wrap64 (Z.shiftl 1 ones)) =? 0))
              Z.succ) with (fuel := loop_bound) (s := 1)
    as [ones [Hrun [[Hrange Hlow] Hexit]]].
  - intros n [Hn Hlow] Hcond.
    rewrite land_bit_eqb, negb_involutive in Hcond by lia.
    assert (n <> 63) by congruence.
    split; [split; [lia|]|lia].
    unfold Z.succ. rewrite mod_pow2_succ by lia.
    rewrite Hcond, Hlow. simpl Z.b2z.
    rewrite Z.pow_add_r, Z.pow_1_r by lia. lia.
  - split; [lia|]. rewrite Z.pow_1_r. exact Hodd.
  - unfold loop_bound. lia.
  - exists ones. split; [exact Hrun|].
    rewrite land_bit_eqb, negb_involutive in Hexit by lia. auto.
Qed.

(** Fourth loop: the zeroes above them. *)
Lemma count_zeroes (v2 ones : Z) :
  1 <= ones <= 63 -> v2 mod 2 ^ ones = 2 ^ ones - 1 ->
  Z.testbit v2 ones = false ->
  exists z,
    while loop_bound
          (fun zeroes => (zeroes <? 64)
             && (Z.land v2 (wrap64 (Z.shiftl 1 zeroes)) =? 0))
          Z.succ ones = Some z /\
    ones < z <= 64 /\ v2 mod 2 ^ z = 2 ^ ones - 1 /\
    (z < 64 -> Z.testbit v2 z = true).
Proof.
  intros Hones Hlow Hzero.
  destruct (while_terminates
              (fun z => ones <= z <= 64 /\ v2 mod 2 ^ z = 2 ^ ones - 1)
              (fun z => Z.to_nat (64 - z))
              (fun zeroes => (zeroes <? 64)
                 && (Z.land v2 (wrap64 (Z.shiftl 1 zeroes)) =? 0))
              Z.succ) with (fuel := loop_bound) (s := ones)
    as [z [Hrun [[Hrange Hz] Hexit]]].
  - intros z [Hz Hlowz] Hcond.
    apply andb_true_iff in Hcond. destruct Hcond as [Hlt Hbit].
    apply Z.ltb_lt in Hlt.
    rewrite land_bit_eqb in Hbit by lia. apply negb_true_iff in Hbit.
    split; [split; [lia|]|lia].
    unfold Z.succ. rewrite mod_pow2_succ by lia.
    rewrite Hbit, Hlowz. simpl Z.b2z. lia.
  - split; [lia|exact Hlow].
  - unfold loop_bound. lia.
  - exists z. split; [exact Hrun|].
    assert (Hne : z <> ones).
    { intros ->. replace (ones <? 64) with true in Hexit
        by (symmetry; apply Z.ltb_lt; lia).
      rewrite land_bit_eqb, Hzero in Hexit by lia. discriminate. }
    split; [lia|]. split; [exact Hz|].
    intros Hlt.
    replace (z <? 64) with true in Hexit by (symmetry; apply Z.ltb_lt; lia).
    rewrite land_bit_eqb in Hexit by lia. simpl in Hexit.
    apply negb_false_iff in Hexit. exact Hexit.
Qed.

Lemma run_mask (e : Z) :
  0 <= e < 64 -> wrap64 (wrap64 (Z.shiftl 1 e) - 1) = Z.ones e.
Proof.
  intros He. unfold wrap64. rewrite Z.shiftl_1_l, Z.ones_equiv.
  assert (0 < 2 ^ e < 2 ^ 64).
  { split; [apply Z.pow_pos_nonneg; lia|apply Z.pow_lt_mono_r; lia]. }
  rewrite (Z.mod_small (2 ^ e)) by lia.
  rewrite Z.mod_small by lia. lia.
Qed.

(** Last loop: when it answers [true], the part of the word from bit
    [offset] upwards consists of copies of [run]. *)
Lemma runsRepeat_tiles (v run e : Z) :
  0 <= v < 2 ^ 64 -> 0 < e < 64 ->
  forall (n fuel : nat) (offset : Z),
    0 <= offset -> offset + Z.of_nat n * e = 64 -> (n < fuel)%nat ->
    exists b,
      runsRepeat fuel v run e offset = Some b /\
      (b = true -> v / 2 ^ offset = tile n e run).
Proof.
  intros Hv He. induction n as [|n IH]; intros fuel offset Hoff Hsum Hfuel;
    (destruct fuel as [|fuel]; [lia|]); simpl runsRepeat.
  - replace offset with 64 by lia. simpl.
    exists true. split; [reflexivity|]. intros _.
    apply Z.div_small. exact Hv.
  - replace (offset <? 64) with true by (symmetry; apply Z.ltb_lt; nia).
    rewrite run_mask, Z.land_ones, Z.shiftr_div_pow2 by lia.
    destruct (Z.eqb_spec ((v / 2 ^ offset) mod 2 ^ e) run) as [Heq|Hne];
      simpl negb; cbv iota.
    + destruct (IH fuel (offset + e)) as [b [Hrun Hb]]; [lia|lia|lia|].
      exists b. split; [exact Hrun|]. intros Htrue.
      specialize (Hb Htrue). simpl tile. rewrite <- Hb, <- Heq.
      rewrite Z.pow_add_r, <- Z.div_div
        by (try apply Z.pow_nonzero; try apply Z.pow_pos_nonneg; lia).
      rewrite Z.add_comm. apply Z.div_mod.
      apply Z.pow_nonzero; lia.
    + exists false. split; [reflexivity|discriminate].
Qed.

Lemma runs_complete (v2 Y e : Z) :
  0 <= v2 < 2 ^ 64 -> In e [2; 4; 8; 16; 32] ->
  v2 mod 2 ^ e = 2 ^ Y - 1 ->
  exists b,
    runsRepeat loop_bound v2
      (Z.land v2 (wrap64 (wrap64 (Z.shiftl 1 e) - 1))) e e = Some b /\
    (b = true -> v2 = tiledWord (e - Y) Y).
Proof.
  intros Hv He Hlow.
  assert (Hrange : 0 < e < 64) by (simpl in He; lia).
  rewrite run_mask, Z.land_ones by lia.
  destruct (runsRepeat_tiles v2 (v2 mod 2 ^ e) e Hv Hrange
              (Z.to_nat (64 / e - 1)) loop_bound e)
    as [b [Hrun Hb]].
  - lia.
  - simpl in He.
    destruct He as [<-|[<-|[<-|[<-|[<-|[]]]]]]; reflexivity.
  - simpl in He. unfold loop_bound.
    destruct He as [<-|[<-|[<-|[<-|[<-|[]]]]]]; vm_compute; lia.
  - exists b. split; [exact Hrun|]. intros Htrue. specialize (Hb Htrue).
    unfold tiledWord. replace (e - Y + Y) with e by lia.
    replace (Z.to_nat (64 / e)) with (S (Z.to_nat (64 / e - 1))).
    + rewrite Hlow in Hb. simpl tile. rewrite <- Hb, <- Hlow.
      rewrite Z.add_comm. apply Z.div_mod. apply Z.pow_nonzero; lia.
    + simpl in He.
      destruct He as [<-|[<-|[<-|[<-|[<-|[]]]]]]; reflexivity.
Qed.

(** The answer [true] is given only for rotated tilings. *)
Lemma logical64_sound (v : Z) :
  0 <= v < 2 ^ 64 ->
  exists b,
    isOperandLogicalConstantARMv8a v BasicRegister.Size64 = Some b /\
    (b = true -> bitmaskImmediate v).
Proof.
  intros Hv. unfold isOperandLogicalConstantARMv8a.
  change (BasicRegister.Size_eqb BasicRegister.Size64 BasicRegister.Size32)
    with false. cbv iota.
  change (wrap64 (Z.lnot 0)) with 18446744073709551615.
  change (2 ^ 64) with 18446744073709551616 in Hv.
  destruct (Z.eqb_spec v 0) as [Hz|Hz];
    [exists false; split; [reflexivity|discriminate]|].
  destruct (Z.eqb_spec v 18446744073709551615) as [Ha|Ha];
    [exists false; split; [reflexivity|discriminate]|].
  simpl orb. cbv iota.
  destruct (rotate_to_low_one v) as [v1 [Hrun1 [Hv1 [Hodd1 Hrot1]]]];
    [change (2 ^ 64) with 18446744073709551616; lia|].
  rewrite Hrun1.
  destruct (rotate_to_high_zero v v1 Hv1 Hodd1 Hrot1)
    as [v2 [Hrun2 [Hv2 [Hodd2 [n [Hn Hrot2]]]]]].
  rewrite Hrun2.
  destruct (count_ones v2 Hv2 Hodd2) as [Y [Hrun3 [HY [Hlow Hzero]]]].
  rewrite Hrun3.
  destruct (count_zeroes v2 Y HY Hlow Hzero) as [e [Hrun4 [He [Hrun Hnext]]]].
  rewrite Hrun4. cbv zeta.
  replace (Y + (e - Y)) with e by lia.
  assert (Hv2' : 0 <= v2 < 2 ^ 64)
    by (change (2 ^ 64) with (2 * 2 ^ 63); lia).
  assert (Hrotl : v = rotl64 v2 (n mod 64)).
  { rewrite rotl64_rotM.
    - rewrite <- rotM_mod_64 by exact Hn. exact Hrot2.
    - change (2 ^ 64) with (2 * 2 ^ 63). lia.
    - apply Z.mod_pos_bound. lia. }
  assert (Hspec : forall k, 0 <= k -> e = 2 ^ k -> v2 = tiledWord (e - Y) Y ->
                            bitmaskImmediate v).
  { intros k Hk Hek Htile. exists (e - Y), Y, k, (n mod 64).
    repeat split; try lia.
    - apply Z.mod_pos_bound. lia.
    - apply Z.mod_pos_bound. lia.
    - rewrite <- Htile. exact Hrotl. }
  destruct (Z.eqb_spec e 64) as [H64|H64].
  - exists true. split; [reflexivity|]. intros _.
    apply (Hspec 6); [lia|subst e; reflexivity|].
    subst e. unfold tiledWord. replace (64 - Y + Y) with 64 by lia.
    change (Z.to_nat (64 / 64)) with 1%nat. cbn [tile].
    rewrite Z.mul_0_r, Z.add_0_r. rewrite <- Hrun.
    symmetry. apply Z.mod_small. exact Hv2'.
  - destruct (negb (e =? 2) && negb (e =? 4) && negb (e =? 8)
              && negb (e =? 16) && negb (e =? 32)) eqn:Hpow.
    + exists false. split; [reflexivity|discriminate].
    + assert (Hin : In e [2; 4; 8; 16; 32]).
      { simpl.
        destruct (Z.eqb_spec e 2); [auto|].
        destruct (Z.eqb_spec e 4); [auto|].
        destruct (Z.eqb_spec e 8); [auto|].
        destruct (Z.eqb_spec e 16); [auto|].
        destruct (Z.eqb_spec e 32); [auto 6|]. discriminate. }
      destruct (runs_complete v2 Y e Hv2' Hin Hrun) as [b [Hb Htile]].
      exists b. split; [exact Hb|]. intros Htrue. specialize (Htile Htrue).
      simpl in Hin.
      destruct Hin as [E|[E|[E|[E|[E|[]]]]]].
      * apply (Hspec 1); [lia|rewrite <- E; reflexivity|exact Htile].
      * apply (Hspec 2); [lia|rewrite <- E; reflexivity|exact Htile].
      * apply (Hspec 3); [lia|rewrite <- E; reflexivity|exact Htile].
      * apply (Hspec 4); [lia|rewrite <- E; reflexivity|exact Htile].
      * apply (Hspec 5); [lia|rewrite <- E; reflexivity|exact Htile].
Qed.

(** *** Every rotated tiling is accepted *)

Lemma while_exit {S : Type} (fuel : nat) (cond : S -> bool) (body : S -> S)
  (s : S) :
  cond s = false -> while (Datatypes.S fuel) cond body s = Some s.
Proof. intros Hc. simpl. rewrite Hc. reflexivity. Qed.

(** A word whose lowest bit is one and whose highest bit is zero is left
    as it is by the two rotation loops. *)
Lemma aligned_fixed (v2 : Z) :
  0 < v2 < 2 ^ 63 -> v2 mod 2 = 1 ->
  while loop_bound (fun v => Z.land v 1 =? 0) ror1 v2 = Some v2 /\
  while loop_bound (fun v => negb (Z.land v 0x8000000000000000 =? 0))
        rol1 v2 = Some v2.
Proof.
  intros Hv2 Hodd. change loop_bound with (S 63). split.
  - apply while_exit.
    change 1 with (2 ^ 0). rewrite land_pow2_eqb by lia.
    rewrite testbit_0_odd, Hodd. reflexivity.
  - apply while_exit.
    change 0x8000000000000000 with (2 ^ 63).
    rewrite land_pow2_eqb, negb_involutive by lia.
    rewrite testbit_63_high by (change (2 ^ 64) with (2 * 2 ^ 63); lia).
    apply Z.leb_gt. lia.
Qed.

(** The two rotation loops bring a word into that form, and the answer for
    the word is the answer for the form. *)
Lemma logical64_aligned (v : Z) :
  0 < v < 2 ^ 64 - 1 ->
  exists v2,
    0 < v2 < 2 ^ 63 /\ v2 mod 2 = 1 /\
    (exists n, 0 <= n /\ v = rotM v2 n) /\
    isOperandLogicalConstantARMv8a v BasicRegister.Size64 =
    isOperandLogicalConstantARMv8a v2 BasicRegister.Size64.
Proof.
  intros Hv.
  destruct (rotate_to_low_one v Hv) as [v1 [Hrun1 [Hv1 [Hodd1 Hrot1]]]].
  destruct (rotate_to_high_zero v v1 Hv1 Hodd1 Hrot1)
    as [v2 [Hrun2 [Hv2 [Hodd2 Hrot2]]]].
  exists v2. split; [exact Hv2|]. split; [exact Hodd2|].
  split; [exact Hrot2|].
  destruct (aligned_fixed v2 Hv2 Hodd2) as [Hfix1 Hfix2].
  unfold isOperandLogicalConstantARMv8a.
  change (BasicRegister.Size_eqb BasicRegister.Size64 BasicRegister.Size32)
    with false. cbv iota.
  change (wrap64 (Z.lnot 0)) with 18446744073709551615.
  change (2 ^ 64) with 18446744073709551616 in *.
  change (2 ^ 63) with 9223372036854775808 in *.
  replace (v =? 0) with false by (symmetry; apply Z.eqb_neq; lia).
  replace (v =? 18446744073709551615) with false
    by (symmetry; apply Z.eqb_neq; lia).
  replace (v2 =? 0) with false by (symmetry; apply Z.eqb_neq; lia).
  replace (v2 =? 18446744073709551615) with false
    by (symmetry; apply Z.eqb_neq; lia).
  simpl orb. cbv iota.
  rewrite Hrun1, Hrun2, Hfix1, Hfix2. reflexivity.
Qed.

(** Undoing a rotation. *)
Lemma rotM_back (x y n : Z) :
  0 <= y < 2 ^ 64 - 1 -> 0 <= n -> x = rotM y n ->
  exists k, 0 <= k < 64 /\ y = rotM x k.
Proof.
  intros Hy Hn Hx. exists ((64 - n mod 64) mod 64).
  split; [apply Z.mod_pos_bound; lia|].
  rewrite Hx, rotM_rotM by (try apply Z.mod_pos_bound; lia).
  rewrite rotM_mod_64
    by (pose proof (Z.mod_pos_bound (64 - n mod 64) 64); lia).
  replace ((n + (64 - n mod 64) mod 64) mod 64) with 0
    by (Z.div_mod_to_equations; lia).
  symmetry. apply rotM_0. exact Hy.
Qed.

(** For each element size [e] and each number [Y] of ones: the tiled word
    is accepted and is in aligned form; no rotation of it is zero, and the
    only rotation of it in aligned form is the word itself. *)
Lemma tilings_checked :
  forallb
    (fun e =>
       forallb
         (fun Y =>
            let T := tiledWord (e - Y) Y in
            accepts T && (0 <? T) && (T <? 2 ^ 63)
            && forallb
                 (fun r =>
                    let w := rotl64 T r in
                    negb (w =? 0)
                    && (if (w mod 2 =? 1) && (w <? 2 ^ 63)
                        then w =? T else true))
                 (zrange 0 64))
         (zrange 1 (Z.to_nat e - 1)))
    [2; 4; 8; 16; 32; 64] = true.
Proof. vm_compute. reflexivity. Qed.

Lemma in_zrange (lo n : nat) (x : Z) :
  Z.of_nat lo <= x < Z.of_nat lo + Z.of_nat n -> In x (zrange lo n).
Proof.
  intros Hx. unfold zrange.
  replace x with (Z.of_nat (Z.to_nat x)) by lia.
  apply in_map. apply in_seq. lia.
Qed.

Lemma element_sizes (X Y k : Z) :
  0 < Y -> 0 < X -> 0 <= k -> X + Y = 2 ^ k -> X + Y <= 64 ->
  In (X + Y) [2; 4; 8; 16; 32; 64].
Proof.
  intros HY HX Hk Hpow Hle.
  assert (Hk6 : k <= 6).
  { destruct (Z.le_gt_cases k 6) as [H|H]; [exact H|].
    assert (2 ^ 7 <= 2 ^ k) by (apply Z.pow_le_mono_r; lia).
    change (2 ^ 7) with 128 in *. lia. }
  assert (Hk1 : 1 <= k).
  { destruct (Z.eq_dec k 0) as [->|]; [|lia].
    change (2 ^ 0) with 1 in Hpow. lia. }
  rewrite Hpow. simpl.
  assert (Hcases : k = 1 \/ k = 2 \/ k = 3 \/ k = 4 \/ k = 5 \/ k = 6)
    by lia.
  destruct Hcases as [->|[->|[->|[->|[->| ->]]]]]; auto 10.
Qed.

(** Every rotated tiling is accepted. *)
Lemma logical64_complete (v : Z) :
  bitmaskImmediate v ->
  isOperandLogicalConstantARMv8a v BasicRegister.Size64 = Some true.
Proof.
  intros [X [Y [k [r [HY [HX [Hk [Hpow [Hle [Hr Hv]]]]]]]]]].
  pose proof (element_sizes X Y k HY HX Hk Hpow Hle) as He.
  pose proof tilings_checked as Hall.
  rewrite forallb_forall in Hall. specialize (Hall (X + Y) He).
  rewrite forallb_forall in Hall.
  assert (HinY : In Y (zrange 1 (Z.to_nat (X + Y) - 1)))
    by (apply in_zrange; lia).
  specialize (Hall Y HinY). cbv zeta in Hall.
  replace (X + Y - Y) with X in Hall by lia.
  remember (tiledWord X Y) as T eqn:HT.
  apply andb_true_iff in Hall. destruct Hall as [Hall Hrots].
  apply andb_true_iff in Hall. destruct Hall as [Hall Htop].
  apply andb_true_iff in Hall. destruct Hall as [Hacc Hpos].
  apply Z.ltb_lt in Htop. apply Z.ltb_lt in Hpos.
  rewrite forallb_forall in Hrots.
  assert (HT' : 0 <= T < 2 ^ 64 - 1)
    by (change (2 ^ 64) with (2 * 2 ^ 63); lia).
  assert (HvM : v = rotM T r)
    by (rewrite Hv; apply rotl64_rotM; assumption).
  assert (Hv' : 0 < v < 2 ^ 64 - 1).
  { pose proof (Hrots r (in_zrange 0 64 r ltac:(simpl; lia))) as Hw.
    apply andb_true_iff in Hw. destruct Hw as [Hw _].
    apply negb_true_iff in Hw. apply Z.eqb_neq in Hw. rewrite <- Hv in Hw.
    pose proof (rotM_range T r). lia. }
  destruct (logical64_aligned v Hv')
    as [v2 [Hv2 [Hodd [[n [Hn Hrot]] Hsame]]]].
  destruct (rotM_back v v2 n) as [j [Hj Hback]];
    [change (2 ^ 64) with (2 * 2 ^ 63); lia|exact Hn|exact Hrot|].
  assert (Hm : v2 = rotl64 T ((r + j) mod 64)).
  { rewrite rotl64_rotM by (try apply Z.mod_pos_bound; lia).
    rewrite <- rotM_mod_64 by lia. rewrite <- rotM_rotM by lia.
    rewrite <- HvM. exact Hback. }
  assert (Hin : In ((r + j) mod 64) (zrange 0 64)).
  { apply in_zrange. pose proof (Z.mod_pos_bound (r + j) 64). simpl. lia. }
  specialize (Hrots _ Hin). rewrite <- Hm in Hrots.
  apply andb_true_iff in Hrots. destruct Hrots as [_ Hrots].
  rewrite Hodd in Hrots.
  replace (v2 <? 2 ^ 63) with true in Hrots
    by (symmetry; apply Z.ltb_lt; lia).
  simpl in Hrots. apply Z.eqb_eq in Hrots.
  rewrite Hsame, Hrots. unfold accepts in Hacc.
  destruct (isOperandLogicalConstantARMv8a T BasicRegister.Size64)
    as [[|]|]; [reflexivity|discriminate|discriminate].
Qed.

(** *** The 32-bit case *)

Lemma widen_duplicates (value : Z) :
  0 <= value < 2 ^ 64 ->
  wrap64 (Z.lor (wrap64 (Z.shiftl value 32)) (value mod 2 ^ 32)) =
  widen value BasicRegister.Size32.
Proof.
  intros Hv. unfold widen, wrap64.
  rewrite Z.shiftl_mul_pow2 by lia.
  change (2 ^ 64) with (2 ^ 32 * 2 ^ 32).
  rewrite Z.mul_mod_distr_r by discriminate.
  pose proof (Z.mod_pos_bound value (2 ^ 32) ltac:(reflexivity)) as Hlo.
  rewrite lor_disjoint by lia.
  apply Z.mod_small.
  change (2 ^ 32) with 4294967296 in *. lia.
Qed.

Lemma widen_range (value : Z) (size : BasicRegister.Size) :
  0 <= value < 2 ^ 64 -> 0 <= widen value size < 2 ^ 64.
Proof.
  intros Hv. destruct size; unfold widen; try exact Hv.
  pose proof (Z.mod_pos_bound value (2 ^ 32) ltac:(reflexivity)) as Hlo.
  change (2 ^ 32) with 4294967296 in *.
  change (2 ^ 64) with 18446744073709551616 in *. lia.
Qed.

Lemma logical_widened (value : Z) (size : BasicRegister.Size) :
  0 <= value < 2 ^ 64 ->
  isOperandLogicalConstantARMv8a value size =
  isOperandLogicalConstantARMv8a (widen value size) BasicRegister.Size64.
Proof.
  intros Hv. unfold isOperandLogicalConstantARMv8a.
  change (BasicRegister.Size_eqb BasicRegister.Size64 BasicRegister.Size32)
    with false. cbv iota.
  destruct size;
    try (change (BasicRegister.Size_eqb _ BasicRegister.Size32) with false;
         reflexivity).
  change (BasicRegister.Size_eqb BasicRegister.Size32 BasicRegister.Size32)
    with true. cbv iota.
  rewrite widen_duplicates by exact Hv. reflexivity.
Qed.

(** C5: for [ANDI], [ORI] and [XORI], [validateImmediate] returns, and it
    returns [true] exactly for the values that (after a 32-bit value has
    been duplicated into both halves) are a rotation of a 64-bit word tiled
    with a pattern of [Y > 0] ones followed by [X > 0] zeros, [X + Y] a
    power of two; all-zeroes and all-ones are rejected. *)
Theorem validateImmediate_logical
  (ty : Insn.InsnType) (value : Z) (size : BasicRegister.Size) :
  In ty [Insn.ANDI; Insn.ORI; Insn.XORI] ->
  0 <= value < 2 ^ 64 ->
  exists b,
    validateImmediate ty value size = Some b /\
    (b = true <-> bitmaskImmediate (widen value size)) /\
    (widen value size = 0 \/ widen value size = 2 ^ 64 - 1 -> b = false).
Proof.
  intros Hty Hv.
  assert (Hcall : validateImmediate ty value size =
                  isOperandLogicalConstantARMv8a (widen value size)
                                                 BasicRegister.Size64).
  { rewrite <- logical_widened by exact Hv. simpl in Hty.
    destruct Hty as [<-|[<-|[<-|[]]]]; reflexivity. }
  rewrite Hcall.
  destruct (logical64_sound (widen value size) (widen_range value size Hv))
    as [b [Hb Hsound]].
  exists b. split; [exact Hb|]. split; [split; [exact Hsound|]|].
  - intros Hspec. apply logical64_complete in Hspec. congruence.
  - intros [H|H]; rewrite H in Hb; vm_compute in Hb; congruence.
Qed.

Lemma validateImmediate_logical_witness :
  exists b,
    validateImmediate Insn.ANDI 0xFF00FF00 BasicRegister.Size32 = Some b /\
    (b = true <-> bitmaskImmediate (widen 0xFF00FF00 BasicRegister.Size32)) /\
    (widen 0xFF00FF00 BasicRegister.Size32 = 0 \/
     widen 0xFF00FF00 BasicRegister.Size32 = 2 ^ 64 - 1 -> b = false).
Proof.
  apply (validateImmediate_logical Insn.ANDI 0xFF00FF00 BasicRegister.Size32).
  - simpl. auto.
  - change (2 ^ 64) with 18446744073709551616. lia.
Defined.

End BitmaskLoops.

(** * Further properties of the code *)

(** ** [Reg]: construction and subsets, in general *)

Section RegMore.
Import BasicRegister.

Lemma land_pow2_cases (v n : Z) :
  0 <= n -> Z.land v (2 ^ n) = 0 \/ Z.land v (2 ^ n) = 2 ^ n.
Proof.
  intros Hn. destruct (Z.testbit v n) eqn:Hbit.
  - right. apply Z.bits_inj'. intros j Hj.
    rewrite Z.land_spec, Z.pow2_bits_eqb by exact Hn.
    destruct (Z.eqb_spec n j) as [->|_];
      [rewrite Hbit; reflexivity|apply andb_false_r].
  - left. apply Z.eqb_eq. rewrite land_pow2_eqb by exact Hn.
    rewrite Hbit. reflexivity.
Qed.

Lemma bits_pow2 (s : Size) : exists n, 0 <= n /\ bits s = 2 ^ n.
Proof.
  destruct s; [exists 3|exists 4|exists 5|exists 6]; split;
    try lia; reflexivity.
Qed.

(** A size passes [hasSize] exactly when the constructor of
    [SizedRegister] accepts it. *)
Lemma make_hasSize (reg : BasicRegister.t) (s : Size) :
  SizedRegister.make reg s =
  if hasSize reg s then Ok (SizedRegister.mk reg s) else Fail InvalidArgument.
Proof.
  unfold SizedRegister.make, hasSize.
  destruct (bits_pow2 s) as [n [Hn Hp]]. rewrite Hp.
  rewrite (Z.land_comm (2 ^ n)).
  assert (Hpos : 0 < 2 ^ n) by (apply Z.pow_pos_nonneg; lia).
  destruct (land_pow2_cases (sizes reg) n Hn) as [H|H]; rewrite H.
  - rewrite Z.eqb_refl.
    replace (0 =? 2 ^ n) with false by (symmetry; apply Z.eqb_neq; lia).
    reflexivity.
  - rewrite Z.eqb_refl.
    replace (2 ^ n =? 0) with false by (symmetry; apply Z.eqb_neq; lia).
    reflexivity.
Qed.

(** X1: [maxSize] and [Reg(const BasicRegister &)]: for a register that
    supports at least one of the four sizes, [maxSize] is a supported size
    and no supported size is wider, and the constructor returns a register
    of one limb of that width, with size and full size equal to it; for a
    register that supports none, [maxSize] falls back to [Size8] and the
    constructor throws [std::invalid_argument]. *)
Theorem ofBasic_maxSize (reg : BasicRegister.t) :
  ((exists s, hasSize reg s = true) ->
   hasSize reg (maxSize reg) = true /\
   (forall s, hasSize reg s = true -> bits s <= bits (maxSize reg)) /\
   Reg.ofBasic reg =
   Ok (Reg.mk (bits (maxSize reg)) (bits (maxSize reg)) true
              [SizedRegister.mk reg (maxSize reg)])) /\
  ((forall s, hasSize reg s = false) ->
   maxSize reg = Size8 /\ Reg.ofBasic reg = Fail InvalidArgument).
Proof.
  split.
  - intros [s Hs].
    assert (Hmax : hasSize reg (maxSize reg) = true).
    { unfold maxSize.
      destruct (hasSize reg Size64) eqn:H64; [exact H64|].
      destruct (hasSize reg Size32) eqn:H32; [exact H32|].
      destruct (hasSize reg Size16) eqn:H16; [exact H16|].
      destruct s; congruence. }
    split; [exact Hmax|]. split.
    + intros s' Hs'. unfold maxSize.
      destruct (hasSize reg Size64) eqn:H64; [destruct s'; simpl; lia|].
      destruct (hasSize reg Size32) eqn:H32;
        [destruct s'; simpl; try lia; congruence|].
      destruct (hasSize reg Size16) eqn:H16;
        [destruct s'; simpl; try lia; congruence|].
      destruct s'; simpl; try lia; congruence.
    + unfold Reg.ofBasic, Reg.addRegisterMax.
      rewrite make_hasSize, Hmax. simpl.
      unfold Reg.addRegister. simpl. unfold wrap64. simpl Z.add.
      rewrite Z.mod_small; [reflexivity|].
      destruct (maxSize reg); simpl; lia.
  - intros Hnone.
    assert (Hm : maxSize reg = Size8)
      by (unfold maxSize; rewrite !Hnone; reflexivity).
    split; [exact Hm|].
    unfold Reg.ofBasic, Reg.addRegisterMax.
    rewrite make_hasSize, Hnone. reflexivity.
Qed.

Lemma subset_loop_in_range (regs : list SizedRegister.t) :
  forall (n : nat) (from : Z) (acc : list SizedRegister.t),
    0 <= from ->
    from + Z.of_nat n <= Z.of_nat (length regs) ->
    Reg.subset_loop n from regs acc =
    Ok (acc ++ firstn n (skipn (Z.to_nat from) regs)).
Proof.
  induction n as [|n IH]; intros from acc Hfrom Hlen.
  - simpl. rewrite app_nil_r. reflexivity.
  - destruct (at_index_in_range regs from) as [x [Hx Hnth]]; [lia|].
    change (Reg.subset_loop (S n) from regs acc)
      with (bind (at_index regs from)
              (fun x => Reg.subset_loop n (from + 1) regs (acc ++ [x]))).
    rewrite Hx. simpl bind. rewrite IH by lia.
    replace (Z.to_nat (from + 1)) with (S (Z.to_nat from)) by lia.
    rewrite <- app_assoc. f_equal. f_equal.
    clear - Hnth. revert regs Hnth.
    generalize (Z.to_nat from) as k.
    induction k as [|k IHk]; intros [|y regs] Hnth; simpl in *;
      try discriminate.
    + inversion Hnth. reflexivity.
    + apply IHk. exact Hnth.
Qed.

Lemma limbSize_positive (r : Reg.t) : Reg.m_regs r <> [] -> 8 <= Reg.limbSize r.
Proof.
  unfold Reg.limbSize. destruct (Reg.m_regs r) as [|x rest]; [congruence|].
  intros _. destruct (SizedRegister.size x); simpl; lia.
Qed.

(** X2: [subset(start, len)] with an aligned [start] inside the register
    and a range that reaches its end ([len == 0], or [start + len] at or
    beyond [size()]) takes the branch with [to = m_regs.size()]; the
    inclusive loop then indexes the limb vector one past its end, whatever
    the number of limbs.  This covers [subset(start)] and [reduce(len)]
    with [len >= size()]. *)
Theorem subset_to_end_reads_past_end (r : Reg.t) (start len : Z) :
  Reg.m_regs r <> [] ->
  0 <= start < Reg.m_size r ->
  Reg.m_size r <= Reg.numRegs r * Reg.limbSize r ->
  Reg.m_size r < 2 ^ 63 ->
  0 <= len < 2 ^ 63 ->
  start mod Reg.limbSize r = 0 ->
  len = 0 \/ Reg.m_size r <= start + len ->
  Reg.subset r start len = Fail OutOfBounds.
Proof.
  intros Hregs Hstart Hfull Hsize Hlen Halign Hend.
  pose proof (limbSize_positive r Hregs) as HL.
  unfold Reg.subset, Reg.numRegs, Reg.limbSize in *. cbv zeta.
  destruct (Reg.m_regs r) as [|first rest] eqn:Hr; [congruence|].
  set (L := bits (SizedRegister.size first)) in *.
  set (regs := first :: rest) in *.
  assert (Hge : (start >=? Reg.m_size r) = false)
    by (rewrite Z.geb_leb; apply Z.leb_gt; lia).
  rewrite Hge.
  set (len1 := if len =? 0 then Reg.m_size r else len).
  assert (Hlen1 : 0 < len1 < 2 ^ 63 /\ Reg.m_size r <= start + len1).
  { subst len1. destruct (Z.eqb_spec len 0); lia. }
  assert (Hw1 : wrap64 (start + len1) = start + len1)
    by (unfold wrap64; apply Z.mod_small; lia).
  rewrite Hw1.
  set (len2 := if start + len1 >? Reg.m_size r
               then wrap64 (Reg.m_size r - start) else len1).
  assert (Hlen2 : len2 = Reg.m_size r - start).
  { subst len2. rewrite Z.gtb_ltb.
    destruct (Z.ltb_spec (Reg.m_size r) (start + len1)).
    - unfold wrap64. apply Z.mod_small. lia.
    - lia. }
  rewrite Hlen2.
  replace (Reg.m_size r - start =? 0) with false
    by (symmetry; apply Z.eqb_neq; lia).
  rewrite Halign. simpl negb. cbv iota.
  replace (start + (Reg.m_size r - start)) with (Reg.m_size r) by lia.
  replace (wrap64 (Reg.m_size r)) with (Reg.m_size r)
    by (unfold wrap64; symmetry; apply Z.mod_small; lia).
  rewrite Z.ltb_irrefl.
  assert (Hfrom : 0 <= start / L < Z.of_nat (length regs)).
  { split; [apply Z.div_pos; lia|].
    apply Z.div_lt_upper_bound; lia. }
  replace (Z.to_nat (Z.of_nat (length regs) - start / L + 1))
    with (S (Z.to_nat (Z.of_nat (length regs) - start / L))) by lia.
  rewrite subset_loop_inclusive_end by lia. reflexivity.
Qed.

Lemma subset_to_end_reads_past_end_witness :
  Reg.subset reg96 32 0 = Fail OutOfBounds.
Proof.
  apply subset_to_end_reads_past_end;
    [discriminate | simpl; lia | vm_compute; discriminate | simpl; lia
    | lia | reflexivity | left; reflexivity].
Defined.

(** X3: [subset(start, len)] with [start] and [len] multiples of the limb
    width and [start + len < size()] returns the limbs with indices
    [start / L] to [(start + len) / L] inclusive, that is [len / L + 1]
    limbs, and sets both [size()] and [fullSize()] to [len / L], a number
    of limbs and not of bits. *)
Theorem subset_interior (r : Reg.t) (start len : Z) :
  Reg.m_regs r <> [] ->
  0 <= start ->
  0 < len ->
  start + len < Reg.m_size r ->
  Reg.m_size r <= Reg.numRegs r * Reg.limbSize r ->
  Reg.m_size r < 2 ^ 64 ->
  start mod Reg.limbSize r = 0 ->
  len mod Reg.limbSize r = 0 ->
  let limbs := firstn (Z.to_nat (len / Reg.limbSize r) + 1)
                 (skipn (Z.to_nat (start / Reg.limbSize r)) (Reg.m_regs r)) in
  Reg.subset r start len =
    Ok (Reg.mk (len / Reg.limbSize r) (len / Reg.limbSize r) true limbs) /\
  Z.of_nat (length limbs) = len / Reg.limbSize r + 1.
Proof.
  intros Hregs Hstart Hlen Hin Hfull Hsize Halign Hlalign limbs.
  pose proof (limbSize_positive r Hregs) as HL.
  subst limbs.
  unfold Reg.subset, Reg.numRegs, Reg.limbSize in *. cbv zeta.
  destruct (Reg.m_regs r) as [|first rest] eqn:Hr; [congruence|].
  set (L := bits (SizedRegister.size first)) in *.
  set (regs := first :: rest) in *.
  assert (Hq : (start + len) / L = start / L + len / L).
  { rewrite (Z.div_mod len L) at 1 by lia. rewrite Hlalign, Z.add_0_r.
    rewrite Z.add_comm, Z.mul_comm, Z.div_add_l by lia. lia. }
  assert (Hto : (start + len) / L < Z.of_nat (length regs))
    by (apply Z.div_lt_upper_bound; lia).
  assert (Hs0 : 0 <= start / L) by (apply Z.div_pos; lia).
  assert (Hl0 : 0 <= len / L) by (apply Z.div_pos; lia).
  split.
  - replace (len =? 0) with false by (symmetry; apply Z.eqb_neq; lia).
    replace (start >=? Reg.m_size r) with false
      by (symmetry; rewrite Z.geb_leb; apply Z.leb_gt; lia).
    assert (Hw : wrap64 (start + len) = start + len)
      by (unfold wrap64; apply Z.mod_small; lia).
    rewrite Hw.
    replace (start + len >? Reg.m_size r) with false
      by (symmetry; rewrite Z.gtb_ltb; apply Z.ltb_ge; lia).
    replace (len =? 0) with false by (symmetry; apply Z.eqb_neq; lia).
    rewrite Halign. simpl negb. cbv iota. rewrite ?Hw.
    replace (start + len <? Reg.m_size r) with true
      by (symmetry; apply Z.ltb_lt; lia).
    rewrite Hlalign. simpl negb. cbv iota.
    rewrite Hq.
    replace (Z.to_nat (start / L + len / L - start / L + 1))
      with (Z.to_nat (len / L) + 1)%nat by lia.
    rewrite subset_loop_in_range by lia. reflexivity.
  - rewrite length_firstn, length_skipn. lia.
Qed.

Lemma subset_interior_witness :
  Reg.subset reg96 0 32 = Ok (Reg.mk 1 1 true [sized_r0; sized_r1]) /\
  Z.of_nat (length [sized_r0; sized_r1]) = 2.
Proof.
  apply (subset_interior reg96 0 32);
    [discriminate | lia | lia | simpl; lia | vm_compute; discriminate
    | simpl; lia | reflexivity | reflexivity].
Defined.

(** X4: [subset(start, len)] with [start] inside the register and not a
    multiple of the limb width throws [std::invalid_argument], for every
    [len]. *)
Theorem subset_misaligned_start (r : Reg.t) (start len : Z) :
  Reg.m_regs r <> [] ->
  0 <= start < Reg.m_size r ->
  Reg.m_size r < 2 ^ 64 ->
  start mod Reg.limbSize r <> 0 ->
  Reg.subset r start len = Fail InvalidArgument.
Proof.
  intros Hregs Hstart Hsize Halign.
  unfold Reg.subset, Reg.limbSize in *. cbv zeta.
  destruct (Reg.m_regs r) as [|first rest] eqn:Hr; [congruence|].
  replace (start >=? Reg.m_size r) with false
    by (symmetry; rewrite Z.geb_leb; apply Z.leb_gt; lia).
  set (len1 := if len =? 0 then Reg.m_size r else len).
  assert (Hlen1 : len1 <> 0)
    by (subst len1; destruct (Z.eqb_spec len 0); lia).
  set (len2 := if wrap64 (start + len1) >? Reg.m_size r
               then wrap64 (Reg.m_size r - start) else len1).
  assert (Hlen2 : len2 <> 0).
  { subst len2. destruct (wrap64 (start + len1) >? Reg.m_size r);
      [|exact Hlen1].
    unfold wrap64. rewrite Z.mod_small; lia. }
  apply Z.eqb_neq in Hlen2. rewrite Hlen2.
  apply Z.eqb_neq in Halign. rewrite Halign. reflexivity.
Qed.

Lemma subset_misaligned_start_witness :
  Reg.subset reg96 8 0 = Fail InvalidArgument.
Proof.
  apply subset_misaligned_start;
    [discriminate | simpl; lia | simpl; lia | vm_compute; discriminate].
Defined.

End RegMore.

Section RegBuilt.
Import BasicRegister.

Lemma existsb_app_single {A : Type} (f : A -> bool) (l : list A) (x : A) :
  existsb f (l ++ [x]) = existsb f l || f x.
Proof. rewrite existsb_app. simpl. rewrite orb_false_r. reflexivity. Qed.

Lemma distinct_app_single (l : list Z) (n : Z) :
  distinct l = true ->
  existsb (fun m => n =? m) l = false ->
  distinct (l ++ [n]) = true.
Proof.
  induction l as [|m l IH]; intros Hd Hn; simpl in *.
  - reflexivity.
  - apply andb_true_iff in Hd. destruct Hd as [Hm Hd].
    apply orb_false_iff in Hn. destruct Hn as [Hnm Hn].
    rewrite IH by assumption. rewrite andb_true_r.
    rewrite existsb_app_single, negb_orb.
    rewrite Hm. simpl. rewrite Z.eqb_sym, Hnm. reflexivity.
Qed.

Lemma Size_eqb_eq (a b : Size) : Size_eqb a b = true -> a = b.
Proof. destruct a, b; vm_compute; congruence. Qed.

(** X5: every register built from [Reg()] by calls of [addRegister] that
    returned has limbs with pairwise different register numbers and one
    common width, a size and a full size equal to the number of limbs times
    that width (modulo [2^64]), and the zero-fill flag set. *)
Theorem addRegister_invariant (r : Reg.t) :
  built r ->
  distinct (map SizedRegister.number (Reg.m_regs r)) = true /\
  Forall (fun x => bits (SizedRegister.size x) = Reg.limbSize r)
         (Reg.m_regs r) /\
  Reg.m_size r = wrap64 (Reg.numRegs r * Reg.limbSize r) /\
  Reg.m_fullSize r = Reg.m_size r /\
  Reg.m_zeroFill r = true.
Proof.
  induction 1 as [|x r r' Hb IH Hadd].
  - repeat split. constructor.
  - destruct IH as [Hd [Hsz [Hsize [Hfull Hzero]]]].
    pose proof (addRegister_ok _ _ _ Hadd) as Hr'.
    unfold Reg.addRegister in Hadd.
    destruct (existsb _ (Reg.m_regs r)) eqn:Hex; [discriminate|].
    assert (Hlimb : Reg.limbSize r' = bits (SizedRegister.size x) /\
                    (Reg.m_regs r = [] \/
                     Reg.limbSize r = bits (SizedRegister.size x))).
    { subst r'. unfold Reg.limbSize. simpl.
      destruct (Reg.m_regs r) as [|y l]; [split; [reflexivity|left; auto]|].
      simpl. destruct (Size_eqb (SizedRegister.size y)
                                (SizedRegister.size x)) eqn:Heq;
        [|discriminate].
      apply Size_eqb_eq in Heq.
      split; [|right]; congruence. }
    destruct Hlimb as [HL' HL]. rewrite HL'. subst r'. simpl.
    unfold Reg.numRegs in *. simpl.
    rewrite length_app, Nat2Z.inj_add. simpl length.
    change (Z.of_nat 1) with 1.
    split; [|split; [|split; [|split]]].
    + rewrite map_app. apply distinct_app_single; [exact Hd|].
      rewrite <- Hex. clear. induction (Reg.m_regs r) as [|y l IHl];
        simpl; [reflexivity|]. rewrite IHl. reflexivity.
    + apply Forall_app. split; [|constructor; [reflexivity|constructor]].
      destruct HL as [Hnil|HL]; [rewrite Hnil; constructor|].
      rewrite <- HL. exact Hsz.
    + rewrite Hsize. destruct HL as [Hnil|HL].
      * rewrite Hnil. simpl length. simpl Z.of_nat. unfold wrap64.
        rewrite Z.add_mod_idemp_l by discriminate. f_equal. ring.
      * rewrite HL. apply wrap64_add_limb.
    + rewrite Hfull. reflexivity.
    + exact Hzero.
Qed.

Lemma addRegister_invariant_witness :
  distinct (map SizedRegister.number (Reg.m_regs reg_r0)) = true /\
  Forall (fun x => bits (SizedRegister.size x) = Reg.limbSize reg_r0)
         (Reg.m_regs reg_r0) /\
  Reg.m_size reg_r0 = wrap64 (Reg.numRegs reg_r0 * Reg.limbSize reg_r0) /\
  Reg.m_fullSize reg_r0 = Reg.m_size reg_r0 /\
  Reg.m_zeroFill reg_r0 = true.
Proof.
  apply (addRegister_invariant reg_r0).
  apply (built_add sized_r0 Reg.null reg_r0); [constructor|reflexivity].
Defined.

End RegBuilt.

(** ** The allocator: failure, first fit, live registers *)

Section AllocateFailure.
Import BasicRegister CodeGenerator.

Lemma addRegisterSized_fail (it : BasicRegister.t) (rsize : Size)
  (reg : Reg.t) (f : failure) :
  Reg.addRegisterSized it rsize reg = Fail f -> f = InvalidArgument.
Proof.
  unfold Reg.addRegisterSized, SizedRegister.make, Reg.addRegister.
  destruct (negb _); simpl; [congruence|].
  destruct (existsb _ _); [congruence|].
  destruct (Reg.m_regs reg); [discriminate|].
  destruct (negb _); [congruence|discriminate].
Qed.

Lemma allocate_scan_fail (allocated : Z) (rsize : Size) (flags count : Z) :
  forall regs reg f,
    allocate_scan allocated rsize flags count regs reg = Fail f ->
    f = InvalidArgument.
Proof.
  induction regs as [|it rest IH]; intros reg f H; simpl in H;
    [discriminate|].
  destruct (Reg.numRegs reg =? count); [discriminate|].
  destruct (negb (Z.land allocated (regBit (number it)) =? 0));
    [eapply IH; exact H|].
  destruct (negb (hasSize it rsize)); [eapply IH; exact H|].
  destruct (negb (Z.land (BasicRegister.flags it) flags =? flags));
    [eapply IH; exact H|].
  destruct (hasFlag it NoAllocate); [eapply IH; exact H|].
  destruct (Reg.addRegisterSized it rsize reg) as [reg1|f1] eqn:Hadd.
  - eapply IH; exact H.
  - inversion H; subst. eapply addRegisterSized_fail; exact Hadd.
Qed.

(** [setSize] accepts the size asked of [allocate] whenever the scan has
    found at least one limb. *)
Lemma setSize_scanned (size : Z) (allocated : Z) (rsize : Size)
  (regs : list BasicRegister.t) (sc : Reg.t) :
  0 <= size < 2 ^ 64 ->
  scanned allocated rsize regs sc ->
  Reg.numRegs sc = wrap64 (size + bits rsize - 1) / bits rsize ->
  Reg.m_regs sc <> [] ->
  exists sized, Reg.setSize size sc = Ok sized.
Proof.
  intros Hsize [Hlimbs [_ [Hfull _]]] Hcount Hne.
  unfold Reg.setSize, Reg.limbSize, Reg.numRegs in *.
  destruct (Reg.m_regs sc) as [|x rest] eqn:Hregs; [congruence|].
  inversion Hlimbs as [|? ? Hp _]; subst. destruct Hp as [Hx _]. rewrite Hx.
  rewrite Hfull. set (n := Z.of_nat (length (x :: rest))) in *.
  assert (Hn : 1 <= n) by (subst n; simpl length; lia).
  assert (Hs : (size >? wrap64 (n * bits rsize)) ||
               (size <=? wrap64 (wrap64 (n * bits rsize) - bits rsize))
               = false).
  { rewrite Z.gtb_ltb. apply orb_false_iff.
    rewrite Z.ltb_ge, Z.leb_gt. clearbody n. clear - Hsize Hcount Hn.
    unfold wrap64 in *. change (2 ^ 64) with 18446744073709551616 in *.
    destruct rsize; simpl bits in *; Z.div_mod_to_equations; lia. }
  rewrite Hs. eexists. reflexivity.
Qed.

Lemma allocate_fails_unchanged (size flags : Z) (g g' : CodeGenerator.t)
  (f : failure) :
  0 <= size < 2 ^ 64 ->
  allocate size flags g = (Fail f, g') ->
  g' = g /\ f = InvalidArgument.
Proof.
  intros Hsize H. unfold allocate in H.
  destruct (flags =? 0); [discriminate|]. cbv zeta in H.
  destruct (allocate_scan _ _ _ _ _ _) as [sc|f1] eqn:Hscan.
  - destruct (negb (Reg.numRegs sc =? limbCount size flags g)) eqn:Hn;
      [discriminate|].
    apply negb_false_iff, Z.eqb_eq in Hn.
    destruct (Reg.setSize size sc) as [sized|f2] eqn:Hset; [discriminate|].
    inversion H; subst. clear H.
    assert (Hsc : scanned (m_allocatedRegs g) (limbWidth flags g)
                    (Platform.m_registers (m_platform g)) sc).
    { eapply allocate_scan_scanned; [| apply scanned_null | exact Hscan].
      intros it Hit. exact Hit. }
    destruct (Reg.m_regs sc) as [|x rest] eqn:Hregs.
    + split; [reflexivity|].
      unfold Reg.setSize in Hset. destruct (_ || _); congruence.
    + exfalso.
      destruct (setSize_scanned size _ _ _ sc Hsize Hsc Hn) as [sized Hok];
        congruence.
  - inversion H; subst. split; [reflexivity|].
    eapply allocate_scan_fail. exact Hscan.
Qed.

(** X6: a call of [allocateReg] that throws, for any size that fits
    [size_t], throws [std::invalid_argument] and leaves the generator as it
    was: no register stays marked as allocated or used. *)
Theorem allocateReg_throws_unchanged
  (size f1 f2 f3 f4 : Z) (g : CodeGenerator.t) (f : failure) :
  0 <= size < 2 ^ 64 ->
  numbersFit (m_platform g) = true ->
  fst (allocateReg size f1 f2 f3 f4 g) = Fail f ->
  snd (allocateReg size f1 f2 f3 f4 g) = g /\ f = InvalidArgument.
Proof.
  intros Hsize _. unfold allocateReg.
  destruct (size =? 0) eqn:H0;
    [unfold throw; simpl; intros H; inversion H; split; reflexivity|].
  apply Z.eqb_neq in H0. unfold bindM, ret, throw.
  destruct (allocate size f1 g) as [[r1|e1] g1] eqn:H1;
    [|simpl; intros H; inversion H; subst;
      eapply allocate_fails_unchanged; eassumption].
  destruct (Reg.isNull r1) eqn:N1; simpl; [|discriminate].
  apply (allocate_null _ _ _ _ _ H0 H1) in N1. subst g1.
  destruct (allocate size f2 g) as [[r2|e2] g2] eqn:H2;
    [|simpl; intros H; inversion H; subst;
      eapply allocate_fails_unchanged; eassumption].
  destruct (Reg.isNull r2) eqn:N2; simpl; [|discriminate].
  apply (allocate_null _ _ _ _ _ H0 H2) in N2. subst g2.
  destruct (allocate size f3 g) as [[r3|e3] g3] eqn:H3;
    [|simpl; intros H; inversion H; subst;
      eapply allocate_fails_unchanged; eassumption].
  destruct (Reg.isNull r3) eqn:N3; simpl; [|discriminate].
  apply (allocate_null _ _ _ _ _ H0 H3) in N3. subst g3.
  destruct (allocate size f4 g) as [[r4|e4] g4] eqn:H4;
    [|simpl; intros H; inversion H; subst;
      eapply allocate_fails_unchanged; eassumption].
  destruct (Reg.isNull r4) eqn:N4; simpl; [|discriminate].
  apply (allocate_null _ _ _ _ _ H0 H4) in N4. subst g4.
  intros H; inversion H; split; reflexivity.
Qed.

Lemma allocateReg_throws_unchanged_witness :
  snd (allocateReg 1024 Data 0 0 0
         (CodeGenerator.new Platform_ARM.Platform_ARMv6m)) =
    CodeGenerator.new Platform_ARM.Platform_ARMv6m /\
  InvalidArgument = InvalidArgument.
Proof.
  apply (allocateReg_throws_unchanged 1024 Data 0 0 0
           (CodeGenerator.new Platform_ARM.Platform_ARMv6m) InvalidArgument).
  - lia.
  - reflexivity.
  - vm_compute. reflexivity.
Defined.

End AllocateFailure.

Section FirstFit.
Import BasicRegister CodeGenerator.

Lemma distinct_head (n : Z) (rest : list Z) :
  distinct (n :: rest) = true ->
  distinct rest = true /\ forall m, In m rest -> n <> m.
Proof.
  simpl. intros H. apply andb_true_iff in H. destruct H as [Hn Hd].
  split; [exact Hd|]. intros m Hm Heq.
  apply negb_true_iff in Hn.
  assert (existsb (Z.eqb n) rest = true); [|congruence].
  apply existsb_exists. exists m. split; [exact Hm|apply Z.eqb_eq; exact Heq].
Qed.

Lemma allocate_scan_first_fit (allocated : Z) (rsize : Size)
  (flags count : Z) :
  forall regs acc,
    distinct (map number regs) = true ->
    (forall x, In x (Reg.m_regs acc) ->
       SizedRegister.size x = rsize /\
       forall it, In it regs -> SizedRegister.number x <> number it) ->
    Reg.numRegs acc <= count ->
    exists r,
      allocate_scan allocated rsize flags count regs acc = Ok r /\
      Reg.m_regs r =
      Reg.m_regs acc ++
      firstFit allocated rsize flags (count - Reg.numRegs acc) regs.
Proof.
  unfold firstFit.
  induction regs as [|it rest IH]; intros acc Hd Hacc Hn; simpl.
  - exists acc. rewrite firstn_nil, app_nil_r. split; reflexivity.
  - destruct (Z.eqb_spec (Reg.numRegs acc) count) as [Heq|Hne].
    { exists acc. rewrite Heq, Z.sub_diag. simpl. rewrite app_nil_r.
      split; reflexivity. }
    apply distinct_head in Hd. destruct Hd as [Hd Hfresh].
    assert (Hacc' : forall x, In x (Reg.m_regs acc) ->
              SizedRegister.size x = rsize /\
              forall it', In it' rest ->
                          SizedRegister.number x <> number it').
    { intros x Hx. destruct (Hacc x Hx) as [Hs Hnum].
      split; [exact Hs|]. intros it' Hit'. apply Hnum. right. exact Hit'. }
    unfold eligible at 1.
    destruct (Z.land allocated (regBit (number it)) =? 0); simpl;
      [|apply IH; assumption].
    destruct (hasSize it rsize) eqn:Hsize; simpl; [|apply IH; assumption].
    destruct (Z.land (BasicRegister.flags it) flags =? flags); simpl;
      [|apply IH; assumption].
    destruct (hasFlag it NoAllocate); simpl; [apply IH; assumption|].
    unfold Reg.addRegisterSized. rewrite make_hasSize, Hsize. simpl bind.
    assert (Hadd : Reg.addRegister (SizedRegister.mk it rsize) acc =
              Ok (Reg.mk (wrap64 (Reg.m_size acc + bits rsize))
                         (wrap64 (Reg.m_fullSize acc + bits rsize))
                         (Reg.m_zeroFill acc)
                         (Reg.m_regs acc ++ [SizedRegister.mk it rsize]))).
    { unfold Reg.addRegister.
      replace (existsb _ (Reg.m_regs acc)) with false.
      - destruct (Reg.m_regs acc) as [|y l] eqn:Hr; [reflexivity|].
        destruct (Hacc y (or_introl eq_refl)) as [Hy _].
        simpl. rewrite Hy. unfold Size_eqb. rewrite Z.eqb_refl. reflexivity.
      - symmetry. apply not_true_is_false. intros Hex.
        apply existsb_exists in Hex. destruct Hex as [y [Hy Heq]].
        apply Z.eqb_eq in Heq. destruct (Hacc y Hy) as [_ Hnum].
        apply (Hnum it (or_introl eq_refl)). symmetry. exact Heq. }
    rewrite Hadd.
    edestruct (IH (Reg.mk (wrap64 (Reg.m_size acc + bits rsize))
                          (wrap64 (Reg.m_fullSize acc + bits rsize))
                          (Reg.m_zeroFill acc)
                          (Reg.m_regs acc ++ [SizedRegister.mk it rsize])))
      as [r [Hscan Hregs]].
    + exact Hd.
    + simpl. intros x Hx. apply in_app_or in Hx. destruct Hx as [Hx|Hx].
      * apply Hacc'. exact Hx.
      * destruct Hx as [Hx|[]]. subst x. split; [reflexivity|].
        intros it' Hit'. apply Hfresh. apply in_map. exact Hit'.
    + unfold Reg.numRegs in *. cbn [Reg.m_regs]. rewrite length_app.
      simpl length. lia.
    + exists r. split; [exact Hscan|]. rewrite Hregs.
      unfold Reg.numRegs in *. cbn [Reg.m_regs]. rewrite length_app.
      simpl length. cbn [filter firstn map].
      rewrite <- app_assoc. f_equal.
      replace (Z.to_nat (count - Z.of_nat (length (Reg.m_regs acc))))
        with (S (Z.to_nat (count - Z.of_nat
                   (length (Reg.m_regs acc) + 1)))) by lia.
      reflexivity.
Qed.

(** The outcome of [allocate] with the scan replaced by the first fit; the
    marking loop is still the code's. *)
Lemma allocate_first_fit_marked (size flags : Z) (g : CodeGenerator.t) :
  numbersDistinct (m_platform g) = true ->
  flags <> 0 ->
  0 < size <= 2 ^ 64 - 64 ->
  let rsize := limbWidth flags g in
  let count := limbCount size flags g in
  let free := filter (eligible (m_allocatedRegs g) rsize flags)
                     (Platform.m_registers (m_platform g)) in
  let limbs := firstFit (m_allocatedRegs g) rsize flags count
                        (Platform.m_registers (m_platform g)) in
  (Z.of_nat (length free) < count ->
   allocate size flags g = (Ok Reg.null, g)) /\
  (count <= Z.of_nat (length free) ->
   allocate size flags g =
   (Ok (Reg.mk size (count * bits rsize) (count * bits rsize =? size) limbs),
    fold_left (fun g x => markUsed (SizedRegister.number x) g) limbs g)).
Proof.
  intros Hd Hflags Hsize rsize count free limbs.
  assert (Hcount : 0 < count /\ count * bits rsize < 2 ^ 64 /\
                   count = wrap64 (size + bits rsize - 1) / bits rsize).
  { subst count. unfold limbCount. fold rsize. unfold wrap64.
    change (2 ^ 64) with 18446744073709551616 in *.
    destruct rsize; simpl bits; Z.div_mod_to_equations; lia. }
  destruct Hcount as [Hpos [Hfit Hcount]].
  destruct (allocate_scan_first_fit (m_allocatedRegs g) rsize flags count
              (Platform.m_registers (m_platform g)) Reg.null Hd)
    as [sc [Hscan Hregs]].
  { intros x []. }
  { unfold Reg.numRegs. simpl. lia. }
  simpl in Hregs. rewrite Z.sub_0_r in Hregs. fold limbs in Hregs.
  assert (Hlen : Z.of_nat (length limbs) =
                 Z.min count (Z.of_nat (length free))).
  { subst limbs. unfold firstFit. rewrite length_map, length_firstn.
    fold free. lia. }
  assert (Hsc : scanned (m_allocatedRegs g) rsize
                  (Platform.m_registers (m_platform g)) sc).
  { eapply allocate_scan_scanned; [| apply scanned_null | exact Hscan].
    intros it Hit. exact Hit. }
  unfold allocate. apply Z.eqb_neq in Hflags. rewrite Hflags. cbv zeta.
  fold rsize. fold count. rewrite Hscan.
  unfold Reg.numRegs. rewrite Hregs, Hlen.
  split; intros Hfree.
  - replace (Z.min count (Z.of_nat (length free)) =? count) with false
      by (symmetry; apply Z.eqb_neq; lia).
    reflexivity.
  - replace (Z.min count (Z.of_nat (length free)) =? count) with true
      by (symmetry; apply Z.eqb_eq; lia).
    simpl negb. cbv iota.
    assert (Hne : Reg.m_regs sc <> []).
    { rewrite Hregs. intros Hnil. rewrite Hnil in Hlen. simpl in Hlen. lia. }
    destruct (setSize_scanned size (m_allocatedRegs g) rsize
                (Platform.m_registers (m_platform g)) sc) as [sized Hset];
      [lia | exact Hsc | | exact Hne |].
    { unfold Reg.numRegs. rewrite Hregs, Hlen. lia. }
    rewrite Hset. destruct Hsc as [_ [_ [Hfull Hzero]]].
    unfold Reg.setSize in Hset. destruct (_ || _); [discriminate|].
    inversion Hset; subst sized. clear Hset.
    unfold Reg.fullSize, Reg.setZeroFill. simpl.
    rewrite Hfull, Hzero, Hregs. unfold Reg.numRegs. rewrite Hregs, Hlen.
    rewrite Z.min_l by lia.
    replace (wrap64 (count * bits rsize)) with (count * bits rsize)
      by (unfold wrap64; symmetry; apply Z.mod_small;
          destruct rsize; simpl bits in *; lia).
    destruct (count * bits rsize =? size); reflexivity.
Qed.

Lemma firstFit_registered (allocated : Z) (rsize : Size) (flags count : Z)
  (regs : list BasicRegister.t) (x : SizedRegister.t) :
  In x (firstFit allocated rsize flags count regs) ->
  In (SizedRegister.reg x) regs.
Proof.
  unfold firstFit. intros Hx. apply in_map_iff in Hx.
  destruct Hx as [it [<- Hit]]. simpl.
  assert (Hin : In it (filter (eligible allocated rsize flags) regs)).
  { rewrite <- (firstn_skipn (Z.to_nat count)). apply in_or_app.
    left. exact Hit. }
  apply filter_In in Hin. destruct Hin as [Hin _]. exact Hin.
Qed.

(** The bits of a mask after the marking loop, for limbs whose register
    numbers are below 64. *)
Lemma testbit_marked (regs : list BasicRegister.t)
  (limbs : list SizedRegister.t) (mask j : Z) :
  forallb (fun it => (0 <=? number it) && (number it <? 64)) regs = true ->
  (forall x, In x limbs -> In (SizedRegister.reg x) regs) ->
  Z.testbit (orBits limbs mask) j =
  Z.testbit mask j || existsb (fun x => j =? SizedRegister.number x) limbs.
Proof.
  intros Hfit Hin. rewrite testbit_orBits. f_equal.
  rewrite forallb_forall in Hfit.
  induction limbs as [|x limbs IH]; [reflexivity|]. simpl.
  rewrite IH by (intros y Hy; apply Hin; right; exact Hy).
  f_equal. rewrite testbit_regBit.
  specialize (Hfit _ (Hin x (or_introl eq_refl))).
  unfold SizedRegister.number, SizedRegister.reg in *.
  rewrite Hfit. reflexivity.
Qed.

(** X7: [allocate] is first fit.  On a platform with pairwise different
    register numbers below 64, for a non-zero flag word and a size between
    1 and [2^64 - 64], let [L] be the limb width (the address word size
    when the flag word has [Address], the allocation size otherwise) and
    [count = ceil(size / L)].  When fewer than [count] registers pass the
    four tests (free, of width [L], with all the flags asked for, not
    [NoAllocate]) it returns [Reg()] and changes nothing.  Otherwise it
    returns the first [count] of them in the order of the platform's
    register list, with size [size], full size [count * L] and the
    zero-fill flag set exactly when the two are equal; in both masks the
    bits of these registers are set and no other bit changes, and no other
    field of the generator changes. *)
Theorem allocate_first_fit (size flags : Z) (g : CodeGenerator.t) :
  numbersDistinct (m_platform g) = true ->
  numbersFit (m_platform g) = true ->
  flags <> 0 ->
  0 < size <= 2 ^ 64 - 64 ->
  let rsize := if Z.land flags Address =? 0 then m_allocationSize g
               else Platform.addressWordSize (m_platform g) in
  let count := ceilDiv size (bits rsize) in
  let free := filter (eligible (m_allocatedRegs g) rsize flags)
                     (Platform.m_registers (m_platform g)) in
  let limbs := firstFit (m_allocatedRegs g) rsize flags count
                        (Platform.m_registers (m_platform g)) in
  (Z.of_nat (length free) < count ->
   allocate size flags g = (Ok Reg.null, g)) /\
  (count <= Z.of_nat (length free) ->
   fst (allocate size flags g) =
   Ok (Reg.mk size (count * bits rsize) (count * bits rsize =? size) limbs) /\
   sameButMasks g (snd (allocate size flags g)) /\
   (forall j,
      Z.testbit (m_allocatedRegs (snd (allocate size flags g))) j =
      Z.testbit (m_allocatedRegs g) j
      || existsb (fun x => j =? SizedRegister.number x) limbs) /\
   (forall j,
      Z.testbit (m_usedRegs (snd (allocate size flags g))) j =
      Z.testbit (m_usedRegs g) j
      || existsb (fun x => j =? SizedRegister.number x) limbs)).
Proof.
  intros Hd Hfit Hflags Hsize rsize count free limbs.
  assert (Hwidth : limbWidth flags g = rsize).
  { unfold limbWidth. subst rsize.
    destruct (Z.land flags Address =? 0); reflexivity. }
  assert (Hcount : limbCount size flags g = count).
  { unfold limbCount. rewrite Hwidth. subst count. unfold ceilDiv, wrap64.
    rewrite Z.mod_small; [reflexivity|].
    change (2 ^ 64) with 18446744073709551616 in *.
    destruct rsize; simpl bits; lia. }
  destruct (allocate_first_fit_marked size flags g Hd Hflags Hsize)
    as [Hnone Hsome].
  rewrite Hwidth in Hnone, Hsome. rewrite Hcount in Hnone, Hsome.
  fold free in Hnone, Hsome. fold limbs in Hsome.
  split; [exact Hnone|]. intros Hfree.
  rewrite (Hsome Hfree). cbn [fst snd].
  destruct (markUsed_fold limbs g) as [Hsame [Ha Hu]].
  cbv zeta in Hsame, Ha, Hu.
  assert (Hin : forall x, In x limbs ->
                  In (SizedRegister.reg x)
                     (Platform.m_registers (m_platform g)))
    by (intros x Hx; eapply firstFit_registered; exact Hx).
  split; [reflexivity|]. split; [exact Hsame|]. split; intros j.
  - rewrite Ha. apply (testbit_marked _ _ _ _ Hfit Hin).
  - rewrite Hu. apply (testbit_marked _ _ _ _ Hfit Hin).
Qed.

Lemma allocate_first_fit_witness :
  let g := CodeGenerator.new Platform_ARM.Platform_ARMv6m in
  let rsize := if Z.land Data Address =? 0 then m_allocationSize g
               else Platform.addressWordSize (m_platform g) in
  let count := ceilDiv 40 (bits rsize) in
  let limbs := firstFit (m_allocatedRegs g) rsize Data count
                        (Platform.m_registers (m_platform g)) in
  fst (allocate 40 Data g) =
  Ok (Reg.mk 40 (count * bits rsize) (count * bits rsize =? 40) limbs) /\
  sameButMasks g (snd (allocate 40 Data g)) /\
  (forall j,
     Z.testbit (m_allocatedRegs (snd (allocate 40 Data g))) j =
     Z.testbit (m_allocatedRegs g) j
     || existsb (fun x => j =? SizedRegister.number x) limbs) /\
  (forall j,
     Z.testbit (m_usedRegs (snd (allocate 40 Data g))) j =
     Z.testbit (m_usedRegs g) j
     || existsb (fun x => j =? SizedRegister.number x) limbs).
Proof.
  apply (proj2 (allocate_first_fit 40 Data
                  (CodeGenerator.new Platform_ARM.Platform_ARMv6m)
                  eq_refl eq_refl ltac:(discriminate) ltac:(lia))).
  vm_compute. discriminate.
Defined.

End FirstFit.

Section LiveRegisters.
Import BasicRegister CodeGenerator.

(** What a successful [allocateReg] has done to the allocated mask. *)
Lemma allocateReg_mask (size f1 f2 f3 f4 : Z) (g g1 : CodeGenerator.t)
  (r : Reg.t) :
  allocateReg size f1 f2 f3 f4 g = (Ok r, g1) ->
  sameButMasks g g1 /\
  m_allocatedRegs g1 = orBits (Reg.m_regs r) (m_allocatedRegs g) /\
  Forall (fun x => In (SizedRegister.reg x)
                      (Platform.m_registers (m_platform g)) /\
                   Z.land (m_allocatedRegs g)
                          (regBit (SizedRegister.number x)) = 0)
         (Reg.m_regs r).
Proof.
  intros Hcall.
  destruct (allocateReg_ok _ _ _ _ _ _ _ _ Hcall)
    as [_ [flags [_ [Halloc Hnull]]]].
  destruct (allocate_ok _ _ _ _ _ Halloc Hnull)
    as [sc [[Hlimbs _] [_ [_ [Hr Hg1]]]]].
  assert (Hregs : Reg.m_regs r = Reg.m_regs sc) by (subst r; reflexivity).
  destruct (markUsed_fold (Reg.m_regs sc) g) as [Hs [Ha _]].
  cbv zeta in Hs, Ha. rewrite <- Hg1 in Hs, Ha. rewrite Hregs.
  split; [exact Hs|]. split; [exact Ha|].
  eapply Forall_impl; [|exact Hlimbs].
  intros x [_ [Hin [Hfree _]]]. split; assumption.
Qed.

(** No call of [allocateReg], whether it returns or throws, clears a bit
    of the allocated mask. *)
Lemma allocate_keeps_bits (size flags : Z) (g : CodeGenerator.t) (j : Z) :
  Z.testbit (m_allocatedRegs g) j = true ->
  Z.testbit (m_allocatedRegs (snd (allocate size flags g))) j = true.
Proof.
  intros Hj.
  destruct (allocate_cases size flags g)
    as [H|[[f H]|[_ [sc [_ [_ H]]]]]].
  - rewrite H. exact Hj.
  - rewrite H. exact Hj.
  - cbv zeta in H.
    destruct (markUsed_fold (Reg.m_regs sc) g) as [_ [Ha _]].
    cbv zeta in Ha.
    destruct H as [[f [_ H]]|[sized [_ H]]]; rewrite H; simpl;
      rewrite Ha, testbit_orBits, Hj; reflexivity.
Qed.

Lemma allocateReg_keeps_bits (size f1 f2 f3 f4 : Z) (g : CodeGenerator.t)
  (j : Z) :
  Z.testbit (m_allocatedRegs g) j = true ->
  Z.testbit (m_allocatedRegs (snd (allocateReg size f1 f2 f3 f4 g))) j = true.
Proof.
  intros Hj. unfold allocateReg. destruct (size =? 0); [exact Hj|].
  unfold bindM, ret, throw.
  pose proof (allocate_keeps_bits size f1 g j Hj) as H1.
  destruct (allocate size f1 g) as [[r1|e1] g1]; simpl in H1; [|exact H1].
  destruct (negb (Reg.isNull r1)); [exact H1|].
  pose proof (allocate_keeps_bits size f2 g1 j H1) as H2.
  destruct (allocate size f2 g1) as [[r2|e2] g2]; simpl in H2; [|exact H2].
  destruct (negb (Reg.isNull r2)); [exact H2|].
  pose proof (allocate_keeps_bits size f3 g2 j H2) as H3.
  destruct (allocate size f3 g2) as [[r3|e3] g3]; simpl in H3; [|exact H3].
  destruct (negb (Reg.isNull r3)); [exact H3|].
  pose proof (allocate_keeps_bits size f4 g3 j H3) as H4.
  destruct (allocate size f4 g3) as [[r4|e4] g4]; simpl in H4; [|exact H4].
  destruct (Reg.isNull r4); exact H4.
Qed.

Lemma allocations_keep_bits (calls : list call) (j : Z) :
  forallb isAllocate calls = true ->
  forall g,
    Z.testbit (m_allocatedRegs g) j = true ->
    Z.testbit (m_allocatedRegs (run calls g)) j = true /\
    m_platform (run calls g) = m_platform g.
Proof.
  induction calls as [|c calls IH]; intros Hall g Hj; simpl.
  - split; [exact Hj|reflexivity].
  - simpl in Hall. apply andb_true_iff in Hall. destruct Hall as [Hc Hall].
    destruct c as [size f1 f2 f3 f4|reg]; [|discriminate]. simpl.
    destruct (IH Hall (snd (allocateReg size f1 f2 f3 f4 g))
                (allocateReg_keeps_bits size f1 f2 f3 f4 g j Hj))
      as [Hbit Hp].
    split; [exact Hbit|]. rewrite Hp.
    apply (allocateReg_sameButMasks size f1 f2 f3 f4 g).
Qed.

(** X8: two registers handed out by [allocateReg] with no [releaseReg] in
    between, whatever other allocations were made or failed between the
    two calls, have no register number in common. *)
Theorem live_registers_disjoint
  (g g1 g2 : CodeGenerator.t) (calls : list call)
  (size1 a1 a2 a3 a4 size2 b1 b2 b3 b4 : Z) (r1 r2 : Reg.t) :
  numbersFit (m_platform g) = true ->
  allocateReg size1 a1 a2 a3 a4 g = (Ok r1, g1) ->
  forallb isAllocate calls = true ->
  allocateReg size2 b1 b2 b3 b4 (run calls g1) = (Ok r2, g2) ->
  Forall (fun x =>
            Forall (fun y => SizedRegister.number x <> SizedRegister.number y)
                   (Reg.m_regs r2))
         (Reg.m_regs r1).
Proof.
  intros Hfit Hfirst Hcalls Hsecond.
  apply Forall_forall. intros x Hx. apply Forall_forall. intros y Hy Heq.
  destruct (allocateReg_mask _ _ _ _ _ _ _ _ Hfirst) as [_ [Ha Hlimbs]].
  rewrite Forall_forall in Hlimbs. destruct (Hlimbs x Hx) as [Hin _].
  unfold numbersFit in Hfit. rewrite forallb_forall in Hfit.
  specialize (Hfit _ Hin).
  assert (Hset : Z.testbit (m_allocatedRegs g1) (SizedRegister.number x)
                 = true).
  { rewrite Ha, testbit_orBits. apply orb_true_iff. right.
    apply existsb_exists. exists x. split; [exact Hx|].
    rewrite testbit_regBit.
    unfold SizedRegister.number, SizedRegister.reg in *.
    rewrite Hfit, Z.eqb_refl. reflexivity. }
  destruct (allocations_keep_bits calls _ Hcalls g1 Hset) as [Hlater _].
  destruct (allocateReg_mask _ _ _ _ _ _ _ _ Hsecond) as [_ [_ Hlimbs2]].
  rewrite Forall_forall in Hlimbs2. destruct (Hlimbs2 y Hy) as [_ Hfree].
  assert (Hbit : Z.testbit (Z.land (m_allocatedRegs (run calls g1))
                              (regBit (SizedRegister.number y)))
                           (SizedRegister.number x) = true).
  { rewrite Z.land_spec, Hlater, testbit_regBit, <- Heq.
    unfold SizedRegister.number, SizedRegister.reg in *.
    rewrite Hfit, Z.eqb_refl. reflexivity. }
  rewrite Hfree, Z.bits_0 in Hbit. discriminate.
Qed.

Lemma live_registers_disjoint_witness :
  Forall (fun x =>
            Forall (fun y => SizedRegister.number x <> SizedRegister.number y)
                   (Reg.m_regs reg32_later))
         (Reg.m_regs reg40).
Proof.
  apply (live_registers_disjoint
           (CodeGenerator.new Platform_ARM.Platform_ARMv6m)
           (snd allocated40) (snd allocated32_later)
           [AllocateReg 32 Data 0 0 0] 40 Data 0 0 0 32 Data 0 0 0).
  - reflexivity.
  - vm_compute. reflexivity.
  - reflexivity.
  - vm_compute. reflexivity.
Defined.

End LiveRegisters.

Section Reallocate.
Import BasicRegister CodeGenerator.

(** The outcome of [allocate] is a function of the platform, the
    allocation size and the allocated mask. *)
Lemma allocate_agree (size flags : Z) (g h : CodeGenerator.t) :
  sameButMasks g h -> m_allocatedRegs h = m_allocatedRegs g ->
  fst (allocate size flags h) = fst (allocate size flags g) /\
  sameButMasks (snd (allocate size flags g)) (snd (allocate size flags h)) /\
  m_allocatedRegs (snd (allocate size flags h)) =
  m_allocatedRegs (snd (allocate size flags g)).
Proof.
  intros Hs Ha.
  assert (Hsym : sameButMasks h g).
  { unfold sameButMasks in *. decompose [and] Hs. repeat split; congruence. }
  destruct Hs as [Hp [_ [Hsz _]]].
  unfold allocate, limbCount, limbWidth. rewrite Hp, Hsz, Ha.
  destruct (flags =? 0).
  { simpl. split; [reflexivity|]. split; [|exact Ha].
    unfold sameButMasks in *. decompose [and] Hsym. repeat split; congruence. }
  cbv zeta.
  destruct (allocate_scan _ _ _ _ _ _) as [sc|f].
  - destruct (negb _).
    { simpl. split; [reflexivity|]. split; [|exact Ha].
      unfold sameButMasks in *. decompose [and] Hsym.
      repeat split; congruence. }
    destruct (markUsed_fold (Reg.m_regs sc) g) as [Hg [Hga _]].
    destruct (markUsed_fold (Reg.m_regs sc) h) as [Hh [Hha _]].
    cbv zeta in Hg, Hga, Hh, Hha.
    assert (Hrel : sameButMasks
              (fold_left (fun g x => markUsed (SizedRegister.number x) g)
                         (Reg.m_regs sc) g)
              (fold_left (fun g x => markUsed (SizedRegister.number x) g)
                         (Reg.m_regs sc) h)).
    { unfold sameButMasks in *. decompose [and] Hsym.
      decompose [and] Hg. decompose [and] Hh. repeat split; congruence. }
    destruct (Reg.setSize size sc); simpl;
      (split; [reflexivity|]; split; [exact Hrel|]; congruence).
  - simpl. split; [reflexivity|]. split; [|exact Ha].
    unfold sameButMasks in *. decompose [and] Hsym. repeat split; congruence.
Qed.

Lemma allocateReg_agree (size f1 f2 f3 f4 : Z) (g h : CodeGenerator.t) :
  sameButMasks g h -> m_allocatedRegs h = m_allocatedRegs g ->
  fst (allocateReg size f1 f2 f3 f4 h) = fst (allocateReg size f1 f2 f3 f4 g).
Proof.
  intros Hs Ha. unfold allocateReg.
  destruct (size =? 0); [reflexivity|]. unfold bindM, ret, throw.
  destruct (allocate_agree size f1 g h Hs Ha) as [E1 [S1 A1]].
  destruct (allocate size f1 g) as [[r1|e1] g1];
    destruct (allocate size f1 h) as [[q1|d1] h1]; simpl in E1, S1, A1;
    try discriminate; [|exact E1].
  inversion E1; subst q1. destruct (negb (Reg.isNull r1)); [reflexivity|].
  destruct (allocate_agree size f2 g1 h1 S1 A1) as [E2 [S2 A2]].
  destruct (allocate size f2 g1) as [[r2|e2] g2];
    destruct (allocate size f2 h1) as [[q2|d2] h2]; simpl in E2, S2, A2;
    try discriminate; [|exact E2].
  inversion E2; subst q2. destruct (negb (Reg.isNull r2)); [reflexivity|].
  destruct (allocate_agree size f3 g2 h2 S2 A2) as [E3 [S3 A3]].
  destruct (allocate size f3 g2) as [[r3|e3] g3];
    destruct (allocate size f3 h2) as [[q3|d3] h3]; simpl in E3, S3, A3;
    try discriminate; [|exact E3].
  inversion E3; subst q3. destruct (negb (Reg.isNull r3)); [reflexivity|].
  destruct (allocate_agree size f4 g3 h3 S3 A3) as [E4 [S4 A4]].
  destruct (allocate size f4 g3) as [[r4|e4] g4];
    destruct (allocate size f4 h3) as [[q4|d4] h4]; simpl in E4, S4, A4;
    try discriminate; [|exact E4].
  inversion E4; subst q4. destruct (Reg.isNull r4); reflexivity.
Qed.

(** X9: after [allocateReg] has returned a register and [releaseReg] has
    released it, the same [allocateReg] call returns the same register
    again: the result depends on the platform, the allocation size and the
    allocated mask only, not on the ever-used mask. *)
Theorem allocateReg_again
  (g g1 : CodeGenerator.t) (size f1 f2 f3 f4 : Z) (r : Reg.t) :
  0 <= m_allocatedRegs g < 2 ^ 64 ->
  numbersFit (m_platform g) = true ->
  allocateReg size f1 f2 f3 f4 g = (Ok r, g1) ->
  fst (allocateReg size f1 f2 f3 f4 (snd (releaseReg r g1))) = Ok r.
Proof.
  intros Hmask _ Hcall.
  destruct (allocateReg_mask _ _ _ _ _ _ _ _ Hcall) as [Hs [Ha Hlimbs]].
  destruct (markFree_fold (Reg.m_regs r) g1) as [Hfs [Hfa _]].
  cbv zeta in Hfs, Hfa.
  rewrite (allocateReg_agree size f1 f2 f3 f4 g (snd (releaseReg r g1))).
  - rewrite Hcall. reflexivity.
  - unfold releaseReg. simpl. eapply sameButMasks_trans; eassumption.
  - unfold releaseReg. simpl. rewrite Hfa, Ha.
    apply clearBits_orBits; [exact Hmask|].
    intros x Hx. rewrite Forall_forall in Hlimbs.
    destruct (Hlimbs x Hx) as [_ Hfree]. exact Hfree.
Qed.

Lemma allocateReg_again_witness :
  fst (allocateReg 40 Data 0 0 0 (snd (releaseReg reg40 (snd allocated40))))
  = Ok reg40.
Proof.
  apply (allocateReg_again (CodeGenerator.new Platform_ARM.Platform_ARMv6m)).
  - simpl. lia.
  - reflexivity.
  - vm_compute. reflexivity.
Defined.

End Reallocate.

Section ReverseAllocated.
Import BasicRegister CodeGenerator.

(** X10: [reversed] on a register returned by [allocateReg(bits, ...)]
    throws [std::invalid_argument] when [bits] is not a multiple of the
    limb width, and otherwise returns the same limbs in the opposite
    order with size and full size [bits]. *)
Theorem allocateReg_reversed
  (g g' : CodeGenerator.t) (nbits f1 f2 f3 f4 : Z) (r : Reg.t) :
  0 <= nbits < 2 ^ 64 ->
  allocateReg nbits f1 f2 f3 f4 g = (Ok r, g') ->
  (nbits mod Reg.limbSize r <> 0 -> Reg.reversed r = Fail InvalidArgument) /\
  (nbits mod Reg.limbSize r = 0 ->
   Reg.reversed r = Ok (Reg.mk nbits nbits true (rev (Reg.m_regs r)))).
Proof.
  intros Hbits Hcall.
  destruct (allocateReg_ok _ _ _ _ _ _ _ _ Hcall)
    as [Hne [flags [_ [Halloc Hnull]]]].
  destruct (allocate_ok _ _ _ _ _ Halloc Hnull)
    as [sc [[Hlimbs [_ [Hfull _]]] [Hcount [Hset [Hr _]]]]].
  unfold Reg.setSize in Hset.
  destruct (_ || _) eqn:Hcheck in Hset; [discriminate|]. clear Hset.
  destruct (limbCount_exact nbits (bits (limbWidth flags g))
              (limbCount nbits flags g) (Reg.m_fullSize sc)
              (Reg.limbSize sc))
    as [Hn [HF Hpos]].
  - apply bits_cases.
  - lia.
  - reflexivity.
  - rewrite Hfull, Hcount. reflexivity.
  - exact Hcheck.
  - assert (HL : Reg.limbSize r = bits (limbWidth flags g)).
    { subst r. unfold Reg.limbSize. simpl.
      unfold Reg.numRegs in Hcount.
      destruct (Reg.m_regs sc) as [|x rest]; [simpl in Hcount; lia|].
      inversion Hlimbs as [|? ? Hp _]; subst. destruct Hp as [Hx _].
      rewrite Hx. reflexivity. }
    rewrite HL.
    assert (Hmul : Reg.m_fullSize sc mod bits (limbWidth flags g) = 0)
      by (rewrite HF; apply Z.mod_mul;
          destruct (limbWidth flags g); discriminate).
    split; intros Hmod.
    + unfold Reg.reversed. subst r. simpl.
      replace (nbits =? Reg.m_fullSize sc) with false; [reflexivity|].
      symmetry. apply Z.eqb_neq. congruence.
    + assert (Heq : Reg.m_fullSize sc = nbits).
      { rewrite HF. unfold ceilDiv.
        destruct (limbWidth flags g); simpl bits in *;
          Z.div_mod_to_equations; lia. }
      subst r. rewrite reversed_ok by (simpl; congruence). simpl.
      rewrite Heq. reflexivity.
Qed.

Lemma allocateReg_reversed_witness :
  (40 mod Reg.limbSize reg40 <> 0 ->
   Reg.reversed reg40 = Fail InvalidArgument) /\
  (40 mod Reg.limbSize reg40 = 0 ->
   Reg.reversed reg40 = Ok (Reg.mk 40 40 true (rev (Reg.m_regs reg40)))).
Proof.
  apply (allocateReg_reversed
           (CodeGenerator.new Platform_ARM.Platform_ARMv6m)
           (snd allocated40) 40 Data 0 0 0 reg40).
  - lia.
  - vm_compute. reflexivity.
Defined.

End ReverseAllocated.

(** ** [setupLocals] and [reschedule] *)

Section Rounding.
Import BasicRegister CodeGenerator.

(** [x & ~(2^k - 1)] on [size_t]. *)
Lemma land_lnot_low (x k : Z) :
  0 <= x < 2 ^ 64 -> 0 <= k ->
  Z.land x (wrap64 (Z.lnot (2 ^ k - 1))) = x / 2 ^ k * 2 ^ k.
Proof.
  intros Hx Hk. apply Z.bits_inj'. intros j Hj.
  rewrite Z.land_spec, testbit_wrap64 by exact Hj.
  rewrite Z.lnot_spec by exact Hj.
  replace (2 ^ k - 1) with (Z.ones k) by (rewrite Z.ones_equiv; lia).
  rewrite Z.testbit_ones_nonneg by lia.
  rewrite <- Z.shiftr_div_pow2, <- Z.shiftl_mul_pow2 by exact Hk.
  destruct (Z.ltb_spec j k) as [Hlt|Hge].
  - rewrite Z.shiftl_spec_low by exact Hlt.
    replace (k <=? j) with false by (symmetry; apply Z.leb_gt; lia).
    simpl. rewrite !andb_false_r. reflexivity.
  - rewrite Z.shiftl_spec_high, Z.shiftr_spec by lia.
    replace (j - k + k) with j by lia.
    replace (k <=? j) with true by (symmetry; apply Z.leb_le; lia).
    simpl. rewrite andb_true_r.
    destruct (Z.ltb_spec j 64) as [H64|H64]; [apply andb_true_r|].
    simpl. rewrite andb_false_r.
    destruct (Z.testbit x j) eqn:Hbit; [|reflexivity].
    apply (testbit_above_64 x j Hx) in Hbit. lia.
Qed.

(** X11: [setupLocals(n)] sets [m_locals] to [n] rounded up to a multiple
    of the value of the address word size (its number of bits) when
    [n + asize] does not exceed [2^64]; beyond that the addition wraps
    around and [m_locals] becomes 0. *)
Theorem setupLocals_rounds (sizeLocals : Z) (g : CodeGenerator.t) :
  0 <= sizeLocals < 2 ^ 64 ->
  let asize := bits (Platform.addressWordSize (m_platform g)) in
  (sizeLocals + asize <= 2 ^ 64 ->
   m_locals (setupLocals sizeLocals g) = ceilDiv sizeLocals asize * asize) /\
  (2 ^ 64 < sizeLocals + asize ->
   m_locals (setupLocals sizeLocals g) = 0).
Proof.
  intros Hsize asize. unfold setupLocals. cbn [m_locals]. fold asize.
  assert (Hk : exists k, 0 <= k /\ asize = 2 ^ k /\ 8 <= asize <= 64).
  { subst asize. destruct (Platform.addressWordSize (m_platform g));
      [exists 3|exists 4|exists 5|exists 6]; simpl; repeat split; lia. }
  destruct Hk as [k [Hk [Ha Hrange]]].
  assert (Hw : 0 <= wrap64 (sizeLocals + asize - 1) < 2 ^ 64)
    by (apply Z.mod_pos_bound; reflexivity).
  change (2 ^ 64) with 18446744073709551616 in *.
  clearbody asize. subst asize. rewrite land_lnot_low by assumption.
  remember (2 ^ k) as a eqn:Ea. clear Ea Hk k.
  unfold ceilDiv, wrap64 in *. split; intros H;
    change (2 ^ 64) with 18446744073709551616 in *.
  - rewrite Z.mod_small by lia. reflexivity.
  - replace ((sizeLocals + a - 1) mod 18446744073709551616)
      with (sizeLocals + a - 1 - 18446744073709551616).
    + rewrite Z.div_small by lia. reflexivity.
    + apply Z.mod_unique with (q := 1); lia.
Qed.

Lemma setupLocals_rounds_witness :
  let g := CodeGenerator.new Platform_ARM.Platform_ARMv6m in
  let asize := bits (Platform.addressWordSize (m_platform g)) in
  (20 + asize <= 2 ^ 64 ->
   m_locals (setupLocals 20 g) = ceilDiv 20 asize * asize) /\
  (2 ^ 64 < 20 + asize -> m_locals (setupLocals 20 g) = 0).
Proof.
  apply (setupLocals_rounds 20
           (CodeGenerator.new Platform_ARM.Platform_ARMv6m)).
  lia.
Defined.

End Rounding.

Section Reschedule.
Import CodeGenerator.

(** X12: [reschedule(offset, index)] returns without effect when [index]
    is not below the number of recorded instructions; otherwise
    [Insn::reschedule] stores through the null pointer returned by
    [Insn::write()].  In neither case is the generator changed. *)
Theorem reschedule_dereferences_null (offset index : Z)
  (g : CodeGenerator.t) :
  0 <= index ->
  Z.of_nat (length (m_insns g)) < 2 ^ 64 ->
  reschedule offset index g =
  (if index >=? Z.of_nat (length (m_insns g))
   then Ok tt else Fail NullDereference, g).
Proof.
  intros Hindex Hlen. unfold reschedule. cbv zeta.
  rewrite Z.geb_leb.
  destruct (Z.leb_spec (Z.of_nat (length (m_insns g))) index) as [Hge|Hlt];
    [reflexivity|].
  assert (Hpos : wrap64 (Z.of_nat (length (m_insns g)) - index - 1) =
                 Z.of_nat (length (m_insns g)) - index - 1)
    by (unfold wrap64; apply Z.mod_small; lia).
  rewrite Hpos.
  destruct (at_index_in_range (m_insns g)
              (Z.of_nat (length (m_insns g)) - index - 1))
    as [insn [Hat _]]; [lia|].
  rewrite Hat. reflexivity.
Qed.

Lemma reschedule_dereferences_null_witness :
  reschedule 1 0 oneInsn =
  (if 0 >=? Z.of_nat (length (m_insns oneInsn))
   then Ok tt else Fail NullDereference, oneInsn).
Proof.
  apply (reschedule_dereferences_null 1 0 oneInsn).
  - lia.
  - simpl. lia.
Defined.

End Reschedule.

(** ** [Platform]: looking registers up *)

Section Lookup.
Import BasicRegister.

(** X13: on a platform whose register numbers are pairwise different,
    [registerForNumber] returns each registered register for its own
    number, and the null register [BasicRegister()] for a number that no
    registered register has. *)
Theorem registerForNumber_lookup (p : Platform.t) :
  numbersDistinct p = true ->
  (forall it, In it (Platform.m_registers p) ->
              Platform.registerForNumber p (number it) = it) /\
  (forall n, (forall it, In it (Platform.m_registers p) -> number it <> n) ->
             Platform.registerForNumber p n = BasicRegister.null).
Proof.
  unfold numbersDistinct, Platform.registerForNumber.
  induction (Platform.m_registers p) as [|x regs IH]; intros Hd.
  - split; [intros it []|reflexivity].
  - apply distinct_head in Hd. destruct Hd as [Hd Hfresh].
    destruct (IH Hd) as [IHin IHout]. split.
    + intros it [Hit|Hit]; simpl.
      * subst it. rewrite Z.eqb_refl. reflexivity.
      * destruct (Z.eqb_spec (number x) (number it)) as [Heq|_];
          [|apply IHin; exact Hit].
        exfalso. apply (Hfresh (number it)); [|exact Heq].
        apply in_map. exact Hit.
    + intros n Hn. simpl.
      destruct (Z.eqb_spec (number x) n) as [Heq|_].
      * exfalso. apply (Hn x); [left; reflexivity|exact Heq].
      * apply IHout. intros it Hit. apply Hn. right. exact Hit.
Qed.

Lemma registerForNumber_lookup_witness :
  (forall it, In it (Platform.m_registers Platform_ARM.Platform_ARMv8a) ->
              Platform.registerForNumber Platform_ARM.Platform_ARMv8a
                                         (number it) = it) /\
  (forall n,
     (forall it, In it (Platform.m_registers Platform_ARM.Platform_ARMv8a) ->
                 number it <> n) ->
     Platform.registerForNumber Platform_ARM.Platform_ARMv8a n =
     BasicRegister.null).
Proof.
  apply (registerForNumber_lookup Platform_ARM.Platform_ARMv8a).
  vm_compute. reflexivity.
Defined.

Lemma find_name_total (name : string) (regs : list BasicRegister.t) :
  name <> EmptyString ->
  forallb (fun it =>
             forallb (fun s => hasSize it s
                               || String.eqb (nameForSize it s) EmptyString)
                     [Size8; Size16; Size32; Size64]) regs = true ->
  exists x,
    Platform.find_name regs name = Ok x /\
    ((x = SizedRegister.empty /\
      forall it s, In it regs -> nameForSize it s <> name) \/
     (In (SizedRegister.reg x) regs /\ SizedRegister.name x = name /\
      hasSize (SizedRegister.reg x) (SizedRegister.size x) = true)).
Proof.
  intros Hne. induction regs as [|it regs IH]; intros Hnames.
  - exists SizedRegister.empty. split; [reflexivity|]. left.
    split; [reflexivity|]. intros it s [].
  - simpl in Hnames. apply andb_true_iff in Hnames.
    destruct Hnames as [Hit Hrest]. rewrite !andb_true_iff in Hit.
    destruct Hit as [H8 [H16 [H32 [H64 _]]]].
    assert (Hsupp : forall s, nameForSize it s = name -> hasSize it s = true).
    { intros s Hs.
      assert (Hor : hasSize it s || String.eqb (nameForSize it s) EmptyString
                    = true) by (destruct s; assumption).
      apply orb_true_iff in Hor. destruct Hor as [Hh|He]; [exact Hh|].
      apply String.eqb_eq in He. congruence. }
    simpl.
    destruct (String.eqb_spec name (name64 it)) as [E64|N64].
    { exists (SizedRegister.mk it Size64).
      rewrite make_hasSize, (Hsupp Size64) by (symmetry; exact E64).
      split; [reflexivity|]. right. simpl.
      split; [left; reflexivity|].
      split; [symmetry; exact E64|]. apply Hsupp. symmetry. exact E64. }
    destruct (String.eqb_spec name (name32 it)) as [E32|N32].
    { exists (SizedRegister.mk it Size32).
      rewrite make_hasSize, (Hsupp Size32) by (symmetry; exact E32).
      split; [reflexivity|]. right. simpl.
      split; [left; reflexivity|].
      split; [symmetry; exact E32|]. apply Hsupp. symmetry. exact E32. }
    destruct (String.eqb_spec name (name16 it)) as [E16|N16].
    { exists (SizedRegister.mk it Size16).
      rewrite make_hasSize, (Hsupp Size16) by (symmetry; exact E16).
      split; [reflexivity|]. right. simpl.
      split; [left; reflexivity|].
      split; [symmetry; exact E16|]. apply Hsupp. symmetry. exact E16. }
    destruct (String.eqb_spec name (name8 it)) as [E8|N8].
    { exists (SizedRegister.mk it Size8).
      rewrite make_hasSize, (Hsupp Size8) by (symmetry; exact E8).
      split; [reflexivity|]. right. simpl.
      split; [left; reflexivity|].
      split; [symmetry; exact E8|]. apply Hsupp. symmetry. exact E8. }
    destruct (IH Hrest) as [x [Hx Hcases]]. exists x.
    split; [exact Hx|].
    destruct Hcases as [[Hempty Hnone]|[Hin [Hname Hsize]]].
    + left. split; [exact Hempty|].
      intros it' s [Hit'|Hit'].
      * subst it'. destruct s; simpl; congruence.
      * apply Hnone. exact Hit'.
    + right. split; [right; exact Hin|]. split; assumption.
Qed.

(** X14: on a platform whose registers have names only for the sizes they
    support, [registerForName] never throws: it returns the empty
    [SizedRegister()] for the empty name and for a name no register has,
    and otherwise a registered register at a size it supports whose
    [name()] is the name asked for. *)
Theorem registerForName_lookup (p : Platform.t) (name : string) :
  namesSupported p = true ->
  exists x,
    Platform.registerForName p name = Ok x /\
    ((x = SizedRegister.empty /\
      (name = EmptyString \/
       forall it s, In it (Platform.m_registers p) ->
                    nameForSize it s <> name)) \/
     (name <> EmptyString /\
      In (SizedRegister.reg x) (Platform.m_registers p) /\
      SizedRegister.name x = name /\
      hasSize (SizedRegister.reg x) (SizedRegister.size x) = true)).
Proof.
  intros Hnames. unfold Platform.registerForName.
  destruct (String.eqb_spec name EmptyString) as [Hempty|Hne].
  - exists SizedRegister.empty. split; [reflexivity|]. left.
    split; [reflexivity|left; exact Hempty].
  - destruct (find_name_total name _ Hne Hnames) as [x [Hx Hcases]].
    exists x. split; [exact Hx|].
    destruct Hcases as [[He Hnone]|Hfound].
    + left. split; [exact He|right; exact Hnone].
    + right. split; [exact Hne|exact Hfound].
Qed.

Lemma registerForName_lookup_witness :
  exists x,
    Platform.registerForName Platform_ARM.Platform_ARMv8a "w3" = Ok x /\
    ((x = SizedRegister.empty /\
      ("w3"%string = EmptyString \/
       forall it s,
         In it (Platform.m_registers Platform_ARM.Platform_ARMv8a) ->
         nameForSize it s <> "w3"%string)) \/
     ("w3"%string <> EmptyString /\
      In (SizedRegister.reg x)
         (Platform.m_registers Platform_ARM.Platform_ARMv8a) /\
      SizedRegister.name x = "w3"%string /\
      hasSize (SizedRegister.reg x) (SizedRegister.size x) = true)).
Proof.
  apply (registerForName_lookup Platform_ARM.Platform_ARMv8a "w3").
  vm_compute. reflexivity.
Defined.

End Lookup.

(** ** [setupPermutation]: the state pointer *)

Section PointerArgument.
Import BasicRegister CodeGenerator.

Lemma skipn_nth_error {A : Type} (l : list A) :
  forall (n : nat) (x : A),
    nth_error l n = Some x -> exists rest, skipn n l = x :: rest.
Proof.
  induction l as [|y l IH]; intros [|n] x H; simpl in *; try discriminate.
  - inversion H. exists l. reflexivity.
  - apply IH. exact H.
Qed.

(** A pointer argument for which an argument register is left. *)
Lemma addArgument_pointer (g : CodeGenerator.t) (basic : BasicRegister.t) :
  let p := m_platform g in
  let address := Platform.addressWordSize p in
  nth_error (Platform.m_arguments p) (Z.to_nat (m_nextArgumentReg g))
  = Some basic ->
  hasSize basic address = true ->
  addArgument ARG_PTR g =
  (Ok (Reg.mk (bits address) (bits address) true
              [SizedRegister.mk basic address]),
   addArgumentOffset 0 (markUsed (number basic) (nextArgument g))).
Proof.
  intros p address Hnth Hsize.
  destruct (skipn_nth_error _ _ _ Hnth) as [rest Hskip].
  unfold addArgument. fold p. fold address. cbv zeta. simpl isPtr. cbv iota.
  rewrite Hskip. unfold bindM.
  assert (Hregs : argumentRegs (basic :: rest) 1 address Reg.null g =
            (Ok (0, Reg.mk (bits address) (bits address) true
                           [SizedRegister.mk basic address]),
             markUsed (number basic) (nextArgument g))).
  { cbn [argumentRegs]. change (1 >? 0) with true. cbv iota.
    unfold Reg.addRegisterSized. rewrite make_hasSize, Hsize.
    cbn [bind]. unfold Reg.addRegister. cbn.
    replace (wrap64 (bits address)) with (bits address)
      by (destruct address; reflexivity).
    destruct rest; reflexivity. }
  rewrite Hregs. cbn [fst snd]. cbn [Z.to_nat stackRegs]. unfold ret at 1.
  assert (Hzero : Z.land (wrap64 (wrap64 (0 * bits address) + bits address - 1))
                         (wrap64 (Z.lnot (bits address - 1))) = 0)
    by (destruct address; reflexivity).
  rewrite Hzero.
  destruct (Platform.hasFeature p Platform.BigEndian).
  - unfold lift. rewrite reversed_ok by reflexivity. reflexivity.
  - reflexivity.
Qed.

(** [(n + asize - 1) & ~(asize - 1)] on [size_t], without wrap-around. *)
Lemma round_up_address (n : Z) (address : Size) :
  0 <= n -> n + bits address <= 2 ^ 64 ->
  Z.land (wrap64 (n + bits address - 1)) (wrap64 (Z.lnot (bits address - 1)))
  = ceilDiv n (bits address) * bits address.
Proof.
  intros Hn Hfit.
  assert (Hk : exists k, 0 <= k /\ bits address = 2 ^ k /\
                         8 <= bits address <= 64).
  { destruct address; [exists 3|exists 4|exists 5|exists 6]; simpl;
      repeat split; lia. }
  destruct Hk as [k [Hk [Ha Hrange]]].
  change (2 ^ 64) with 18446744073709551616 in Hfit.
  assert (Hw : wrap64 (n + bits address - 1) = n + bits address - 1).
  { unfold wrap64. change (2 ^ 64) with 18446744073709551616.
    apply Z.mod_small. lia. }
  rewrite Hw. unfold ceilDiv. rewrite Ha.
  apply land_lnot_low; [|exact Hk].
  rewrite <- Ha. change (2 ^ 64) with 18446744073709551616. lia.
Qed.

(** X15: [setupPermutation(state, sizeLocals)] on a generator whose
    next argument register exists, has a number below 64 and supports the
    address word size sets [state] to that register alone, at the address
    word size.  In the generator it leaves behind, [m_locals] is
    [sizeLocals] rounded up to a multiple of the address size, the
    argument cursor has advanced by one, the bit of the register is set in
    both masks, and the stack offset of the arguments, the instruction
    buffer, the platform and the allocation size are as before; on
    little-endian and big-endian platforms alike. *)
Theorem setupPermutation_first_argument
  (sizeLocals : Z) (g : CodeGenerator.t) (basic : BasicRegister.t) :
  let p := m_platform g in
  let address := Platform.addressWordSize p in
  nth_error (Platform.m_arguments p) (Z.to_nat (m_nextArgumentReg g))
  = Some basic ->
  hasSize basic address = true ->
  0 <= number basic < 64 ->
  0 <= sizeLocals ->
  sizeLocals + bits address <= 2 ^ 64 ->
  0 <= m_nextArgumentOffset g < 2 ^ 64 ->
  setupPermutation sizeLocals g =
  (Ok (Reg.mk (bits address) (bits address) true
              [SizedRegister.mk basic address]),
   CodeGenerator.mk p (m_insns g) (m_allocationSize g)
     (Z.lor (m_allocatedRegs g) (2 ^ number basic))
     (Z.lor (m_usedRegs g) (2 ^ number basic))
     (m_nextArgumentReg g + 1) (m_nextArgumentOffset g)
     (ceilDiv sizeLocals (bits address) * bits address)).
Proof.
  intros p address Hnth Hsize Hnumber Hlocals Hfit Hoffset.
  unfold setupPermutation.
  rewrite (addArgument_pointer (setupLocals sizeLocals g) basic)
    by assumption.
  f_equal.
  unfold addArgumentOffset, markUsed, setMasks, nextArgument, setupLocals.
  cbn [m_platform m_insns m_allocationSize m_allocatedRegs m_usedRegs
       m_nextArgumentReg m_nextArgumentOffset m_locals].
  fold p. fold address.
  destruct (regBit_cases (number basic)) as [[_ Hbit]|Hbit];
    [|exfalso; unfold regBit, wrap64 in Hbit;
      rewrite Z.shiftl_1_l in Hbit;
      assert (0 < 2 ^ number basic < 2 ^ 64)
        by (split; [apply Z.pow_pos_nonneg; lia
                   |apply Z.pow_lt_mono_r; lia]);
      rewrite Z.mod_small in Hbit by lia; lia].
  rewrite Hbit, Z.add_0_r.
  rewrite round_up_address by assumption.
  unfold wrap64. rewrite Z.mod_small by exact Hoffset. reflexivity.
Qed.

Lemma setupPermutation_first_argument_witness :
  let g := CodeGenerator.new Platform_ARM.Platform_ARMv6m in
  let address := Platform.addressWordSize (m_platform g) in
  setupPermutation 20 g =
  (Ok (Reg.mk (bits address) (bits address) true
              [SizedRegister.mk r0 address]),
   CodeGenerator.mk (m_platform g) (m_insns g) (m_allocationSize g)
     (Z.lor (m_allocatedRegs g) (2 ^ number r0))
     (Z.lor (m_usedRegs g) (2 ^ number r0))
     (m_nextArgumentReg g + 1) (m_nextArgumentOffset g)
     (ceilDiv 20 (bits address) * bits address)).
Proof.
  apply (setupPermutation_first_argument 20
           (CodeGenerator.new Platform_ARM.Platform_ARMv6m) r0).
  - reflexivity.
  - reflexivity.
  - change (0 <= 0 < 64). lia.
  - lia.
  - change (20 + 32 <= 2 ^ 64). lia.
  - change (0 <= 0 < 2 ^ 64). lia.
Defined.

End PointerArgument.

(** ** Immediate operands of the ARM platforms *)

Section Immediates.
Import BasicRegister.

Lemma testbit_below (v n i : Z) :
  0 <= v < 2 ^ n -> n <= i -> Z.testbit v i = false.
Proof.
  intros Hv Hi.
  destruct (Z.ltb_spec n 0) as [Hneg|Hn];
    [rewrite Z.pow_neg_r in Hv by exact Hneg; lia|].
  rewrite <- (Z.mod_small v (2 ^ n)) by exact Hv.
  apply Z.mod_pow2_bits_high. lia.
Qed.

Lemma testbit_multiple (v j i : Z) :
  v mod 2 ^ j = 0 -> 0 <= i < j -> Z.testbit v i = false.
Proof.
  intros Hmod Hi.
  rewrite <- (Z.mod_pow2_bits_low v j i) by lia.
  rewrite Hmod. apply Z.bits_0.
Qed.

(** [(v & mask) == v] for a mask of [n] ones from bit [j] on. *)
Lemma land_field (v n j : Z) :
  0 <= v -> 0 <= n -> 0 <= j ->
  Z.land v (Z.ones n * 2 ^ j) = v <-> v mod 2 ^ j = 0 /\ v < 2 ^ (n + j).
Proof.
  intros Hv Hn Hj. rewrite <- Z.shiftl_mul_pow2 by exact Hj.
  assert (Hmask : forall i, 0 <= i ->
            Z.testbit (Z.shiftl (Z.ones n) j) i = (j <=? i) && (i <? n + j)).
  { intros i Hi. destruct (Z.leb_spec j i) as [Hge|Hlt].
    - rewrite Z.shiftl_spec_high by lia.
      destruct (Z.ltb_spec i (n + j)).
      + apply Z.ones_spec_low. lia.
      + apply Z.ones_spec_high. lia.
    - apply Z.shiftl_spec_low. exact Hlt. }
  split.
  - intros H. split.
    + apply Z.bits_inj'. intros i Hi. rewrite Z.bits_0.
      destruct (Z.ltb_spec i j) as [Hlt|Hge].
      * rewrite Z.mod_pow2_bits_low by lia.
        rewrite <- H, Z.land_spec, Hmask by exact Hi.
        replace (j <=? i) with false by (symmetry; apply Z.leb_gt; lia).
        apply andb_false_r.
      * apply Z.mod_pow2_bits_high. lia.
    + assert (Hsmall : v = v mod 2 ^ (n + j)).
      { apply Z.bits_inj'. intros i Hi.
        destruct (Z.ltb_spec i (n + j)) as [Hlt|Hge].
        - rewrite Z.mod_pow2_bits_low by lia. reflexivity.
        - rewrite Z.mod_pow2_bits_high by lia.
          rewrite <- H, Z.land_spec, Hmask by exact Hi.
          replace (i <? n + j) with false by (symmetry; apply Z.ltb_ge; lia).
          rewrite !andb_false_r. reflexivity. }
      rewrite Hsmall. apply Z.mod_pos_bound. apply Z.pow_pos_nonneg; lia.
  - intros [Hmod Hlt]. apply Z.bits_inj'. intros i Hi.
    rewrite Z.land_spec, Hmask by exact Hi.
    destruct (Z.leb_spec j i) as [Hge|Hlow].
    + destruct (Z.ltb_spec i (n + j)) as [Hin|Hhigh].
      * apply andb_true_r.
      * rewrite (testbit_below v (n + j) i) by lia. reflexivity.
    + rewrite (testbit_multiple v j i) by (assumption || lia). reflexivity.
Qed.

Lemma land_field_eqb (v n j mask : Z) :
  0 <= v -> 0 <= n -> 0 <= j -> mask = Z.ones n * 2 ^ j ->
  (Z.land v mask =? v) = (v mod 2 ^ j =? 0) && (v <? 2 ^ (n + j)).
Proof.
  intros Hv Hn Hj ->.
  pose proof (land_field v n j Hv Hn Hj) as H.
  destruct (Z.eqb_spec (Z.land v (Z.ones n * 2 ^ j)) v) as [He|Hne].
  - destruct (proj1 H He) as [Hm Hl]. symmetry.
    apply andb_true_iff. split; [apply Z.eqb_eq|apply Z.ltb_lt]; assumption.
  - symmetry. apply not_true_is_false. intros Hb.
    apply andb_true_iff in Hb. destruct Hb as [Hm Hl].
    apply Z.eqb_eq in Hm. apply Z.ltb_lt in Hl. apply Hne, H. split; assumption.
Qed.

(** [(v & (2^n - 1)) == 0]: alignment to [2^n]. *)
Lemma land_low_eqb (v n : Z) :
  0 <= n -> (Z.land v (2 ^ n - 1) =? 0) = (v mod 2 ^ n =? 0).
Proof.
  intros Hn. replace (2 ^ n - 1) with (Z.ones n)
    by (rewrite Z.ones_equiv; lia).
  rewrite Z.land_ones by exact Hn. reflexivity.
Qed.

(** X16: [Platform_ARMv8a::validateImmediate] accepts an immediate of
    [ADDI], [CMPI], [CMPNI] or [SUBI] exactly when it is below [2^12] or a
    multiple of [2^12] below [2^24]; it always returns. *)
Theorem ARMv8a_arithmetic_immediate
  (ty : Insn.InsnType) (value : Z) (size : Size) :
  In ty [Insn.ADDI; Insn.CMPI; Insn.CMPNI; Insn.SUBI] ->
  0 <= value ->
  (Platform_ARMv8a.validateImmediate ty value size = Some true <->
   value < 2 ^ 12 \/ (value mod 2 ^ 12 = 0 /\ value < 2 ^ 24)) /\
  (Platform_ARMv8a.validateImmediate ty value size = Some true \/
   Platform_ARMv8a.validateImmediate ty value size = Some false).
Proof.
  intros Hty Hv.
  assert (Hcode : Platform_ARMv8a.validateImmediate ty value size =
            if Z.land value 0x00000FFF =? value then Some true
            else if Z.land value 0x00FFF000 =? value then Some true
            else Some false).
  { simpl in Hty. destruct Hty as [<-|[<-|[<-|[<-|[]]]]]; reflexivity. }
  rewrite Hcode.
  rewrite (land_field_eqb value 12 0 0x00000FFF) by (try lia; reflexivity).
  rewrite (land_field_eqb value 12 12 0x00FFF000) by (try lia; reflexivity).
  change (2 ^ 0) with 1. rewrite Z.mod_1_r. change (0 =? 0) with true.
  change (12 + 0) with 12. change (12 + 12) with 24. cbn [andb].
  destruct (Z.ltb_spec value (2 ^ 12)) as [H12|H12].
  - split; [|left; reflexivity]. split; [left; exact H12|reflexivity].
  - destruct (Z.eqb_spec (value mod 2 ^ 12) 0) as [Hm|Hm]; cbn [andb].
    + destruct (Z.ltb_spec value (2 ^ 24)) as [H24|H24].
      * split; [|left; reflexivity].
        split; [right; split; assumption|reflexivity].
      * split; [|right; reflexivity].
        split; [discriminate|]. intros [H|[_ H]]; lia.
    + split; [|right; reflexivity].
      split; [discriminate|]. intros [H|[H _]]; [lia|contradiction].
Qed.

Lemma ARMv8a_arithmetic_immediate_witness :
  (Platform_ARMv8a.validateImmediate Insn.ADDI 0x5000 Size64 = Some true <->
   0x5000 < 2 ^ 12 \/ (0x5000 mod 2 ^ 12 = 0 /\ 0x5000 < 2 ^ 24)) /\
  (Platform_ARMv8a.validateImmediate Insn.ADDI 0x5000 Size64 = Some true \/
   Platform_ARMv8a.validateImmediate Insn.ADDI 0x5000 Size64 = Some false).
Proof.
  apply (ARMv8a_arithmetic_immediate Insn.ADDI 0x5000 Size64).
  - simpl. left. reflexivity.
  - lia.
Defined.

(** X17: [isOperandMoveConstantARMv8a] accepts exactly the values with
    one 16-bit chunk: a multiple of [2^(16k)] below [2^(16k+16)], with
    [k] in 0..3 for a 64-bit move and, on the low 32 bits of the value,
    [k] in 0..1 otherwise. *)
Theorem ARMv8a_move_immediate (value : Z) (size : Size) :
  0 <= value ->
  let v := if Size_eqb size Size64 then value else wrap32 value in
  let chunks := if Size_eqb size Size64 then 4 else 2 in
  Platform_ARMv8a.isOperandMoveConstantARMv8a value size = true <->
  exists k, 0 <= k < chunks /\
            v mod 2 ^ (16 * k) = 0 /\ v < 2 ^ (16 * k + 16).
Proof.
  intros Hv v chunks. unfold Platform_ARMv8a.isOperandMoveConstantARMv8a.
  subst v chunks. destruct (Size_eqb size Size64).
  - rewrite (land_field_eqb value 16 0 0x000000000000FFFF)
      by (try lia; reflexivity).
    rewrite (land_field_eqb value 16 16 0x00000000FFFF0000)
      by (try lia; reflexivity).
    rewrite (land_field_eqb value 16 32 0x0000FFFF00000000)
      by (try lia; reflexivity).
    rewrite (land_field_eqb value 16 48 0xFFFF000000000000)
      by (try lia; reflexivity).
    split.
    + intros H.
      destruct ((value mod 2 ^ 0 =? 0) && (value <? 2 ^ (16 + 0))) eqn:H0.
      { exists 0. apply andb_true_iff in H0. destruct H0 as [Hm Hl].
        apply Z.eqb_eq in Hm. apply Z.ltb_lt in Hl.
        split; [lia|]. split; assumption. }
      destruct ((value mod 2 ^ 16 =? 0) && (value <? 2 ^ (16 + 16))) eqn:H1.
      { exists 1. apply andb_true_iff in H1. destruct H1 as [Hm Hl].
        apply Z.eqb_eq in Hm. apply Z.ltb_lt in Hl.
        split; [lia|]. split; assumption. }
      destruct ((value mod 2 ^ 32 =? 0) && (value <? 2 ^ (16 + 32))) eqn:H2.
      { exists 2. apply andb_true_iff in H2. destruct H2 as [Hm Hl].
        apply Z.eqb_eq in Hm. apply Z.ltb_lt in Hl.
        split; [lia|]. split; assumption. }
      destruct ((value mod 2 ^ 48 =? 0) && (value <? 2 ^ (16 + 48))) eqn:H3;
        [|discriminate].
      exists 3. apply andb_true_iff in H3. destruct H3 as [Hm Hl].
      apply Z.eqb_eq in Hm. apply Z.ltb_lt in Hl.
      split; [lia|]. split; assumption.
    + intros [k [Hk [Hm Hl]]].
      assert (Hcase : k = 0 \/ k = 1 \/ k = 2 \/ k = 3) by lia.
      destruct Hcase as [-> | [-> | [-> | ->]]];
        apply Z.eqb_eq in Hm; apply Z.ltb_lt in Hl;
        simpl Z.mul in Hm, Hl; simpl Z.add in Hl.
      * change (16 + 0) with 16. rewrite Hm, Hl. reflexivity.
      * change (16 + 16) with 32. rewrite Hm, Hl.
        destruct (_ && _); reflexivity.
      * change (16 + 32) with 48. rewrite Hm, Hl.
        destruct (_ && _); [reflexivity|]. destruct (_ && _); reflexivity.
      * change (16 + 48) with 64. rewrite Hm, Hl.
        destruct (_ && _); [reflexivity|].
        destruct (_ && _); [reflexivity|]. destruct (_ && _); reflexivity.
  - cbv zeta. fold (wrap32 value).
    assert (Hw : 0 <= wrap32 value)
      by (apply Z.mod_pos_bound; reflexivity).
    rewrite (land_field_eqb (wrap32 value) 16 0 0x0000FFFF)
      by (try lia; reflexivity).
    rewrite (land_field_eqb (wrap32 value) 16 16 0xFFFF0000)
      by (try lia; reflexivity).
    split.
    + intros H.
      destruct ((wrap32 value mod 2 ^ 0 =? 0)
                && (wrap32 value <? 2 ^ (16 + 0))) eqn:H0.
      { exists 0. apply andb_true_iff in H0. destruct H0 as [Hm Hl].
        apply Z.eqb_eq in Hm. apply Z.ltb_lt in Hl.
        split; [lia|]. split; assumption. }
      destruct ((wrap32 value mod 2 ^ 16 =? 0)
                && (wrap32 value <? 2 ^ (16 + 16))) eqn:H1; [|discriminate].
      exists 1. apply andb_true_iff in H1. destruct H1 as [Hm Hl].
      apply Z.eqb_eq in Hm. apply Z.ltb_lt in Hl.
      split; [lia|]. split; assumption.
    + intros [k [Hk [Hm Hl]]].
      assert (Hcase : k = 0 \/ k = 1) by lia.
      destruct Hcase as [->| ->];
        apply Z.eqb_eq in Hm; apply Z.ltb_lt in Hl;
        simpl Z.mul in Hm, Hl; simpl Z.add in Hl.
      * change (16 + 0) with 16. rewrite Hm, Hl. reflexivity.
      * change (16 + 16) with 32. rewrite Hm, Hl.
        destruct (_ && _); reflexivity.
Qed.

Lemma ARMv8a_move_immediate_witness :
  Platform_ARMv8a.isOperandMoveConstantARMv8a 0x12340000 Size64 = true <->
  exists k, 0 <= k < 4 /\
            0x12340000 mod 2 ^ (16 * k) = 0 /\ 0x12340000 < 2 ^ (16 * k + 16).
Proof.
  apply (ARMv8a_move_immediate 0x12340000 Size64). lia.
Defined.

End Immediates.

Section Offsets.
Import BasicRegister.

Lemma aligned_offset (value k : Z) :
  0 <= value -> 1 <= k <= 3 ->
  (Z.land value (2 ^ k - 1) =? 0) && (value <=? 4095 * 2 ^ k) =
  (value mod 2 ^ k =? 0) && (value / 2 ^ k <=? 4095).
Proof.
  intros Hv Hk. rewrite land_low_eqb by lia.
  destruct (Z.eqb_spec (value mod 2 ^ k) 0) as [Hm|Hm]; [|reflexivity].
  cbn [andb]. apply Bool.eq_true_iff_eq. rewrite !Z.leb_le.
  assert (Hcase : k = 1 \/ k = 2 \/ k = 3) by lia.
  destruct Hcase as [-> | [-> | ->]];
    [change (2 ^ 1) with 2 in *|change (2 ^ 2) with 4 in *
    |change (2 ^ 3) with 8 in *];
    Z.div_mod_to_equations; lia.
Qed.

(** X18: for the loads and stores, [Platform_ARMv8a::validateImmediate]
    accepts exactly the offsets that are a multiple of the number of bytes
    moved, with a quotient of at most 4095. *)
Theorem ARMv8a_transfer_offset
  (ty : Insn.InsnType) (value : Z) (size : Size) :
  0 < transferBytes ty ->
  0 <= value ->
  Platform_ARMv8a.validateImmediate ty value size =
  Some ((value mod transferBytes ty =? 0)
        && (value / transferBytes ty <=? 4095)).
Proof.
  intros Hty Hv.
  destruct ty; simpl in Hty; try lia; clear Hty;
    cbn [Platform_ARMv8a.validateImmediate transferBytes]; f_equal;
    try (rewrite Z.mod_1_r, Z.div_1_r; reflexivity);
    try exact (aligned_offset value 1 Hv ltac:(lia));
    try exact (aligned_offset value 2 Hv ltac:(lia));
    exact (aligned_offset value 3 Hv ltac:(lia)).
Qed.

Lemma ARMv8a_transfer_offset_witness :
  Platform_ARMv8a.validateImmediate Insn.LD32 16380 Size64 =
  Some ((16380 mod transferBytes Insn.LD32 =? 0)
        && (16380 / transferBytes Insn.LD32 <=? 4095)).
Proof.
  apply (ARMv8a_transfer_offset Insn.LD32 16380 Size64).
  - simpl. lia.
  - lia.
Defined.

(** X19: offsets accepted by [Platform_ARMv6m::validateImmediate]: for
    [LD32], [LD32S] and [ST32] the multiples of 4 up to [4 * 31]; for
    [LD16] and [ST16], whose test is [(value & 2) == 0], the values up to
    62 that are 0 or 1 modulo 4 (odd offsets such as 1 pass, the even
    offset 2 does not); for [LD8] and [ST8] the values up to 31; and none
    for [LD16S] and [LD8S]. *)
Theorem ARMv6m_transfer_offset (value : Z) (size : Size) :
  0 <= value ->
  (forall ty, In ty [Insn.LD32; Insn.LD32S; Insn.ST32] ->
     Platform_ARMv6m.validateImmediate ty value size =
     (value mod 4 =? 0) && (value / 4 <=? 31)) /\
  (forall ty, In ty [Insn.LD16; Insn.ST16] ->
     Platform_ARMv6m.validateImmediate ty value size =
     (value mod 4 <? 2) && (value <=? 62)) /\
  (forall ty, In ty [Insn.LD8; Insn.ST8] ->
     Platform_ARMv6m.validateImmediate ty value size = (value <=? 31)) /\
  Platform_ARMv6m.validateImmediate Insn.LD16S value size = false /\
  Platform_ARMv6m.validateImmediate Insn.LD8S value size = false.
Proof.
  intros Hv.
  assert (H32 : (Z.land value 3 =? 0) && (value <=? 124) =
                (value mod 4 =? 0) && (value / 4 <=? 31)).
  { change 3 with (2 ^ 2 - 1). rewrite land_low_eqb by lia.
    change (2 ^ 2) with 4.
    destruct (Z.eqb_spec (value mod 4) 0) as [Hm|Hm]; [|reflexivity].
    cbn [andb]. apply Bool.eq_true_iff_eq. rewrite !Z.leb_le.
    Z.div_mod_to_equations; lia. }
  assert (H16 : (Z.land value 2 =? 0) = (value mod 4 <? 2)).
  { change 2 with (2 ^ 1) at 1. rewrite land_pow2_eqb by lia.
    apply Bool.eq_true_iff_eq. rewrite negb_true_iff, Z.ltb_lt.
    pose proof (Z.testbit_spec' value 1 ltac:(lia)) as Hbit.
    change (2 ^ 1) with 2 in Hbit.
    destruct (Z.testbit value 1); simpl Z.b2z in Hbit;
      split; intros H; try discriminate; try reflexivity;
      Z.div_mod_to_equations; lia. }
  split; [|split; [|split; [|split]]]; try reflexivity.
  - intros ty [<-|[<-|[<-|[]]]]; exact H32.
  - intros ty [<-|[<-|[]]]; simpl; rewrite H16; reflexivity.
  - intros ty [<-|[<-|[]]]; reflexivity.
Qed.

Lemma ARMv6m_transfer_offset_witness :
  (forall ty, In ty [Insn.LD32; Insn.LD32S; Insn.ST32] ->
     Platform_ARMv6m.validateImmediate ty 2 Size32 =
     (2 mod 4 =? 0) && (2 / 4 <=? 31)) /\
  (forall ty, In ty [Insn.LD16; Insn.ST16] ->
     Platform_ARMv6m.validateImmediate ty 2 Size32 =
     (2 mod 4 <? 2) && (2 <=? 62)) /\
  (forall ty, In ty [Insn.LD8; Insn.ST8] ->
     Platform_ARMv6m.validateImmediate ty 2 Size32 = (2 <=? 31)) /\
  Platform_ARMv6m.validateImmediate Insn.LD16S 2 Size32 = false /\
  Platform_ARMv6m.validateImmediate Insn.LD8S 2 Size32 = false.
Proof.
  apply (ARMv6m_transfer_offset 2 Size32). lia.
Defined.

End Offsets.

Section Operand2.
Import BasicRegister Platform_ARMv6.

Lemma testbit_wrap32 (x j : Z) :
  0 <= j -> Z.testbit (wrap32 x) j = (j <? 32) && Z.testbit x j.
Proof.
  intros Hj. unfold wrap32.
  destruct (Z.ltb_spec j 32) as [Hlt|Hge].
  - rewrite Z.mod_pow2_bits_low by lia. reflexivity.
  - rewrite Z.mod_pow2_bits_high by lia. reflexivity.
Qed.

Lemma rotl32_range (w r : Z) : 0 <= rotl32 w r < 2 ^ 32.
Proof. unfold rotl32, wrap32. apply Z.mod_pos_bound. reflexivity. Qed.

(** Bit [i] of the rotated word is bit [i - r] of the word, modulo 32. *)
Lemma testbit_rotl32 (w r i : Z) :
  0 <= w < 2 ^ 32 -> 0 <= r < 32 -> 0 <= i < 32 ->
  Z.testbit (rotl32 w r) i = Z.testbit w ((i - r) mod 32).
Proof.
  intros Hw Hr Hi. unfold rotl32.
  rewrite testbit_wrap32, Z.lor_spec, testbit_wrap32 by lia.
  replace (i <? 32) with true by (symmetry; apply Z.ltb_lt; lia).
  cbn [andb]. rewrite Z.shiftr_spec by lia.
  destruct (Z.ltb_spec i r) as [Hlt|Hge].
  - rewrite Z.shiftl_spec_low by exact Hlt. cbn [orb].
    f_equal. apply Z.mod_unique with (q := -1); lia.
  - rewrite Z.shiftl_spec_high by lia.
    rewrite (testbit_below w 32 (i + (32 - r))) by lia.
    rewrite orb_false_r. f_equal. symmetry. apply Z.mod_small. lia.
Qed.

Lemma rotl32_0 (w : Z) : 0 <= w < 2 ^ 32 -> rotl32 w 0 = w.
Proof.
  intros Hw. apply Z.bits_inj'. intros i Hi.
  destruct (Z.ltb_spec i 32) as [Hlt|Hge].
  - rewrite testbit_rotl32 by lia. f_equal.
    rewrite Z.sub_0_r. apply Z.mod_small. lia.
  - rewrite (testbit_below (rotl32 w 0) 32 i) by (apply rotl32_range || lia).
    rewrite (testbit_below w 32 i) by lia. reflexivity.
Qed.

(** One round of the loop turns the rotation by [r] into the rotation by
    [r + 2]. *)
Lemma rotl2_rotl32 (w r : Z) :
  0 <= w < 2 ^ 32 -> 0 <= r -> r + 2 < 32 ->
  rotl2 (rotl32 w r) = rotl32 w (r + 2).
Proof.
  intros Hw Hr Hr2. change (rotl2 (rotl32 w r)) with (rotl32 (rotl32 w r) 2).
  apply Z.bits_inj'. intros i Hi.
  destruct (Z.ltb_spec i 32) as [Hlt|Hge].
  - rewrite testbit_rotl32 by (apply rotl32_range || lia).
    rewrite testbit_rotl32
      by (try apply Z.mod_pos_bound; try assumption; lia).
    rewrite testbit_rotl32 by lia. f_equal.
    rewrite Zminus_mod_idemp_l. f_equal. lia.
  - rewrite !(testbit_below (rotl32 _ _) 32 i)
      by (apply rotl32_range || lia).
    reflexivity.
Qed.

Lemma operand2_loop_rotations (v : Z) :
  0 <= v < 2 ^ 32 ->
  forall (rounds : nat) (r : Z),
    0 <= r -> r + 2 * Z.of_nat rounds < 32 ->
    operand2_loop rounds (rotl32 v r) = true <->
    exists i, 1 <= i <= Z.of_nat rounds /\ rotl32 v (r + 2 * i) < 256.
Proof.
  intros Hv. induction rounds as [|n IH]; intros r Hr Hbound.
  - simpl. split; [discriminate|]. intros [i [Hi _]]. lia.
  - cbn [operand2_loop]. cbv zeta. rewrite rotl2_rotl32 by lia.
    destruct (Z.ltb_spec (rotl32 v (r + 2)) 256) as [Hlt|Hge].
    + split; [|reflexivity]. intros _. exists 1.
      split; [lia|]. replace (r + 2 * 1) with (r + 2) by lia. exact Hlt.
    + rewrite IH by lia. split.
      * intros [i [Hi Hrot]]. exists (i + 1). split; [lia|].
        replace (r + 2 * (i + 1)) with (r + 2 + 2 * i) by lia. exact Hrot.
      * intros [i [Hi Hrot]].
        destruct (Z.eq_dec i 1) as [->|Hne];
          [replace (r + 2 * 1) with (r + 2) in Hrot by lia; lia|].
        exists (i - 1). split; [lia|].
        replace (r + 2 + 2 * (i - 1)) with (r + 2 * i) by lia. exact Hrot.
Qed.

Lemma rotation_by_30_checked :
  forallb (fun c => negb (Z.odd c)
                    || (negb (isOperand2ConstantARMv6 (4 * c))
                        && (rotl32 (4 * c) 30 =? c)))
          (zrange 128 128) = true.
Proof. vm_compute. reflexivity. Qed.

(** X20: [Platform_ARMv6::validateImmediate] accepts a 32-bit operand of
    the arithmetic and logical instructions exactly when rotating it left
    by one of 0, 2, ..., 28 bits gives a value below 256.  The rotation by
    30 is not tried: an odd 8-bit value of at least 128 shifted left by 2,
    which that rotation brings back below 256, is rejected. *)
Theorem ARMv6_operand2_rotations (value : Z) :
  0 <= value < 2 ^ 32 ->
  (forall ty size,
     In ty [Insn.ADCI; Insn.ADDI; Insn.ANDI; Insn.BICI; Insn.MOVI; Insn.MOVN;
            Insn.ORI; Insn.SBCI; Insn.SUBI; Insn.SUBRI; Insn.XORI] ->
     (validateImmediate ty value size = true <->
      exists k, 0 <= k <= 14 /\ rotl32 value (2 * k) < 256)) /\
  (128 <= value < 256 -> Z.odd value = true ->
   rotl32 (4 * value) 30 = value /\
   isOperand2ConstantARMv6 (4 * value) = false).
Proof.
  intros Hv. split.
  - intros ty size Hty.
    assert (Hcode : validateImmediate ty value size =
                    isOperand2ConstantARMv6 value).
    { replace value with (wrap32 value) at 2
        by (unfold wrap32; apply Z.mod_small; exact Hv).
      simpl in Hty.
      repeat (destruct Hty as [<-|Hty]; [reflexivity|]). contradiction. }
    rewrite Hcode. unfold isOperand2ConstantARMv6.
    destruct (Z.ltb_spec value 256) as [Hlt|Hge].
    + split; [|reflexivity]. intros _. exists 0. split; [lia|].
      rewrite rotl32_0 by exact Hv. exact Hlt.
    + rewrite <- (rotl32_0 value Hv) at 1.
      rewrite (operand2_loop_rotations value Hv 14 0) by lia.
      split.
      * intros [i [Hi Hrot]]. exists i. split; [lia|exact Hrot].
      * intros [k [Hk Hrot]].
        destruct (Z.eq_dec k 0) as [->|Hne];
          [rewrite rotl32_0 in Hrot by exact Hv; lia|].
        exists k. split; [lia|exact Hrot].
  - intros Hc Hodd.
    pose proof rotation_by_30_checked as Hall.
    rewrite forallb_forall in Hall.
    specialize (Hall value (in_zrange 128 128 value ltac:(lia))).
    rewrite Hodd in Hall. cbn [negb orb] in Hall.
    apply andb_true_iff in Hall. destruct Hall as [Hrej Hrot].
    apply negb_true_iff in Hrej. apply Z.eqb_eq in Hrot.
    split; assumption.
Qed.

Lemma ARMv6_operand2_rotations_witness :
  (forall ty size,
     In ty [Insn.ADCI; Insn.ADDI; Insn.ANDI; Insn.BICI; Insn.MOVI; Insn.MOVN;
            Insn.ORI; Insn.SBCI; Insn.SUBI; Insn.SUBRI; Insn.XORI] ->
     (validateImmediate ty 0xFF size = true <->
      exists k, 0 <= k <= 14 /\ rotl32 0xFF (2 * k) < 256)) /\
  (128 <= 0xFF < 256 -> Z.odd 0xFF = true ->
   rotl32 (4 * 0xFF) 30 = 0xFF /\
   isOperand2ConstantARMv6 (4 * 0xFF) = false).
Proof.
  apply (ARMv6_operand2_rotations 0xFF). lia.
Defined.

End Operand2.

Section Modified.
Import BasicRegister Platform_ARMv7m.

Lemma land_pow2_set (v n : Z) :
  0 <= n -> (Z.land v (2 ^ n) =? 2 ^ n) = Z.testbit v n.
Proof.
  intros Hn. pose proof (land_pow2_eqb v n Hn) as Hz.
  assert (Hpos : 0 < 2 ^ n) by (apply Z.pow_pos_nonneg; lia).
  destruct (land_pow2_cases v n Hn) as [H|H]; rewrite H in *.
  - rewrite Z.eqb_refl in Hz.
    destruct (Z.testbit v n); [discriminate|]. apply Z.eqb_neq. lia.
  - rewrite Z.eqb_refl.
    replace (2 ^ n =? 0) with false in Hz by (symmetry; apply Z.eqb_neq; lia).
    destruct (Z.testbit v n); [reflexivity|discriminate].
Qed.

(** The top bit of a value of [n + 1] bits. *)
Lemma testbit_top (v n : Z) :
  0 <= n -> 0 <= v < 2 ^ (n + 1) -> Z.testbit v n = (2 ^ n <=? v).
Proof.
  intros Hn Hv. replace (n + 1) with (Z.succ n) in Hv by lia.
  rewrite Z.pow_succ_r in Hv by exact Hn.
  destruct (Z.leb_spec (2 ^ n) v) as [Hge|Hlt].
  - pose proof (Z.testbit_spec' v n Hn) as Hbit.
    replace (v / 2 ^ n) with 1 in Hbit
      by (apply Z.div_unique with (r := v - 2 ^ n); lia).
    destruct (Z.testbit v n); [reflexivity|discriminate].
  - apply (testbit_below v n n); lia.
Qed.

(** One round of the loop, for [shift = 4 * k]. *)
Lemma modified_round (v k : Z) :
  0 <= v -> 0 <= k <= 6 ->
  (Z.land v (Z.shiftr 0xFF000000 (4 * k)) =? v)
  && (Z.land v (Z.shiftr 0x80000000 (4 * k))
      =? Z.shiftr 0x80000000 (4 * k))
  = (v mod 2 ^ (24 - 4 * k) =? 0) && (v <? 2 ^ (32 - 4 * k))
    && (2 ^ (31 - 4 * k) <=? v).
Proof.
  intros Hv Hk.
  assert (Hmask : Z.shiftr 0xFF000000 (4 * k) = Z.ones 8 * 2 ^ (24 - 4 * k) /\
                  Z.shiftr 0x80000000 (4 * k) = 2 ^ (31 - 4 * k)).
  { assert (Hcase : k = 0 \/ k = 1 \/ k = 2 \/ k = 3 \/ k = 4 \/ k = 5
                    \/ k = 6) by lia.
    destruct Hcase as [-> | [-> | [-> | [-> | [-> | [-> | ->]]]]]];
      split; reflexivity. }
  destruct Hmask as [Hfield Hbit]. rewrite Hbit.
  rewrite (land_field_eqb v 8 (24 - 4 * k) _ Hv) by (lia || exact Hfield).
  replace (8 + (24 - 4 * k)) with (32 - 4 * k) by lia.
  rewrite land_pow2_set by lia.
  destruct (v mod 2 ^ (24 - 4 * k) =? 0); [|reflexivity]. cbn [andb].
  destruct (Z.ltb_spec v (2 ^ (32 - 4 * k))) as [Hlt|Hge]; [|reflexivity].
  cbn [andb]. apply testbit_top; [lia|].
  replace (31 - 4 * k + 1) with (32 - 4 * k) by lia. lia.
Qed.

Lemma modified_loop_rounds (v : Z) :
  0 <= v ->
  forall (rounds : nat) (k : Z),
    0 <= k -> k + Z.of_nat rounds <= 7 ->
    modified_loop rounds (4 * k) v = true <->
    exists i, k <= i < k + Z.of_nat rounds /\
              v mod 2 ^ (24 - 4 * i) = 0 /\
              2 ^ (31 - 4 * i) <= v < 2 ^ (32 - 4 * i).
Proof.
  intros Hv. induction rounds as [|n IH]; intros k Hk Hbound.
  - simpl. split; [discriminate|]. intros [i [Hi _]]. lia.
  - assert (Hstep : modified_loop (S n) (4 * k) v =
              ((Z.land v (Z.shiftr 0xFF000000 (4 * k)) =? v)
               && (Z.land v (Z.shiftr 0x80000000 (4 * k))
                   =? Z.shiftr 0x80000000 (4 * k)))
              || modified_loop n (4 * (k + 1)) v).
    { cbn [modified_loop]. cbv zeta.
      replace (4 * k + 4) with (4 * (k + 1)) by lia.
      destruct (Z.land v (Z.shiftr 0xFF000000 (4 * k)) =? v);
        cbn [negb andb orb]; [|reflexivity].
      destruct (_ =? _); reflexivity. }
    rewrite Hstep, modified_round by lia.
    rewrite orb_true_iff, IH by lia. rewrite !andb_true_iff.
    rewrite Z.eqb_eq, Z.ltb_lt, Z.leb_le. split.
    + intros [[[Hm Hl] Hh]|[i [Hi Hrest]]].
      * exists k. split; [lia|]. split; [exact Hm|lia].
      * exists i. split; [lia|exact Hrest].
    + intros [i [Hi [Hm Hrange]]].
      destruct (Z.eq_dec i k) as [->|Hne].
      * left. repeat split; (exact Hm || lia).
      * right. exists i. split; [lia|]. split; assumption.
Qed.

Lemma shifted_bytes_checked :
  forallb (fun c =>
     negb (Z.odd c)
     || forallb (fun j => Bool.eqb (isOperand2ConstantARMv7m (c * 2 ^ j))
                                   (j mod 4 =? 0))
                (zrange 0 25))
    (zrange 128 128) = true.
Proof. vm_compute. reflexivity. Qed.

(** X21: the loop that ends [isOperand2ConstantARMv7m] accepts exactly
    the multiples of [2^(24 - 4k)] between [2^(31 - 4k)] and [2^(32 - 4k)],
    for [k] in 0..6, and what it accepts the function accepts.  For an odd
    8-bit value [c] of at least 128 shifted left by [j] bits, [j] in 0..24,
    [Platform_ARMv7m::validateImmediate] accepts the operand of an
    arithmetic or logical instruction exactly when [j] is a multiple of 4. *)
Theorem ARMv7m_shifted_byte (value : Z) :
  0 <= value < 2 ^ 32 ->
  (modified_loop 7 0 value = true <->
   exists k, 0 <= k <= 6 /\ value mod 2 ^ (24 - 4 * k) = 0 /\
             2 ^ (31 - 4 * k) <= value < 2 ^ (32 - 4 * k)) /\
  (modified_loop 7 0 value = true ->
   isOperand2ConstantARMv7m value = true) /\
  (forall c j, 128 <= c < 256 -> Z.odd c = true -> 0 <= j <= 24 ->
     value = c * 2 ^ j ->
     forall ty size,
       In ty [Insn.ADCI; Insn.ADDI; Insn.ANDI; Insn.BICI; Insn.MOVI;
              Insn.MOVN; Insn.ORI; Insn.SBCI; Insn.SUBI; Insn.SUBRI;
              Insn.XORI] ->
       validateImmediate ty value size = (j mod 4 =? 0)).
Proof.
  intros Hv. split; [|split].
  - change 0 with (4 * 0) at 1.
    rewrite (modified_loop_rounds value (proj1 Hv) 7 0) by lia.
    split; intros [i [Hi Hrest]]; exists i; (split; [lia|exact Hrest]).
  - intros Hloop. unfold isOperand2ConstantARMv7m. rewrite Hloop.
    destruct (value <? 256); [reflexivity|].
    destruct (_ && _); [reflexivity|].
    destruct (_ && _); [reflexivity|].
    destruct (_ && _); reflexivity.
  - intros c j Hc Hodd Hj Hvalue ty size Hty.
    assert (Hcode : validateImmediate ty value size =
                    isOperand2ConstantARMv7m value).
    { replace value with (wrap32 value) at 2
        by (unfold wrap32; apply Z.mod_small; exact Hv).
      simpl in Hty.
      repeat (destruct Hty as [<-|Hty]; [reflexivity|]). contradiction. }
    rewrite Hcode, Hvalue.
    pose proof shifted_bytes_checked as Hall.
    rewrite forallb_forall in Hall.
    specialize (Hall c (in_zrange 128 128 c ltac:(lia))).
    rewrite Hodd in Hall. cbn [negb orb] in Hall.
    rewrite forallb_forall in Hall.
    specialize (Hall j (in_zrange 0 25 j ltac:(lia))).
    apply Bool.eqb_prop in Hall. exact Hall.
Qed.

Lemma ARMv7m_shifted_byte_witness :
  (modified_loop 7 0 0xFF0 = true <->
   exists k, 0 <= k <= 6 /\ 0xFF0 mod 2 ^ (24 - 4 * k) = 0 /\
             2 ^ (31 - 4 * k) <= 0xFF0 < 2 ^ (32 - 4 * k)) /\
  (modified_loop 7 0 0xFF0 = true ->
   isOperand2ConstantARMv7m 0xFF0 = true) /\
  (forall c j, 128 <= c < 256 -> Z.odd c = true -> 0 <= j <= 24 ->
     0xFF0 = c * 2 ^ j ->
     forall ty size,
       In ty [Insn.ADCI; Insn.ADDI; Insn.ANDI; Insn.BICI; Insn.MOVI;
              Insn.MOVN; Insn.ORI; Insn.SBCI; Insn.SUBI; Insn.SUBRI;
              Insn.XORI] ->
       validateImmediate ty 0xFF0 size = (j mod 4 =? 0)).
Proof.
  apply (ARMv7m_shifted_byte 0xFF0). lia.
Defined.

End Modified.

(** ** [Registration] *)

Section RegistrationFacts.
Import Registration.

Lemma string_ltb_lt (a b : string) :
  String.ltb a b = true <-> OrderedTypeEx.String_as_OT.lt a b.
Proof.
  unfold String.ltb. rewrite <- OrderedTypeEx.String_as_OT.cmp_lt.
  unfold OrderedTypeEx.String_as_OT.cmp.
  destruct (String.compare a b); split; congruence.
Qed.

Lemma string_ltb_irrefl (a : string) : String.ltb a a = false.
Proof.
  apply not_true_is_false. intros H. apply string_ltb_lt in H.
  apply (OrderedTypeEx.String_as_OT.lt_not_eq _ _ H). reflexivity.
Qed.

Lemma string_ltb_trans (a b c : string) :
  String.ltb a b = true -> String.ltb b c = true -> String.ltb a c = true.
Proof.
  rewrite !string_ltb_lt. apply OrderedTypeEx.String_as_OT.lt_trans.
Qed.

Lemma string_ltb_total (a b : string) :
  String.ltb a b = false -> String.ltb b a = false -> a = b.
Proof.
  unfold String.ltb. rewrite (String.compare_antisym b a).
  destruct (String.compare a b) eqn:Hc; simpl; try discriminate.
  intros _ _. apply String.compare_eq_iff. exact Hc.
Qed.

(** The three cases of [operator<]. *)
Lemma ltb_cases (a b : t) :
  ltb a b = true <->
  String.ltb (m_name a) (m_name b) = true \/
  (m_name a = m_name b /\
   (String.ltb (m_variant a) (m_variant b) = true \/
    (m_variant a = m_variant b /\
     String.ltb (m_platform a) (m_platform b) = true))).
Proof.
  unfold ltb.
  destruct (String.ltb (m_name a) (m_name b)) eqn:Hn.
  { split; [left; reflexivity|reflexivity]. }
  destruct (String.eqb_spec (m_name a) (m_name b)) as [En|Nn]; simpl.
  2:{ split; [discriminate|]. intros [H|[H _]]; [discriminate|contradiction]. }
  destruct (String.ltb (m_variant a) (m_variant b)) eqn:Hv.
  { split; [|reflexivity]. intros _. right. split; [exact En|left; reflexivity]. }
  destruct (String.eqb_spec (m_variant a) (m_variant b)) as [Ev|Nv]; simpl.
  2:{ split; [discriminate|].
      intros [H|[_ [H|[H _]]]]; [discriminate|discriminate|contradiction]. }
  split.
  - intros H. right. split; [exact En|]. right. split; assumption.
  - intros [H|[_ [H|[_ H]]]]; [discriminate|discriminate|exact H].
Qed.

(** X22: [Registration::operator<] is a strict total order on the triple
    (name, variant, platform): it is irreflexive and transitive, and two
    registrations neither of which is below the other have the same three
    names. *)
Theorem Registration_lt_strict_order :
  (forall a, ltb a a = false) /\
  (forall a b c, ltb a b = true -> ltb b c = true -> ltb a c = true) /\
  (forall a b, ltb a b = false -> ltb b a = false ->
     m_name a = m_name b /\ m_variant a = m_variant b /\
     m_platform a = m_platform b).
Proof.
  split; [|split].
  - intros a. unfold ltb.
    rewrite !string_ltb_irrefl, !String.eqb_refl. reflexivity.
  - intros a b c Hab Hbc. rewrite ltb_cases in *.
    destruct Hab as [Hab|[Eab Hab]]; destruct Hbc as [Hbc|[Ebc Hbc]].
    + left. eapply string_ltb_trans; eassumption.
    + left. rewrite <- Ebc. exact Hab.
    + left. rewrite Eab. exact Hbc.
    + right. split; [congruence|].
      destruct Hab as [Hab|[Vab Hab]]; destruct Hbc as [Hbc|[Vbc Hbc]].
      * left. eapply string_ltb_trans; eassumption.
      * left. rewrite <- Vbc. exact Hab.
      * left. rewrite Vab. exact Hbc.
      * right. split; [congruence|]. eapply string_ltb_trans; eassumption.
  - intros a b Hab Hba.
    assert (Hn : m_name a = m_name b).
    { apply string_ltb_total.
      - apply not_true_is_false. intros H.
        assert (ltb a b = true) by (apply ltb_cases; left; exact H).
        congruence.
      - apply not_true_is_false. intros H.
        assert (ltb b a = true) by (apply ltb_cases; left; exact H).
        congruence. }
    assert (Hv : m_variant a = m_variant b).
    { apply string_ltb_total.
      - apply not_true_is_false. intros H.
        assert (ltb a b = true)
          by (apply ltb_cases; right; split; [exact Hn|left; exact H]).
        congruence.
      - apply not_true_is_false. intros H.
        assert (ltb b a = true)
          by (apply ltb_cases; right; split;
              [symmetry; exact Hn|left; exact H]).
        congruence. }
    split; [exact Hn|]. split; [exact Hv|].
    apply string_ltb_total.
    + apply not_true_is_false. intros H.
      assert (ltb a b = true)
        by (apply ltb_cases; right; split; [exact Hn|];
            right; split; [exact Hv|exact H]).
      congruence.
    + apply not_true_is_false. intros H.
      assert (ltb b a = true)
        by (apply ltb_cases; right; split; [symmetry; exact Hn|];
            right; split; [symmetry; exact Hv|exact H]).
      congruence.
Qed.

(** X23: [Registration::find] returns the first registration in the
    vector whose qualified name is the one asked for, and the empty
    [Registration()] when there is none. *)
Theorem find_first_registered
  (before after : list t) (r : t) :
  Forall (fun x => qualifiedName x <> qualifiedName r) before ->
  find (before ++ r :: after) (qualifiedName r) = r /\
  (forall name,
     Forall (fun x => qualifiedName x <> name) (before ++ r :: after) ->
     find (before ++ r :: after) name = new).
Proof.
  intros Hbefore. split.
  - induction Hbefore as [|x before Hx _ IH]; simpl.
    + rewrite String.eqb_refl. reflexivity.
    + apply String.eqb_neq in Hx. rewrite Hx. exact IH.
  - intros name Hnone.
    induction (before ++ r :: after) as [|x l IH]; [reflexivity|].
    inversion Hnone as [|? ? Hx Hl]; subst. simpl.
    apply String.eqb_neq in Hx. rewrite Hx. apply IH. exact Hl.
Qed.

Lemma find_first_registered_witness :
  let r := mk "keccak" "p200" "armv6m" 1 2 0 0 in
  find ([mk "ascon" EmptyString "armv6m" 3 4 0 0] ++ r :: [])
       (qualifiedName r) = r /\
  (forall name,
     Forall (fun x => qualifiedName x <> name)
            ([mk "ascon" EmptyString "armv6m" 3 4 0 0] ++ r :: []) ->
     find ([mk "ascon" EmptyString "armv6m" 3 4 0 0] ++ r :: []) name = new).
Proof.
  apply (find_first_registered
           [mk "ascon" EmptyString "armv6m" 3 4 0 0] []
           (mk "keccak" "p200" "armv6m" 1 2 0 0)).
  constructor; [discriminate|constructor].
Defined.

(** X24: [qualifiedName] leaves out an empty variant, so a registration
    with variant [s] and no platform and one with platform [s] and no
    variant have the same qualified name, and [find] asked for the second
    returns the first when it was registered earlier. *)
Theorem qualifiedName_ambiguous
  (name s : string) (g1 t1 a1 b1 g2 t2 a2 b2 : Z) (rest : list t) :
  let withVariant := mk name s EmptyString g1 t1 a1 b1 in
  let withPlatform := mk name EmptyString s g2 t2 a2 b2 in
  qualifiedName withVariant = qualifiedName withPlatform /\
  find (withVariant :: withPlatform :: rest) (qualifiedName withPlatform)
  = withVariant.
Proof.
  intros withVariant withPlatform.
  assert (Heq : qualifiedName withVariant = qualifiedName withPlatform).
  { unfold qualifiedName, withVariant, withPlatform. simpl.
    destruct (String.eqb s EmptyString); reflexivity. }
  split; [exact Heq|].
  simpl. rewrite Heq, String.eqb_refl. reflexivity.
Qed.

End RegistrationFacts.

(** ** [Platform_ARM]: the unary and shifted binary hooks; [setAllocationSize] *)

Section Hooks.
Import BasicRegister CodeGenerator Platform_ARM.

(** X25: [Platform_ARM::unary] and the [binary] hook with a shift
    modifier never return normally and never change the generator: they
    throw [std::invalid_argument] when neither the short two-address form
    nor the three-address feature applies, and in every other case the
    instruction constructor they call stores through the null pointer
    returned by [Insn::write()] before anything reaches [addInsn]. *)
Theorem hooks_append_nothing
  (p : Platform.t) (ty : Insn.InsnType) (dest src1 src2 : SizedRegister.t)
  (modifier : Insn.Modifier) (shift : Z) (setc : bool)
  (g : CodeGenerator.t) :
  let short1 := Platform.hasFeature p Platform.TwoAddress
                && isLowReg dest && isLowReg src1 in
  let short2 := Platform.hasFeature p Platform.TwoAddress
                && SizedRegister.eqb dest src1 && isLowReg dest
                && isLowReg src2
                && (Insn.Modifier_eqb modifier Insn.MOD_NONE
                    || (shift =? 0)) in
  let three := Platform.hasFeature p Platform.ThreeAddress in
  unary p ty dest src1 g =
    (Fail (if short1 || three then NullDereference else InvalidArgument), g)
  /\
  binaryShifted p ty dest src1 src2 modifier shift setc g =
    (Fail (if short2 || three then NullDereference else InvalidArgument), g).
Proof.
  intros short1 short2 three. subst short1 short2 three. split.
  - unfold unary.
    destruct (Platform.hasFeature p Platform.TwoAddress && isLowReg dest
              && isLowReg src1); [reflexivity|].
    destruct (Platform.hasFeature p Platform.ThreeAddress); reflexivity.
  - unfold binaryShifted.
    destruct (Platform.hasFeature p Platform.TwoAddress
              && SizedRegister.eqb dest src1 && isLowReg dest
              && isLowReg src2
              && (Insn.Modifier_eqb modifier Insn.MOD_NONE || (shift =? 0)));
      [reflexivity|].
    destruct (Platform.hasFeature p Platform.ThreeAddress); [|reflexivity].
    destruct (Insn.Modifier_eqb modifier Insn.MOD_NONE || (shift =? 0));
      reflexivity.
Qed.

End Hooks.

Section AllocationSize.
Import BasicRegister CodeGenerator.

(** X26: [setAllocationSize(s)] takes effect exactly when some register
    of the platform has the [Data] flag and supports [s]; a register that
    [allocateReg] then returns for flag words without the [Address] flag
    has limbs of width [s] in that case, and of the allocation size that
    was in force before otherwise. *)
Theorem setAllocationSize_limb_width
  (s : Size) (g g' : CodeGenerator.t) (size f1 f2 f3 f4 : Z) (r : Reg.t) :
  0 <= size < 2 ^ 64 ->
  (forall f, In f [f1; f2; f3; f4] -> Z.land f Address = 0) ->
  allocateReg size f1 f2 f3 f4 (setAllocationSize s g) = (Ok r, g') ->
  Reg.limbSize r =
  bits (if existsb (fun it => hasFlag it Data && hasSize it s)
                   (Platform.m_registers (m_platform g))
        then s else m_allocationSize g).
Proof.
  intros Hsize Hflags Hcall.
  assert (Hset : m_allocationSize (setAllocationSize s g) =
                 if existsb (fun it => hasFlag it Data && hasSize it s)
                            (Platform.m_registers (m_platform g))
                 then s else m_allocationSize g).
  { unfold setAllocationSize. destruct (existsb _ _); reflexivity. }
  rewrite <- Hset. clear Hset. set (h := setAllocationSize s g) in *.
  destruct (allocateReg_ok _ _ _ _ _ _ _ _ Hcall)
    as [Hne [flags [Hin [Halloc Hnull]]]].
  destruct (allocate_ok _ _ _ _ _ Halloc Hnull)
    as [sc [[Hlimbs [_ [Hfull _]]] [Hcount [Hok [Hr _]]]]].
  unfold Reg.setSize in Hok.
  destruct (_ || _) eqn:Hcheck in Hok; [discriminate|]. clear Hok.
  destruct (limbCount_exact size (bits (limbWidth flags h))
              (limbCount size flags h) (Reg.m_fullSize sc)
              (Reg.limbSize sc))
    as [_ [_ Hpos]].
  - apply bits_cases.
  - lia.
  - reflexivity.
  - rewrite Hfull, Hcount. reflexivity.
  - exact Hcheck.
  - assert (Hwidth : limbWidth flags h = m_allocationSize h).
    { unfold limbWidth. rewrite (Hflags flags Hin). reflexivity. }
    subst r. unfold Reg.limbSize. simpl. unfold Reg.numRegs in Hcount.
    destruct (Reg.m_regs sc) as [|x rest]; [simpl in Hcount; lia|].
    inversion Hlimbs as [|? ? Hp _]; subst. destruct Hp as [Hx _].
    rewrite Hx, Hwidth. reflexivity.
Qed.

Lemma setAllocationSize_limb_width_witness :
  Reg.limbSize reg_narrow40 =
  bits (if existsb (fun it => hasFlag it Data && hasSize it Size32)
                   (Platform.m_registers
                      (m_platform
                         (CodeGenerator.new Platform_ARM.Platform_ARMv8a)))
        then Size32
        else m_allocationSize
               (CodeGenerator.new Platform_ARM.Platform_ARMv8a)).
Proof.
  apply (setAllocationSize_limb_width Size32
           (CodeGenerator.new Platform_ARM.Platform_ARMv8a) (snd narrow40)
           40 Data 0 0 0 reg_narrow40).
  - lia.
  - intros f [<-|[<-|[<-|[<-|[]]]]]; reflexivity.
  - vm_compute. reflexivity.
Defined.

End AllocationSize.
